(** * Capital-flow accounting engine of the trading dashboard

    A shallow embedding of the [TradingDataManager] class of [models.py]:
    the trade store and its import, the configuration store, the
    period-capital lookup, the monthly and biweekly period aggregators and
    the per-client capital reconciliation walk.

    Numeric model.  The program computes with IEEE doubles held in pandas
    columns.  Finite values are modelled by exact rationals ([Q]); the
    three special values a pandas division can produce (NaN and the two
    infinities) are modelled by the type [fval] where the source divides.
    [round(x, 2)] and [Series.round(2)] are modelled by rounding the value
    scaled by 100 to the nearest integer, ties to even.

    Table model.  A DataFrame is modelled by the list of its rows, each
    column holding the type it has once the table has been loaded from
    its file: dates are dates, amounts are finite numbers.  Of the dtypes
    of the columns the model keeps those of the three numeric columns of
    the trades that are printed into the trade signature, [int64] or
    [float64].

    Period model.  A pandas [Period] is modelled by its ordinal: months are
    numbered [12 * year + (month - 1)], and the ['2W'] frequency by the
    number of the Monday-to-Sunday week containing the date, which is the
    ordinal pandas assigns to such a period.  The strings into which the
    source prints periods are identified with these ordinals.  Where the
    source reads a printed period back with [pd.Period] and compares it
    with a period column, the frequencies of the two sides are kept
    beside the ordinals.

    Strings.  A string is the sequence of its bytes.  The only place
    where the source looks inside a string by Unicode rules is the
    normalisation of the headers of an uploaded file; the model works it
    out for ASCII headers and takes what Python makes of any other header
    as a parameter. *)

From Stdlib Require Import ZArith QArith Qround Qabs Lqa Lia List Bool.
From Stdlib Require Import String Ascii.
From stdpp Require Import base decidable option list strings gmap pretty.

Open Scope Q_scope.

(** ** Numbers *)

Module Num.

(** Nearest integer, ties to even: [numpy.rint]. *)
Definition rint (y : Q) : Z :=
  let f := Qfloor y in
  match Qcompare (y - inject_Z f)%Q (1 # 2)%Q with
  | Lt => f
  | Gt => (f + 1)%Z
  | Eq => if Z.even f then f else (f + 1)%Z
  end.

(** [round(x, 2)]: scale by 100, round to the nearest integer, scale back. *)
Definition round2 (x : Q) : Q := Qred (rint (x * 100) # 100).

(** [Series.sum()] and the builtin [sum] of a list, both starting from 0. *)
Definition sum (l : list Q) : Q := fold_left Qplus l 0.

(** A float column entry: a finite value, an infinity or NaN. *)
Inductive fval : Type :=
| Fin (q : Q)
| PInf
| NInf
| NaN.

Definition is_finite (v : fval) : bool :=
  match v with Fin _ => true | _ => false end.

(** Sign of a finite value: [Lt], [Eq] or [Gt] against zero. *)
Definition sgn (q : Q) : comparison := q ?= 0.

(** IEEE division: a non-zero value over zero is an infinity, zero over
    zero is NaN; no exception is raised by a pandas column division. *)
Definition fdiv (a b : fval) : fval :=
  match a, b with
  | NaN, _ | _, NaN => NaN
  | Fin x, Fin y =>
      match sgn y with
      | Eq => match sgn x with Eq => NaN | Gt => PInf | Lt => NInf end
      | _ => Fin (x / y)
      end
  | Fin _, (PInf | NInf) => Fin 0
  | (PInf | NInf), (PInf | NInf) => NaN
  | PInf, Fin y => match sgn y with Lt => NInf | _ => PInf end
  | NInf, Fin y => match sgn y with Lt => PInf | _ => NInf end
  end.

Definition fmul (a b : fval) : fval :=
  match a, b with
  | NaN, _ | _, NaN => NaN
  | Fin x, Fin y => Fin (x * y)
  | Fin x, PInf | PInf, Fin x =>
      match sgn x with Eq => NaN | Gt => PInf | Lt => NInf end
  | Fin x, NInf | NInf, Fin x =>
      match sgn x with Eq => NaN | Gt => NInf | Lt => PInf end
  | PInf, PInf | NInf, NInf => PInf
  | PInf, NInf | NInf, PInf => NInf
  end.

(** [Series.round(2)] leaves NaN and the infinities as they are. *)
Definition fround2 (v : fval) : fval :=
  match v with Fin q => Fin (round2 q) | _ => v end.

(** [Series.fillna(d)] *)
Definition fillna (d : Q) (v : fval) : fval :=
  match v with NaN => Fin d | _ => v end.

(** [Series.replace([inf, -inf], d)] *)
Definition replace_inf (d : Q) (v : fval) : fval :=
  match v with PInf | NInf => Fin d | _ => v end.

(** The finite value held by an entry that is known to be finite. *)
Definition finite_value (v : fval) : Q :=
  match v with Fin q => q | _ => 0 end.

End Num.

(** ** Dates and periods *)

Record Date : Type := mkDate { year : Z; month_of_year : Z; day : Z }.

#[global] Instance Date_eq_dec : EqDecision Date.
Proof. solve_decision. Defined.

(** Days since 1970-01-01 of a proleptic Gregorian date. *)
Definition days_from_civil (d : Date) : Z :=
  let y := if (month_of_year d <=? 2)%Z then (year d - 1)%Z else year d in
  let era := (y / 400)%Z in
  let yoe := (y - era * 400)%Z in
  let mp := if (month_of_year d >? 2)%Z then (month_of_year d - 3)%Z
            else (month_of_year d + 9)%Z in
  let doy := ((153 * mp + 2) / 5 + day d - 1)%Z in
  let doe := (yoe * 365 + yoe / 4 - yoe / 100 + doy)%Z in
  (era * 146097 + doe - 719468)%Z.

(** [.dt.to_period('M')] *)
Definition to_period_M (d : Date) : Z :=
  (12 * year d + (month_of_year d - 1))%Z.

(** [.dt.to_period('2W')]: the ordinal of the week (ending on Sunday) that
    contains the date; 1970-01-01 was a Thursday. *)
Definition to_period_2W (d : Date) : Z :=
  ((days_from_civil d + 3) / 7)%Z.

(** Comparison of two timestamps, [a >= b]. *)
Definition date_geb (a b : Date) : bool :=
  (days_from_civil b <=? days_from_civil a)%Z.

(** ** Data model: the five tables held by [TradingDataManager] *)

(** A row of [trades_df].  The derived columns are stored with the row.
    [trade_client_id] is the cell of a [client_id] column, which the table
    has when an uploaded file had one; it is [None] when the table has no
    such column or the cell is empty. *)
Record Trade : Type := mkTrade {
  trade_id : string;
  buy_date : Date;
  sell_date : Date;
  stock : string;
  buy_price : Q;
  sell_price : Q;
  quantity : Q;
  profit_loss : Q;
  position_size : Q;
  return_pct : Num.fval;
  win_loss : string;
  trade_client_id : option string
}.

(** A row of [clients_df].  [investment_start_date] is [None] when the
    column is missing or the entry is NaN. *)
Record Client : Type := mkClient {
  client_id : string;
  client_name : string;
  starting_capital : Q;
  investment_start_date : option Date;
  active : bool
}.

(** A row of [capital_movements_df]; [movement_type] is ['contribution'] or
    ['withdrawal']. *)
Record CapitalMovement : Type := mkMovement {
  movement_id : string;
  movement_client : string;
  movement_date : Date;
  movement_type : string;
  amount : Q;
  notes : string
}.

(** A row of [monthly_capital_df].  [capital_client_id] is the cell of a
    [client_id] column, [None] when the file read into the table has no
    such column or the cell is empty. *)
Record MonthlyCapital : Type := mkMonthlyCapital {
  month : Date;
  total_capital : Q;
  capital_notes : string;
  capital_client_id : option string
}.

(** One section of [config.json]: a dictionary in which any key may be
    missing. *)
Record ConfigSection : Type := mkSection {
  tax_rate : option Q;
  trader_share : option Q;
  investor_share : option Q;
  auto_remove_day_trades : option bool;
  enable_sp500_comparison : option bool
}.

(** [self.config]: the global section and the per-client sections. *)
Record Config : Type := mkConfig {
  global : ConfigSection;
  clients : gmap string ConfigSection
}.

(** The dtype pandas gives a numeric column: [int64] when every cell read
    into it is an integer literal, [float64] otherwise. *)
Inductive Dtype : Type :=
| Int64
| Float64.

#[global] Instance Dtype_eq_dec : EqDecision Dtype.
Proof. solve_decision. Defined.

(** The dtypes of the three numeric columns of a table of trades that
    enter the trade signature. *)
Record NumericTypes : Type := mkNumericTypes {
  buy_price_dtype : Dtype;
  sell_price_dtype : Dtype;
  quantity_dtype : Dtype
}.

#[global] Instance NumericTypes_eq_dec : EqDecision NumericTypes.
Proof. solve_decision. Defined.

Definition all_int64 : NumericTypes := mkNumericTypes Int64 Int64 Int64.

(** The tables of the data manager.  [trades_dtypes] are the dtypes of the
    numeric columns of [trades_df]; they decide how the numbers print. *)
Record TradingDataManager : Type := mkManager {
  config : Config;
  trades_df : list Trade;
  clients_df : list Client;
  capital_movements_df : list CapitalMovement;
  monthly_capital_df : list MonthlyCapital;
  trades_dtypes : NumericTypes
}.

(** ** Configuration: [get_config] and [update_config] *)

(** The dictionary returned by [get_config]; the client variant has no
    [enable_sp500_comparison] key. *)
Record Settings : Type := mkSettings {
  cfg_tax_rate : Q;
  cfg_trader_share : Q;
  cfg_investor_share : Q;
  cfg_auto_remove_day_trades : bool;
  cfg_enable_sp500_comparison : option bool
}.

Definition get_config (cfg : Config) (cid : option string) : Settings :=
  match cid with
  | None =>
      let g := global cfg in
      {| cfg_tax_rate := default (25 # 100) (tax_rate g);
         cfg_trader_share := default (40 # 100) (trader_share g);
         cfg_investor_share := default (60 # 100) (investor_share g);
         cfg_auto_remove_day_trades := default true (auto_remove_day_trades g);
         cfg_enable_sp500_comparison :=
           Some (default true (enable_sp500_comparison g)) |}
  | Some c =>
      let client_config :=
        default (mkSection None None None None None) (clients cfg !! c) in
      let global_config := global cfg in
      {| cfg_tax_rate :=
           default (default (25 # 100) (tax_rate global_config))
                   (tax_rate client_config);
         cfg_trader_share :=
           default (default (40 # 100) (trader_share global_config))
                   (trader_share client_config);
         cfg_investor_share :=
           default (default (60 # 100) (investor_share global_config))
                   (investor_share client_config);
         cfg_auto_remove_day_trades :=
           default true (auto_remove_day_trades global_config);
         cfg_enable_sp500_comparison := None |}
  end.

Definition set_tax_rate (v : Q) (s : ConfigSection) : ConfigSection :=
  mkSection (Some v) (trader_share s) (investor_share s)
            (auto_remove_day_trades s) (enable_sp500_comparison s).

(** Setting the trader share writes both shares. *)
Definition set_trader_share (v : Q) (s : ConfigSection) : ConfigSection :=
  mkSection (tax_rate s) (Some v) (Some (1 - v))
            (auto_remove_day_trades s) (enable_sp500_comparison s).

Definition apply_updates (tax ts : option Q) (s : ConfigSection)
  : ConfigSection :=
  let s1 := match tax with Some v => set_tax_rate v s | None => s end in
  match ts with Some v => set_trader_share v s1 | None => s1 end.

(** The section created for a client that has none yet. *)
Definition default_client_section : ConfigSection :=
  mkSection (Some (25 # 100)) (Some (40 # 100)) (Some (60 # 100)) None None.

Definition update_config (tax ts : option Q) (cid : option string)
    (cfg : Config) : Config :=
  match cid with
  | None => mkConfig (apply_updates tax ts (global cfg)) (clients cfg)
  | Some c =>
      let entry := default default_client_section (clients cfg !! c) in
      mkConfig (global cfg) (<[c := apply_updates tax ts entry]> (clients cfg))
  end.

(** ** Trade store: [upload_trades] *)

(** A cell of a date column of the uploaded table: a date, or text that
    [pd.to_datetime] does not read as one. *)
Inductive DateCell : Type :=
| DateOf (d : Date)
| NotADate.

(** A cell of a numeric column: an integer literal such as [50], a literal
    with a decimal point or an exponent such as [50.0], or text that is
    not a number.  Blank cells are left out of the model. *)
Inductive NumCell : Type :=
| IntCell (z : Z)
| FloatCell (q : Q)
| NotANumber.

(** A data row of the uploaded table: the cells under the headers that
    stand for the six required columns, and the cells of the [trade_id]
    and [client_id] columns when the file has them. *)
Record RawRow : Type := mkRawRow {
  raw_trade_id : string;
  raw_client_id : option string;
  raw_buy_date : DateCell;
  raw_sell_date : DateCell;
  raw_stock : string;
  raw_buy_price : NumCell;
  raw_sell_price : NumCell;
  raw_quantity : NumCell
}.

(** The uploaded file: its name, whether [pd.read_csv] or [pd.read_excel]
    reads it as a table (they raise on a file they cannot parse), and the
    header line and the data rows of that table. *)
Record UploadFile : Type := mkUploadFile {
  file_name : string;
  file_readable : bool;
  file_columns : list string;
  file_rows : list RawRow
}.

(** The messages returned; [ErrorProcessingFile] is the one of the
    [except Exception] clause. *)
Inductive UploadMessage : Type :=
| UnsupportedFileFormat
| MissingRequiredColumns (missing : list string)
| ErrorProcessingFile
| SuccessfullyUploaded (n : nat).

Definition lower_ascii (c : ascii) : ascii :=
  let n := nat_of_ascii c in
  if ((65 <=? n) && (n <=? 90))%nat then ascii_of_nat (n + 32) else c.

Definition isalnum_ascii (c : ascii) : bool :=
  let n := nat_of_ascii c in
  (((48 <=? n) && (n <=? 57)) || ((65 <=? n) && (n <=? 90))
   || ((97 <=? n) && (n <=? 122)))%nat.

(** [''.join(ch for ch in name.lower() if ch.isalnum())] on a name made of
    ASCII characters. *)
Fixpoint normalize_ascii (name : string) : string :=
  match name with
  | EmptyString => EmptyString
  | String ch rest =>
      let ch' := lower_ascii ch in
      if isalnum_ascii ch' then String ch' (normalize_ascii rest)
      else normalize_ascii rest
  end.

(** Whether every byte of the name is an ASCII character. *)
Fixpoint is_ascii (name : string) : bool :=
  match name with
  | EmptyString => true
  | String ch rest => (nat_of_ascii ch <? 128)%nat && is_ascii rest
  end.

(** The canonical name a normalised header stands for. *)
Definition canonical_column (key : string) : option string :=
  if decide (key = "buydate") then Some "buy_date"
  else if decide (key = "selldate") then Some "sell_date"
  else if decide (key = "stock") then Some "stock"
  else if decide (key = "buyprice") then Some "buy_price"
  else if decide (key = "sellprice") then Some "sell_price"
  else if decide (key = "quantity") then Some "quantity"
  else None.

Definition required_columns : list string :=
  ["buy_date"; "sell_date"; "stock"; "buy_price"; "sell_price"; "quantity"].

Definition missing_columns (cols : list string) : list string :=
  filter (fun col => col ∉ cols) required_columns.

(** The required columns that two or more headers of the file stand for.
    Selecting such a column gives a table instead of a column, and the
    processing that follows raises. *)
Definition duplicated_columns (cols : list string) : list string :=
  filter (fun col => (2 <= length (filter (fun c => c = col) cols))%nat)
         required_columns.

Definition ends_with (suffix s : string) : bool :=
  let n := String.length s in
  let k := String.length suffix in
  (k <=? n)%nat && String.eqb (substring (n - k) k s) suffix.

(** [f"TRADE_{i+1:04d}"] *)
Definition pad4 (s : string) : string :=
  String.concat "" (replicate (4 - String.length s) "0") +:+ s.

Definition fresh_trade_id (i : nat) : string :=
  "TRADE_" +:+ pad4 (pretty (S i)).

Definition date_of (c : DateCell) : option Date :=
  match c with DateOf d => Some d | NotADate => None end.

Definition value_of (c : NumCell) : option Q :=
  match c with
  | IntCell z => Some (inject_Z z)
  | FloatCell q => Some q
  | NotANumber => None
  end.

Definition is_float_cell (c : NumCell) : bool :=
  match c with FloatCell _ => true | _ => false end.

(** The dtype inferred for a column of numbers. *)
Definition column_dtype (cells : list NumCell) : Dtype :=
  if existsb is_float_cell cells then Float64 else Int64.

Definition file_dtypes (rows : list RawRow) : NumericTypes :=
  mkNumericTypes (column_dtype (map raw_buy_price rows))
                 (column_dtype (map raw_sell_price rows))
                 (column_dtype (map raw_quantity rows)).

(** The dtype of a column of [pd.concat([a, b])], both parts not empty. *)
Definition concat_dtype (a b : Dtype) : Dtype :=
  match a, b with
  | Int64, Int64 => Int64
  | _, _ => Float64
  end.

Definition concat_dtypes (a b : NumericTypes) : NumericTypes :=
  mkNumericTypes
    (concat_dtype (buy_price_dtype a) (buy_price_dtype b))
    (concat_dtype (sell_price_dtype a) (sell_price_dtype b))
    (concat_dtype (quantity_dtype a) (quantity_dtype b)).

(** The date parsing and the derived columns computed for an uploaded
    row; [None] when a cell of the row makes the processing raise: a date
    cell that is not a date, or a numeric cell that is not a number. *)
Definition process_row (has_id has_client : bool) (i : nat) (r : RawRow)
  : option Trade :=
  match date_of (raw_buy_date r), date_of (raw_sell_date r),
        value_of (raw_buy_price r), value_of (raw_sell_price r),
        value_of (raw_quantity r) with
  | Some buy_date, Some sell_date, Some buy_price, Some sell_price,
    Some quantity =>
      let pl := (sell_price - buy_price) * quantity in
      Some {| trade_id := if has_id then raw_trade_id r else fresh_trade_id i;
              buy_date := buy_date;
              sell_date := sell_date;
              stock := raw_stock r;
              buy_price := buy_price;
              sell_price := sell_price;
              quantity := quantity;
              profit_loss := pl;
              position_size := buy_price * quantity;
              return_pct :=
                Num.fmul
                  (Num.fdiv (Num.Fin (sell_price - buy_price))
                            (Num.Fin buy_price))
                  (Num.Fin 100);
              win_loss := if Qlt_le_dec 0 pl then "Win" else "Loss";
              trade_client_id :=
                if has_client then raw_client_id r else None |}
  | _, _, _, _, _ => None
  end.

(** All rows of the table, numbered from [i]; [None] when one of them
    raises. *)
Fixpoint process_rows (has_id has_client : bool) (i : nat)
    (rows : list RawRow) : option (list Trade) :=
  match rows with
  | [] => Some []
  | r :: rest =>
      match process_row has_id has_client i r,
            process_rows has_id has_client (S i) rest with
      | Some t, Some ts => Some (t :: ts)
      | _, _ => None
      end
  end.

(** [astype(str)] of a number: an [int64] column prints [50], a [float64]
    column prints [50.0].  Two printed numbers are the same text exactly
    when the dtypes and the numbers are the same, so a printed number is
    kept as its dtype and its reduced fraction. *)
Definition Printed : Type := (Dtype * Q)%type.

Definition print_number (dtype : Dtype) (x : Q) : Printed := (dtype, Qred x).

(** The six printed fields joined by ['_']. *)
Definition Signature : Type :=
  (Date * Date * string * Printed * Printed * Printed)%type.

#[global] Instance Q_eq_dec : EqDecision Q.
Proof. solve_decision. Defined.

(** The [trade_signature] column of a table whose numeric columns have the
    dtypes [types]. *)
Definition trade_signature (types : NumericTypes) (t : Trade) : Signature :=
  (buy_date t, sell_date t, stock t,
   print_number (buy_price_dtype types) (buy_price t),
   print_number (sell_price_dtype types) (sell_price t),
   print_number (quantity_dtype types) (quantity t)).

(** [df.drop_duplicates(subset=['trade_signature'], keep='first')]; [seen]
    holds the signatures of the rows already kept. *)
Fixpoint drop_duplicates_from (types : NumericTypes) (seen : list Signature)
    (df : list Trade) : list Trade :=
  match df with
  | [] => []
  | t :: rest =>
      if decide (trade_signature types t ∈ seen)
      then drop_duplicates_from types seen rest
      else t :: drop_duplicates_from types
                  (trade_signature types t :: seen) rest
  end.

Definition drop_duplicates (types : NumericTypes) (df : list Trade)
  : list Trade :=
  drop_duplicates_from types [] df.

(** The rows of the upload after parsing, the derived columns and the
    optional removal of day trades; [None] when the processing raises. *)
Definition processed_rows (cfg : Config) (cols : list string)
    (rows : list RawRow) : option (list Trade) :=
  let has_id := bool_decide ("trade_id" ∈ cols) in
  let has_client := bool_decide ("client_id" ∈ cols) in
  match process_rows has_id has_client 0 rows with
  | Some df =>
      Some (if cfg_auto_remove_day_trades (get_config cfg None)
            then filter (fun t => buy_date t ≠ sell_date t) df
            else df)
  | None => None
  end.

Definition set_trades (self : TradingDataManager) (df : list Trade)
  : TradingDataManager :=
  mkManager (config self) df (clients_df self)
            (capital_movements_df self) (monthly_capital_df self)
            (trades_dtypes self).

(** The trade table replaced together with the dtypes of its columns. *)
Definition set_trades_typed (self : TradingDataManager) (df : list Trade)
    (types : NumericTypes) : TradingDataManager :=
  mkManager (config self) df (clients_df self)
            (capital_movements_df self) (monthly_capital_df self) types.

Section Upload.

(** [_normalize] on a header that has characters outside ASCII: what
    [str.lower] and [str.isalnum] make of them follows the Unicode tables
    of the interpreter, which are not part of the repository. *)
Variable unicode_normalize : string -> string.

(** [''.join(ch for ch in name.lower() if ch.isalnum())] *)
Definition _normalize (name : string) : string :=
  if is_ascii name then normalize_ascii name else unicode_normalize name.

(** [df.rename(columns=header_map)] on the header line. *)
Definition rename_columns (cols : list string) : list string :=
  map (fun c => default c (canonical_column (_normalize c))) cols.

(** [upload_trades].  Everything after the check of the file name runs
    inside [try], and nothing is stored before the last statement, so
    whatever raises leaves the manager as it was.  The new rows print
    with the dtypes of the file, the stored rows with the dtypes of the
    store; [pd.concat] leaves the dtypes of the store as they are when no
    row is appended. *)
Definition upload_trades (file : UploadFile) (self : TradingDataManager)
  : (bool * UploadMessage) * TradingDataManager :=
  if ends_with ".csv" (file_name file)
     || ends_with ".xlsx" (file_name file)
     || ends_with ".xls" (file_name file)
  then
    if file_readable file
    then
      let cols := rename_columns (file_columns file) in
      match missing_columns cols with
      | (_ :: _) as missing => ((false, MissingRequiredColumns missing), self)
      | [] =>
          match duplicated_columns cols,
                processed_rows (config self) cols (file_rows file) with
          | [], Some df =>
              let types := file_dtypes (file_rows file) in
              match trades_df self with
              | (_ :: _) as existing_trades =>
                  let existing :=
                    map (trade_signature (trades_dtypes self))
                        existing_trades in
                  let df :=
                    filter (fun t => trade_signature types t ∉ existing) df in
                  let df := drop_duplicates types df in
                  ((true, SuccessfullyUploaded (length df)),
                   set_trades_typed self (existing_trades ++ df)
                     match df with
                     | [] => trades_dtypes self
                     | _ :: _ => concat_dtypes (trades_dtypes self) types
                     end)
              | [] =>
                  let df := drop_duplicates types df in
                  ((true, SuccessfullyUploaded (length df)),
                   set_trades_typed self df types)
              end
          | _, _ => ((false, ErrorProcessingFile), self)
          end
      end
    else ((false, ErrorProcessingFile), self)
  else ((false, UnsupportedFileFormat), self).

End Upload.

(** ** Period capital: [get_monthly_capital] and [get_biweekly_capital] *)

Definition is_contribution (m : CapitalMovement) : Prop :=
  movement_type m = "contribution".

Definition is_withdrawal (m : CapitalMovement) : Prop :=
  movement_type m = "withdrawal".

#[global] Instance is_contribution_dec m : Decision (is_contribution m).
Proof. unfold is_contribution. apply _. Defined.

#[global] Instance is_withdrawal_dec m : Decision (is_withdrawal m).
Proof. unfold is_withdrawal. apply _. Defined.

(** [df[df['type'] == 'contribution']['amount'].sum()] *)
Definition contribution_sum (ms : list CapitalMovement) : Q :=
  Num.sum (map amount (filter is_contribution ms)).

Definition withdrawal_sum (ms : list CapitalMovement) : Q :=
  Num.sum (map amount (filter is_withdrawal ms)).

(** The default denominator: every client's starting capital plus the net
    movements whose period is not after [p]. *)
Definition default_capital (period_of : Date -> Z) (p : Z)
    (self : TradingDataManager) : Q :=
  let total_client_capital :=
    Num.sum (map starting_capital (clients_df self)) in
  match capital_movements_df self with
  | [] => total_client_capital
  | _ :: _ =>
      let movements_up_to :=
        filter (fun m => (period_of (movement_date m) <= p)%Z)
               (capital_movements_df self) in
      total_client_capital
      + (contribution_sum movements_up_to - withdrawal_sum movements_up_to)
  end.

(** The override rows whose [month] falls in period [p], then the default. *)
Definition capital_for (period_of : Date -> Z) (p : Z)
    (self : TradingDataManager) : Q :=
  match filter (fun r => period_of (month r) = p) (monthly_capital_df self) with
  | r :: _ => total_capital r
  | [] => default_capital period_of p self
  end.

(** [get_monthly_capital(month)]; [month] is the timestamp
    [pd.to_datetime] makes of the argument. *)
Definition get_monthly_capital (month : Date) (self : TradingDataManager) : Q :=
  capital_for to_period_M (to_period_M month) self.

(** [get_biweekly_capital(period)]; the period string is given by the
    ordinal of the ['2W'] period of its start date. *)
Definition get_biweekly_capital (period : Z) (self : TradingDataManager) : Q :=
  capital_for to_period_2W period self.

(** The timestamp [pd.to_datetime] makes of a printed month ['YYYY-MM']. *)
Definition month_start (p : Z) : Date := mkDate (p / 12) (p mod 12 + 1) 1.

(** ** Period aggregator *)

(** A row of the frame returned by the aggregators.  [Period] is the
    [Month] column of the monthly frame.  The columns [Avg_Win_Pct],
    [Avg_Loss_Pct] and [Period_Label] are read by the pages only and are
    not part of the model. *)
Record PeriodStats : Type := mkPeriodStats {
  Period : Z;
  Total_PL : Q;
  Total_Trades : nat;
  Winning_Trades : nat;
  Win_Rate : Q;
  Client_Capital : Q;
  Return_Pct : Q;
  Cumulative_Return : Q
}.

(** [(Total_PL / Client_Capital * 100).round(2)] *)
Definition raw_return_pct (total_pl capital : Q) : Num.fval :=
  Num.fround2
    (Num.fmul (Num.fdiv (Num.Fin total_pl) (Num.Fin capital)) (Num.Fin 100)).

(** The [Return_Pct] column: the rounded quotient, then [fillna(0)] and
    [replace([inf, -inf], 0)]. *)
Definition return_pct_column (total_pl capital : Q) : Num.fval :=
  Num.replace_inf 0 (Num.fillna 0 (raw_return_pct total_pl capital)).

(** The group keys of [groupby]: distinct, in ascending order. *)
Fixpoint insert_key (k : Z) (keys : list Z) : list Z :=
  match keys with
  | [] => [k]
  | h :: t =>
      if (k <? h)%Z then k :: keys
      else if (k =? h)%Z then keys
      else h :: insert_key k t
  end.

Definition group_keys (keys : list Z) : list Z :=
  fold_right insert_key [] keys.

(** The filter on the client's investment start date shared by the two
    aggregators; an empty [client_id] is falsy. *)
Definition trades_for_client (cid : option string)
    (self : TradingDataManager) : list Trade :=
  match cid with
  | Some c =>
      if decide (c = "") then trades_df self
      else
        match filter (fun cl => client_id cl = c) (clients_df self) with
        | cl :: _ =>
            match investment_start_date cl with
            | Some investment_start =>
                filter (fun t => date_geb (sell_date t) investment_start)
                       (trades_df self)
            | None => trades_df self
            end
        | [] => trades_df self
        end
  | None => trades_df self
  end.

Definition aggregate_group (period_of : Date -> Z)
    (capital : Z -> Q) (trades : list Trade) (k : Z) : PeriodStats :=
  let group := filter (fun t => period_of (sell_date t) = k) trades in
  let total_pl := Num.sum (map profit_loss group) in
  let total_trades := length group in
  let winning := length (filter (fun t => win_loss t = "Win") group) in
  {| Period := k;
     Total_PL := total_pl;
     Total_Trades := total_trades;
     Winning_Trades := winning;
     Win_Rate :=
       Num.round2 (inject_Z (Z.of_nat winning)
                   / inject_Z (Z.of_nat total_trades) * 100);
     Client_Capital := capital k;
     Return_Pct := Num.finite_value (return_pct_column total_pl (capital k));
     Cumulative_Return := 0 |}.

(** [Return_Pct.cumsum()] *)
Fixpoint cumsum (acc : Q) (rows : list PeriodStats) : list PeriodStats :=
  match rows with
  | [] => []
  | r :: rest =>
      let acc' := acc + Return_Pct r in
      mkPeriodStats (Period r) (Total_PL r) (Total_Trades r)
                    (Winning_Trades r) (Win_Rate r) (Client_Capital r)
                    (Return_Pct r) acc'
      :: cumsum acc' rest
  end.

Definition strategy_returns (period_of : Date -> Z) (capital : Z -> Q)
    (cid : option string) (self : TradingDataManager) : list PeriodStats :=
  match trades_df self with
  | [] => []
  | _ :: _ =>
      match trades_for_client cid self with
      | [] => []
      | (_ :: _) as trades =>
          cumsum 0
            (map (aggregate_group period_of capital trades)
                 (group_keys (map (fun t => period_of (sell_date t)) trades)))
      end
  end.

Definition get_monthly_strategy_returns (cid : option string)
    (self : TradingDataManager) : list PeriodStats :=
  strategy_returns to_period_M
    (fun k => get_monthly_capital (month_start k) self) cid self.

Definition get_biweekly_strategy_returns (cid : option string)
    (self : TradingDataManager) : list PeriodStats :=
  strategy_returns to_period_2W
    (fun k => get_biweekly_capital k self) cid self.

(** ** Capital reconciliation: [get_client_capital_flow] *)

(** The local variables of one iteration of a walk, before rounding. *)
Module Step.
Record t : Type := mk {
  period : Z;
  period_starting_capital : Q;
  period_contributions : Q;
  period_withdrawals : Q;
  net_contributions : Q;
  period_return_pct : Q;
  period_return_amount : Q;
  profit_after_tax : Q;
  investor_share : Q;
  trader_share : Q;
  current_capital : Q
}.
End Step.

(** The dictionary appended to a breakdown.  The monthly dictionaries call
    [period] and [return_pct] [month] and [monthly_return_pct]; the
    biweekly ones call [return_pct] [period_return_pct]. *)
Module Breakdown.
Record t : Type := mk {
  period : Z;
  starting_capital : Q;
  contributions : Q;
  withdrawals : Q;
  net_contributions : Q;
  capital_after_contributions : Q;
  return_pct : Q;
  profit_after_tax : Q;
  investor_share : Q;
  trader_share : Q;
  ending_capital : Q
}.
End Breakdown.

(** The dictionary returned by [get_client_capital_flow]. *)
Module Flow.
Record t : Type := mk {
  starting_capital : Q;
  current_capital : Q;
  total_contributions : Q;
  total_withdrawals : Q;
  total_returns : Q;
  monthly_breakdown : list Breakdown.t;
  biweekly_breakdown : list Breakdown.t
}.
End Flow.

(** The frequency of a pandas period.  Two periods are equal only when
    their frequencies are. *)
Inductive Freq : Type :=
| FreqM
| FreqW
| Freq2W.

#[global] Instance Freq_eq_dec : EqDecision Freq.
Proof. solve_decision. Defined.

(** A pandas [Period]: its frequency and the ordinal of its span. *)
Definition PeriodValue : Type := (Freq * Z)%type.

(** [.dt.to_period(freq)] on the [date] column, with [freq] one of ['M']
    and ['2W']. *)
Definition to_period (freq : Freq) (d : Date) : PeriodValue :=
  match freq with
  | FreqM => (FreqM, to_period_M d)
  | FreqW | Freq2W => (freq, to_period_2W d)
  end.

(** [pd.Period(text)] of a printed [Period] of a frame built with [freq].
    A printed month, ['2025-06'], reads as that month.  A ['2W'] period
    prints as the span of its week, ['2025-06-09/2025-06-15'], and the
    span reads as the weekly period: the multiple is not printed. *)
Definition Period_of_text (freq : Freq) (text : Z) : PeriodValue :=
  match freq with
  | FreqM => (FreqM, text)
  | FreqW | Freq2W => (FreqW, text)
  end.

(** The body of both [for] loops: [movements] are the client's movements,
    [current_capital] the running capital on entry, [freq] the frequency
    of the loop's frame and of the period column added to the movements.
    [movements[movements['period'] == period_period]] compares periods,
    frequency included. *)
Definition walk_step (freq : Freq) (client_config : Settings)
    (movements : list CapitalMovement) (current_capital : Q)
    (period_data : PeriodStats) : Step.t :=
  let period_str := Period period_data in
  let period_period := Period_of_text freq period_str in
  let period_movements :=
    filter (fun m => to_period freq (movement_date m) = period_period)
           movements in
  let period_contributions := contribution_sum period_movements in
  let period_withdrawals := withdrawal_sum period_movements in
  let net_contributions := period_contributions - period_withdrawals in
  let period_starting_capital := current_capital in
  let current_capital := current_capital + net_contributions in
  let period_return_pct := Return_Pct period_data in
  let period_return_amount := current_capital * (period_return_pct / 100) in
  let profit_after_tax :=
    period_return_amount * (1 - cfg_tax_rate client_config) in
  let investor_share := profit_after_tax * cfg_investor_share client_config in
  let trader_share := profit_after_tax * cfg_trader_share client_config in
  let current_capital := current_capital + investor_share in
  Step.mk period_str period_starting_capital period_contributions
          period_withdrawals net_contributions period_return_pct
          period_return_amount profit_after_tax investor_share trader_share
          current_capital.

Fixpoint walk (freq : Freq) (client_config : Settings)
    (movements : list CapitalMovement) (current_capital : Q)
    (returns : list PeriodStats) : list Step.t :=
  match returns with
  | [] => []
  | period_data :: rest =>
      let s :=
        walk_step freq client_config movements current_capital
                  period_data in
      s :: walk freq client_config movements (Step.current_capital s) rest
  end.

(** The running capital when the loop is left. *)
Definition capital_after (current_capital : Q) (steps : list Step.t) : Q :=
  List.last (map Step.current_capital steps) current_capital.

(** The rounding applied when a dictionary is appended. *)
Definition emit (s : Step.t) : Breakdown.t :=
  Breakdown.mk
    (Step.period s)
    (Num.round2 (Step.period_starting_capital s))
    (Num.round2 (Step.period_contributions s))
    (Num.round2 (Step.period_withdrawals s))
    (Num.round2 (Step.net_contributions s))
    (Num.round2 (Step.period_starting_capital s + Step.net_contributions s))
    (Step.period_return_pct s)
    (Num.round2 (Step.profit_after_tax s))
    (Num.round2 (Step.investor_share s))
    (Num.round2 (Step.trader_share s))
    (Num.round2 (Step.current_capital s)).

(** [breakdown[-1]['ending_capital']] *)
Definition last_ending_capital (breakdown : list Breakdown.t) (d : Q) : Q :=
  List.last (map Breakdown.ending_capital breakdown) d.

Definition sum_profit_after_tax (breakdown : list Breakdown.t) : Q :=
  Num.sum (map Breakdown.profit_after_tax breakdown).

(** The choice made after both walks: the pair
    [(ending_capital, total_returns)]. *)
Definition select_ending (current_capital total_returns : Q)
    (monthly_breakdown biweekly_breakdown : list Breakdown.t) : Q * Q :=
  match monthly_breakdown with
  | _ :: _ =>
      (last_ending_capital monthly_breakdown current_capital,
       sum_profit_after_tax monthly_breakdown)
  | [] =>
      match biweekly_breakdown with
      | _ :: _ =>
          (last_ending_capital biweekly_breakdown current_capital,
           total_returns)
      | [] => (current_capital, total_returns)
      end
  end.

(** The biweekly walk starts from the starting capital plus the client's
    all-time net movements.  Its period column holds ['2W'] periods and is
    compared with the weekly period read back from the frame. *)
Definition biweekly_steps (self : TradingDataManager) (cid : string)
    (cl : Client) (movements : list CapitalMovement) : list Step.t :=
  let total_available_capital :=
    starting_capital cl + contribution_sum movements
    - withdrawal_sum movements in
  walk Freq2W (get_config (config self) (Some cid)) movements
       total_available_capital
       (get_biweekly_strategy_returns (Some cid) self).

(** The monthly walk starts from the client's starting capital. *)
Definition monthly_steps (self : TradingDataManager) (cid : string)
    (cl : Client) (movements : list CapitalMovement) : list Step.t :=
  let monthly_current_capital := starting_capital cl in
  walk FreqM (get_config (config self) (Some cid)) movements
       monthly_current_capital
       (get_monthly_strategy_returns (Some cid) self).

Definition get_client_capital_flow (cid : string)
    (self : TradingDataManager) : option Flow.t :=
  match filter (fun cl => client_id cl = cid) (clients_df self) with
  | [] => None
  | cl :: _ =>
      let starting_capital := starting_capital cl in
      let movements :=
        filter (fun m => movement_client m = cid)
               (capital_movements_df self) in
      let total_contributions := contribution_sum movements in
      let total_withdrawals := withdrawal_sum movements in
      let base_capital :=
        starting_capital + total_contributions - total_withdrawals in
      match get_biweekly_strategy_returns (Some cid) self with
      | [] =>
          Some (Flow.mk starting_capital base_capital total_contributions
                        total_withdrawals 0 [] [])
      | _ :: _ =>
          let total_available_capital :=
            starting_capital + total_contributions - total_withdrawals in
          let steps := biweekly_steps self cid cl movements in
          let current_capital :=
            capital_after total_available_capital steps in
          let biweekly_breakdown := map emit steps in
          let total_returns := sum_profit_after_tax biweekly_breakdown in
          let monthly_breakdown :=
            map emit (monthly_steps self cid cl movements) in
          let '(ending_capital, total_returns) :=
            select_ending current_capital total_returns
                          monthly_breakdown biweekly_breakdown in
          Some (Flow.mk starting_capital ending_capital total_contributions
                        total_withdrawals total_returns
                        monthly_breakdown biweekly_breakdown)
      end
  end.

(** The rows an import appends to the store [existing]: the processed rows
    [df] whose signature, printed with the dtypes of the file, is not the
    signature of a stored trade, printed with the dtypes of the store, and
    of these the first of each signature. *)
Definition appended_rows (store_types file_types : NumericTypes)
    (existing df : list Trade) : list Trade :=
  drop_duplicates file_types
    (filter (fun t => trade_signature file_types t
                      ∉ map (trade_signature store_types) existing) df).

(** The dtypes of the store after an import that appended [new]: an empty
    frame does not take part in the dtypes of [pd.concat]. *)
Definition dtypes_after_import (store_types file_types : NumericTypes)
    (existing new : list Trade) : NumericTypes :=
  match existing, new with
  | [], _ => file_types
  | _ :: _, [] => store_types
  | _ :: _, _ :: _ => concat_dtypes store_types file_types
  end.

(** ** Invariants of the stores *)

(** The two shares of a resolved configuration add up to one. *)
Definition shares_sum_to_one (s : Settings) : Prop :=
  cfg_trader_share s + cfg_investor_share s == 1.

(** A stored section either leaves both shares to its fallback or stores
    both, adding up to one. *)
Definition section_ok (s : ConfigSection) : Prop :=
  match trader_share s, investor_share s with
  | Some t, Some i => t + i == 1
  | None, None => True
  | _, _ => False
  end.

Definition config_ok (cfg : Config) : Prop :=
  section_ok (global cfg)
  /\ forall c s, clients cfg !! c = Some s -> section_ok s.

(** The configuration written when no [config.json] exists. *)
Definition default_config : Config :=
  mkConfig (mkSection (Some (25 # 100)) (Some (40 # 100)) (Some (60 # 100))
                      (Some true) (Some true))
           ∅.

(** A row of a frame carries the guarded quotient of its own [Total_PL]
    and [Client_Capital]. *)
Definition row_guarded (r : PeriodStats) : Prop :=
  Return_Pct r
  = Num.finite_value (return_pct_column (Total_PL r) (Client_Capital r)).

(** The figures a period of the 10 % scenario is expected to show. *)
Definition scenario_period (p : Breakdown.t) : Prop :=
  Breakdown.capital_after_contributions p == 10000
  /\ Breakdown.profit_after_tax p == 750
  /\ Breakdown.investor_share p == 450
  /\ Breakdown.trader_share p == 300
  /\ Breakdown.ending_capital p == 10450.

(** ** Sample stores *)

Definition alice : Client :=
  mkClient "alice" "Alice" 10000 (Some (mkDate 2025 1 1)) true.

(** Bought at 100, sold at 110 in June 2025, 100 shares: a gain of 1000. *)
Definition trade_june : Trade :=
  mkTrade "TRADE_0001" (mkDate 2025 6 2) (mkDate 2025 6 10) "AAPL"
          100 110 100 1000 10000 (Num.Fin 10) "Win" None.

(** Bought at 200, sold at 190 in July 2025, 50 shares: a loss of 500. *)
Definition trade_july : Trade :=
  mkTrade "TRADE_0002" (mkDate 2025 7 1) (mkDate 2025 7 15) "MSFT"
          200 190 50 (-500) 10000 (Num.Fin (-5)) "Loss" None.

(** One client, one trading period, no movements. *)
Definition store_one_period : TradingDataManager :=
  mkManager default_config [trade_june] [alice] [] [] all_int64.

(** One client, a winning June and a losing July. *)
Definition store_two_periods : TradingDataManager :=
  mkManager default_config [trade_june; trade_july] [alice] [] [] all_int64.

(** A contribution of 2000 recorded in May, before the first trading
    period. *)
Definition store_early_contribution : TradingDataManager :=
  mkManager default_config [trade_june] [alice]
    [mkMovement "MOV_0001" "alice" (mkDate 2025 5 10) "contribution" 2000 ""]
    [] all_int64.

(** A contribution of 2000 recorded on the day the June trade is sold: in
    the month and in the week of the only trading period. *)
Definition store_same_week_contribution : TradingDataManager :=
  mkManager default_config [trade_june] [alice]
    [mkMovement "MOV_0001" "alice" (mkDate 2025 6 10) "contribution" 2000 ""]
    [] all_int64.

(** A client with a capital of 100 and a trade that gains one cent. *)
Definition store_one_cent : TradingDataManager :=
  mkManager default_config
    [mkTrade "TRADE_0001" (mkDate 2025 6 2) (mkDate 2025 6 10) "PENNY"
             1 (101 # 100) 1 (1 # 100) 1 (Num.Fin 1) "Win" None]
    [mkClient "bob" "Bob" 100 None true] [] []
    (mkNumericTypes Int64 Float64 Int64).

(** A client without capital: the June denominator is zero. *)
Definition store_no_capital : TradingDataManager :=
  mkManager default_config [trade_june]
    [mkClient "carol" "Carol" 0 None true] [] [] all_int64.

(** An explicit capital of 50000 for June 2025, an inactive second client
    and movements in May, June and July. *)
Definition store_with_override : TradingDataManager :=
  mkManager default_config [trade_june]
    [alice; mkClient "dave" "Dave" 5000 None false]
    [mkMovement "MOV_0001" "alice" (mkDate 2025 5 10) "contribution" 2000 "";
     mkMovement "MOV_0002" "dave" (mkDate 2025 6 20) "withdrawal" 500 "";
     mkMovement "MOV_0003" "dave" (mkDate 2025 7 1) "contribution" 9000 ""]
    [mkMonthlyCapital (mkDate 2025 6 1) 50000 "" None] all_int64.

(** A row of integer literals. *)
Definition integer_row (buy_date sell_date : Date) (stock : string)
    (buy_price sell_price quantity : Z) : RawRow :=
  mkRawRow "" None (DateOf buy_date) (DateOf sell_date) stock
           (IntCell buy_price) (IntCell sell_price) (IntCell quantity).


(** A store whose only trade was bought at 100.5: its [buy_price] column
    is [float64]. *)
Definition store_float_prices : TradingDataManager :=
  mkManager default_config
    [mkTrade "TRADE_0001" (mkDate 2025 6 2) (mkDate 2025 6 10) "MSTR"
             (201 # 2) 110 10 95 1005 (Num.Fin (1900 # 201)) "Win" None]
    [alice] [] [] (mkNumericTypes Float64 Int64 Int64).

(** A file with one trade, every number an integer literal. *)
Definition file_integer_prices : UploadFile :=
  mkUploadFile "trades.csv" true
    ["buy_date"; "sell_date"; "stock"; "buy_price"; "sell_price"; "quantity"]
    [integer_row (mkDate 2025 8 4) (mkDate 2025 8 12) "COIN" 50 60 1].

(** ** Writing the tables *)

Definition set_clients (self : TradingDataManager) (df : list Client)
  : TradingDataManager :=
  mkManager (config self) (trades_df self) df
            (capital_movements_df self) (monthly_capital_df self)
            (trades_dtypes self).

Definition set_capital_movements (self : TradingDataManager)
    (df : list CapitalMovement) : TradingDataManager :=
  mkManager (config self) (trades_df self) (clients_df self)
            df (monthly_capital_df self) (trades_dtypes self).

Definition set_monthly_capital_df (self : TradingDataManager)
    (df : list MonthlyCapital) : TradingDataManager :=
  mkManager (config self) (trades_df self) (clients_df self)
            (capital_movements_df self) df (trades_dtypes self).

Definition set_config (self : TradingDataManager) (cfg : Config)
  : TradingDataManager :=
  mkManager cfg (trades_df self) (clients_df self)
            (capital_movements_df self) (monthly_capital_df self)
            (trades_dtypes self).

(** ** Capital overrides: [set_monthly_capital], [delete_monthly_capital] *)

(** The rows of the override table lying in the month [month_year]; the
    argument ['YYYY-MM'] is given by its month period, and
    [pd.to_datetime(month_year + '-01')] is the first day of that month. *)
Definition in_month (month_year : Z) (r : MonthlyCapital) : Prop :=
  to_period_M (month r) = to_period_M (month_start month_year).

#[global] Instance in_month_dec p r : Decision (in_month p r).
Proof. unfold in_month. apply _. Defined.

(** [set_monthly_capital(month_year, capital_amount)].  The class defines
    a method of this name twice; the later definition replaces the
    earlier one and is the one the pages call.  A row appended for a new
    month has no note.  As in [get_monthly_capital], the [month] column
    holds timestamps, which is how [_load_monthly_capital] leaves it
    after reading the file. *)
Definition set_monthly_capital (month_year : Z) (capital_amount : Q)
    (self : TradingDataManager) : bool * TradingDataManager :=
  let month_dt := month_start month_year in
  match filter (in_month month_year) (monthly_capital_df self) with
  | _ :: _ =>
      (true,
       set_monthly_capital_df self
         (map (fun r =>
                 if decide (in_month month_year r)
                 then mkMonthlyCapital (month r) capital_amount
                                       (capital_notes r) (capital_client_id r)
                 else r)
              (monthly_capital_df self)))
  | [] =>
      (true,
       set_monthly_capital_df self
         (monthly_capital_df self
          ++ [mkMonthlyCapital month_dt capital_amount "" None]))
  end.

Definition delete_monthly_capital (month_year : Z)
    (self : TradingDataManager) : bool * TradingDataManager :=
  (true,
   set_monthly_capital_df self
     (filter (fun r => ~ in_month month_year r) (monthly_capital_df self))).

(** ** Capital movements: [add_capital_movement] *)

(** [f"MOV_{len(self.capital_movements_df) + 1:04d}"] *)
Definition fresh_movement_id (n : nat) : string :=
  "MOV_" +:+ pad4 (pretty (S n)).

Definition add_capital_movement (client : string) (kind : string)
    (value : Q) (date : Date) (note : string) (self : TradingDataManager)
  : bool * TradingDataManager :=
  let movement_id := fresh_movement_id (length (capital_movements_df self)) in
  let new_movement := mkMovement movement_id client date kind value note in
  (true,
   set_capital_movements self (capital_movements_df self ++ [new_movement])).

(** ** The client directory *)

(** [add_or_update_client].  [today] is [pd.Timestamp.now().date()].  The
    [username] and [email] columns of the row are not part of the table
    model; [username] always repeats [client_id]. *)
Definition add_or_update_client (username name : string)
    (capital : Q) (start : option Date) (is_active : bool) (today : Date)
    (self : TradingDataManager) : bool * TradingDataManager :=
  let cid := username in
  let start := match start with None => today | Some d => d end in
  let new_row := mkClient cid name capital (Some start) is_active in
  let kept :=
    match clients_df self with
    | [] => clients_df self
    | _ :: _ => filter (fun cl => client_id cl <> cid) (clients_df self)
    end in
  (true, set_clients self (kept ++ [new_row])).

(** [delete_client].  Every table is filtered on its [client_id] column
    when it is not empty and has that column.  A row of the trades or of
    the capital overrides whose [client_id] cell is empty, or whose table
    has no such column, is kept. *)
Definition delete_client (cid : string) (self : TradingDataManager)
  : bool * TradingDataManager :=
  let clients' :=
    match clients_df self with
    | [] => clients_df self
    | _ :: _ => filter (fun cl => client_id cl <> cid) (clients_df self)
    end in
  let trades' :=
    match trades_df self with
    | [] => trades_df self
    | _ :: _ =>
        filter (fun t => trade_client_id t <> Some cid) (trades_df self)
    end in
  let movements' :=
    match capital_movements_df self with
    | [] => capital_movements_df self
    | _ :: _ =>
        filter (fun m => movement_client m <> cid) (capital_movements_df self)
    end in
  let monthly' :=
    match monthly_capital_df self with
    | [] => monthly_capital_df self
    | _ :: _ =>
        filter (fun r => capital_client_id r <> Some cid)
               (monthly_capital_df self)
    end in
  let config' :=
    match clients (config self) !! cid with
    | Some _ =>
        mkConfig (global (config self)) (delete cid (clients (config self)))
    | None => config self
    end in
  (true,
   mkManager config' trades' clients' movements' monthly'
             (trades_dtypes self)).

(** A record of [users.json] as [sync_clients_from_users] reads it: any
    key may be missing.  [u_investment_start_date] is [None] when the key
    is missing or its value is empty, [Some None] when the value is not a
    date, and [Some (Some d)] when [pd.to_datetime] reads it as [d]. *)
Record UserInfo : Type := mkUserInfo {
  u_role : option string;
  u_name : option string;
  u_starting_capital : option Q;
  u_investment_start_date : option (option Date);
  u_active : option bool
}.

(** The directory row made of a user with the role ['client']. *)
Definition client_row_of_user (today : Date) (username : string)
    (info : UserInfo) : Client :=
  let investment_start_date :=
    match u_investment_start_date info with
    | Some (Some d) => d
    | Some None => today
    | None => today
    end in
  mkClient username (default "" (u_name info))
           (default 0 (u_starting_capital info))
           (Some investment_start_date)
           (default true (u_active info)).

(** [sync_clients_from_users].  [users] is the content of [users.json], in
    the order of the file, or [None] when the file does not exist. *)
Definition sync_clients_from_users (users : option (list (string * UserInfo)))
    (today : Date) (self : TradingDataManager) : bool * TradingDataManager :=
  match users with
  | None => (false, self)
  | Some users =>
      let rows :=
        map (fun u => client_row_of_user today (fst u) (snd u))
            (filter (fun u => u_role (snd u) = Some "client") users) in
      match rows with
      | [] => (true, self)
      | _ :: _ =>
          let df_new_ids := map client_id rows in
          let kept :=
            match clients_df self with
            | [] => clients_df self
            | _ :: _ =>
                filter (fun cl => client_id cl ∉ df_new_ids) (clients_df self)
            end in
          (true, set_clients self (kept ++ rows))
      end
  end.

(** ** Removing trades: [remove_trades_by_return_percentage] *)

(** [v >= q] and [v <= q] on a float column entry; both are false on NaN. *)
Definition fval_geb (v : Num.fval) (q : Q) : bool :=
  match v with
  | Num.Fin x => if Qlt_le_dec x q then false else true
  | Num.PInf => true
  | Num.NInf => false
  | Num.NaN => false
  end.

Definition fval_leb (v : Num.fval) (q : Q) : bool :=
  match v with
  | Num.Fin x => if Qlt_le_dec q x then false else true
  | Num.PInf => false
  | Num.NInf => true
  | Num.NaN => false
  end.

(** [(sell_price - buy_price) / buy_price * 100] as a column. *)
Definition recomputed_return_pct (t : Trade) : Num.fval :=
  Num.fmul
    (Num.fdiv (Num.Fin (sell_price t - buy_price t)) (Num.Fin (buy_price t)))
    (Num.Fin 100).

Definition with_return_pct (t : Trade) : Trade :=
  mkTrade (trade_id t) (buy_date t) (sell_date t) (stock t) (buy_price t)
          (sell_price t) (quantity t) (profit_loss t) (position_size t)
          (recomputed_return_pct t) (win_loss t) (trade_client_id t).

(** The rows the call removes: the given stock, with a return inside the
    band of [tolerance] around the target. *)
Definition matches_return (stock_symbol : string)
    (target_return_pct tolerance : Q) (t : Trade) : Prop :=
  stock t = stock_symbol
  /\ fval_geb (return_pct t) (target_return_pct - tolerance) = true
  /\ fval_leb (return_pct t) (target_return_pct + tolerance) = true.

#[global] Instance matches_return_dec s g tol t :
  Decision (matches_return s g tol t).
Proof. unfold matches_return. apply _. Defined.

Inductive RemoveMessage : Type :=
| NoTradesFound
| NoMatchingTrades
| RemovedTrades (removed_count : nat).

(** The [return_pct] column is rewritten before anything is looked for,
    and stays rewritten when nothing matches. *)
Definition remove_trades_by_return_percentage (stock_symbol : string)
    (target_return_pct tolerance : Q) (self : TradingDataManager)
  : (bool * RemoveMessage) * TradingDataManager :=
  match trades_df self with
  | [] => ((false, NoTradesFound), self)
  | _ :: _ =>
      let df := map with_return_pct (trades_df self) in
      let matching_trades :=
        filter (matches_return stock_symbol target_return_pct tolerance) df in
      match matching_trades with
      | [] => ((false, NoMatchingTrades), set_trades self df)
      | _ :: _ =>
          let original_count := length df in
          let df' :=
            filter (fun t => ~ matches_return stock_symbol target_return_pct
                                              tolerance t) df in
          let removed_count := (original_count - length df')%nat in
          ((true, RemovedTrades removed_count), set_trades self df')
      end
  end.

(** ** Further invariants and sample data *)

(** At most one capital override per calendar month. *)
Definition months_unique (self : TradingDataManager) : Prop :=
  NoDup (map (fun r => to_period_M (month r)) (monthly_capital_df self)).

(** Two frame rows that differ at most in [Cumulative_Return]. *)
Definition same_stats (r r0 : PeriodStats) : Prop :=
  Period r = Period r0
  /\ Total_PL r = Total_PL r0
  /\ Total_Trades r = Total_Trades r0
  /\ Winning_Trades r = Winning_Trades r0
  /\ Win_Rate r = Win_Rate r0
  /\ Client_Capital r = Client_Capital r0
  /\ Return_Pct r = Return_Pct r0.

(** The month period of June 2025. *)
Definition june_2025 : Z := 24305.

(** What a movement adds to pooled capital: its amount for a
    contribution, minus its amount for a withdrawal, nothing for any
    other type. *)
Definition signed_amount (kind : string) (value : Q) : Q :=
  if decide (kind = "contribution") then value
  else if decide (kind = "withdrawal") then - value
  else 0.

(** The rows [sync_clients_from_users] makes of the users with the role
    ['client']. *)
Definition client_rows_of_users (today : Date)
    (users : list (string * UserInfo)) : list Client :=
  map (fun u => client_row_of_user today (fst u) (snd u))
      (filter (fun u => u_role (snd u) = Some "client") users).

(** A [users.json] with an administrator, two clients and a user without a
    role. *)
Definition sample_users : list (string * UserInfo) :=
  [("admin", mkUserInfo (Some "admin") (Some "Administrator") None None
                        (Some true));
   ("alice", mkUserInfo (Some "client") (Some "Alice A.") (Some 12000)
                        (Some (Some (mkDate 2025 2 1))) (Some true));
   ("frank", mkUserInfo (Some "client") None None (Some None) None);
   ("ghost", mkUserInfo None (Some "Ghost") (Some 1) None None)].





(** Three MSTR trades with returns of 10 %, 50 % and an infinite one (bought
    at 0), and one COIN trade. *)
Definition store_outliers : TradingDataManager :=
  mkManager default_config
    [mkTrade "T1" (mkDate 2025 6 2) (mkDate 2025 6 10) "MSTR"
             100 110 1 10 100 (Num.Fin 0) "Win" None;
     mkTrade "T2" (mkDate 2025 6 3) (mkDate 2025 6 11) "MSTR"
             100 150 1 50 100 (Num.Fin 0) "Win" None;
     mkTrade "T3" (mkDate 2025 6 4) (mkDate 2025 6 12) "MSTR"
             0 5 1 5 0 (Num.Fin 0) "Win" None;
     mkTrade "T4" (mkDate 2025 6 5) (mkDate 2025 6 13) "COIN"
             100 150 1 50 100 (Num.Fin 0) "Win" None]
    [alice] [] [] all_int64.

(** Three trades from files with a [client_id] column: one tagged with
    alice, one with dave, one with an empty cell. *)
Definition store_tagged_trades : TradingDataManager :=
  mkManager default_config
    [mkTrade "T1" (mkDate 2025 6 2) (mkDate 2025 6 10) "MSTR"
             100 110 1 10 100 (Num.Fin 10) "Win" (Some "alice");
     mkTrade "T2" (mkDate 2025 6 3) (mkDate 2025 6 11) "COIN"
             100 150 1 50 100 (Num.Fin 50) "Win" (Some "dave");
     mkTrade "T3" (mkDate 2025 6 4) (mkDate 2025 6 12) "AAPL"
             100 90 1 (-10) 100 (Num.Fin (-10)) "Loss" None]
    [alice; mkClient "dave" "Dave" 5000 None false] [] [] all_int64.


(** A list of period ordinals in strictly ascending order. *)
Fixpoint ascending (l : list Z) : Prop :=
  match l with
  | [] => True
  | x :: t => (forall y, y ∈ t -> (x < y)%Z) /\ ascending t
  end.

(** The trades of a frame's input that fall in period [k]. *)
Definition trades_in_period (period_of : Date -> Z) (k : Z)
    (trades : list Trade) : list Trade :=
  filter (fun t => period_of (sell_date t) = k) trades.

(** ** Accounts and sessions: [AuthManager] of [auth.py] *)

(** A record of [users.json] as [AuthManager] writes it.  The default
    administrator has neither a starting capital nor a start date. *)
Record User : Type := mkUser {
  usr_username : string;
  usr_password_hash : string;
  usr_role : string;
  usr_name : string;
  usr_email : string;
  usr_starting_capital : option Q;
  usr_investment_start_date : option Date;
  usr_created_at : Z;
  usr_active : bool
}.

(** A record of [sessions.json]; times are in microseconds. *)
Record Session : Type := mkSession {
  ses_username : string;
  ses_role : string;
  ses_created_at : Z
}.

Record AuthManager : Type := mkAuth {
  users : gmap string User;
  sessions : gmap string Session
}.

(** [timedelta(hours=24)] *)
Definition session_lifetime : Z := 86400000000.

(** [current_time - session_time > timedelta(hours=24)] *)
Definition expired (current_time : Z) (s : Session) : Prop :=
  (current_time - ses_created_at s > session_lifetime)%Z.

#[global] Instance expired_dec now s : Decision (expired now s).
Proof. unfold expired. apply _. Defined.

Definition _cleanup_expired_sessions (current_time : Z) (auth : AuthManager)
  : AuthManager :=
  mkAuth (users auth)
         (filter (fun kv => ~ expired current_time (snd kv)) (sessions auth)).

(** What [get_session_user] returns. *)
Record UserView : Type := mkUserView {
  view_username : string;
  view_role : string;
  view_name : string;
  view_email : string
}.

Section Auth.

(** [hashlib.sha256(password.encode()).hexdigest()] *)
Variable _hash_password : string -> string.

(** [login].  [now] is [datetime.now()], read once for the clean-up and
    once more for [created_at]; the two readings are taken as one instant.
    [token] is the session id drawn by [secrets.token_urlsafe(32)].  The
    result is the pair [(session_id, role)], or [None] for
    [(None, None)]. *)
Definition login (now : Z) (token : string) (username password : string)
    (auth : AuthManager) : option (string * string) * AuthManager :=
  let auth := _cleanup_expired_sessions now auth in
  match users auth !! username with
  | Some u =>
      if usr_active u
      then
        if decide (usr_password_hash u = _hash_password password)
        then
          (Some (token, usr_role u),
           mkAuth (users auth)
                  (<[token := mkSession username (usr_role u) now]>
                     (sessions auth)))
        else (None, auth)
      else (None, auth)
  | None => (None, auth)
  end.

(** [create_client]; [today] is [datetime.now().date()]. *)
Definition create_client (now : Z) (today : Date)
    (username password name email : string) (capital : Q)
    (start : option Date) (auth : AuthManager) : bool * AuthManager :=
  match users auth !! username with
  | None =>
      let start := match start with None => today | Some d => d end in
      (true,
       mkAuth (<[username :=
                   mkUser username (_hash_password password) "client" name
                          email (Some capital) (Some start) now true]>
                 (users auth))
              (sessions auth))
  | Some _ => (false, auth)
  end.

Definition change_password (username new_password : string)
    (auth : AuthManager) : bool * AuthManager :=
  match users auth !! username with
  | Some u =>
      (true,
       mkAuth (<[username :=
                   mkUser (usr_username u) (_hash_password new_password)
                          (usr_role u) (usr_name u) (usr_email u)
                          (usr_starting_capital u)
                          (usr_investment_start_date u) (usr_created_at u)
                          (usr_active u)]>
                 (users auth))
              (sessions auth))
  | None => (false, auth)
  end.

(** [update_client] of the data manager.  The password is changed through
    the [AuthManager] kept in the session state, after the directory has
    been rewritten and saved.  The [email] column is not part of the
    table model. *)
Definition update_client (cid name : string) (capital : Q)
    (start : option Date) (is_active : bool) (new_password : option string)
    (self : TradingDataManager) (auth : AuthManager)
  : bool * TradingDataManager * AuthManager :=
  match filter (fun cl => client_id cl = cid) (clients_df self) with
  | _ :: _ =>
      let self' :=
        set_clients self
          (map (fun cl =>
                  if decide (client_id cl = cid)
                  then mkClient (client_id cl) name capital start is_active
                  else cl)
               (clients_df self)) in
      match new_password with
      | Some pw =>
          if decide (pw = "") then (true, self', auth)
          else
            let '(auth_success, auth') := change_password cid pw auth in
            if auth_success then (true, self', auth')
            else (false, self', auth')
      | None => (true, self', auth)
      end
  | [] => (false, self, auth)
  end.

End Auth.

Definition get_session_user (session_id : string) (auth : AuthManager)
  : option UserView :=
  match sessions auth !! session_id with
  | Some session_data =>
      let username := ses_username session_data in
      match users auth !! username with
      | Some u =>
          Some (mkUserView username (ses_role session_data)
                           (usr_name u) (usr_email u))
      | None => None
      end
  | None => None
  end.

Definition logout (session_id : string) (auth : AuthManager) : AuthManager :=
  match sessions auth !! session_id with
  | Some _ => mkAuth (users auth) (delete session_id (sessions auth))
  | None => auth
  end.

Definition is_authenticated (session_id : string) (auth : AuthManager)
  : bool :=
  bool_decide (is_Some (sessions auth !! session_id)).

Definition has_role (session_id required_role : string) (auth : AuthManager)
  : bool :=
  match sessions auth !! session_id with
  | Some s =>
      let user_role := ses_role s in
      if decide (required_role = "admin")
      then bool_decide (user_role = "admin")
      else if decide (required_role = "client")
      then bool_decide (user_role = "admin" \/ user_role = "client")
      else false
  | None => false
  end.

(** The keys [update_user] accepts; any other keyword is ignored. *)
Record UserUpdate : Type := mkUserUpdate {
  upd_name : option string;
  upd_email : option string;
  upd_active : option bool;
  upd_starting_capital : option Q
}.

Definition update_user (username : string) (kwargs : UserUpdate)
    (auth : AuthManager) : bool * AuthManager :=
  match users auth !! username with
  | Some u =>
      (true,
       mkAuth (<[username :=
                   mkUser (usr_username u) (usr_password_hash u) (usr_role u)
                          (default (usr_name u) (upd_name kwargs))
                          (default (usr_email u) (upd_email kwargs))
                          (match upd_starting_capital kwargs with
                           | Some c => Some c
                           | None => usr_starting_capital u
                           end)
                          (usr_investment_start_date u) (usr_created_at u)
                          (default (usr_active u) (upd_active kwargs))]>
                 (users auth))
              (sessions auth))
  | None => (false, auth)
  end.

Definition delete_user (username : string) (auth : AuthManager)
  : bool * AuthManager :=
  match users auth !! username with
  | Some _ =>
      if decide (username = "admin") then (false, auth)
      else (true, mkAuth (delete username (users auth)) (sessions auth))
  | None => (false, auth)
  end.

(** A toy digest for the sample accounts. *)
Definition sample_hash (password : string) : string := "#" +:+ password.

(** An administrator and one client, with a session of the client opened
    at time 0. *)
Definition sample_auth : AuthManager :=
  mkAuth
    (<["admin" := mkUser "admin" (sample_hash "root") "admin" "Administrator"
                         "admin@trading.com" None None 0 true]>
       (<["alice" := mkUser "alice" (sample_hash "secret") "client" "Alice"
                            "alice@example.com" (Some 10000)
                            (Some (mkDate 2025 1 1)) 0 true]> ∅))
    (<["token-1" := mkSession "alice" "client" 0]> ∅).

(** A password argument that is given and not empty. *)
Definition given (new_password : option string) : Prop :=
  exists pw, new_password = Some pw /\ pw <> "".

(** ** Strategy summary: [get_strategy_summary] *)

#[global] Instance Qlt_dec (a b : Q) : Decision (a < b).
Proof.
  destruct (Qlt_le_dec a b) as [H | H];
    [left; exact H | right; apply Qle_not_lt; exact H].
Defined.

(** IEEE addition. *)
Definition fadd (a b : Num.fval) : Num.fval :=
  match a, b with
  | Num.NaN, _ | _, Num.NaN => Num.NaN
  | Num.Fin x, Num.Fin y => Num.Fin (x + y)
  | Num.PInf, Num.NInf | Num.NInf, Num.PInf => Num.NaN
  | Num.PInf, _ | _, Num.PInf => Num.PInf
  | Num.NInf, _ | _, Num.NInf => Num.NInf
  end.

Definition is_nan (v : Num.fval) : bool :=
  match v with Num.NaN => true | _ => false end.

(** [Series.mean()] of a float column: NaN entries are skipped, the rest is
    summed and divided by its count; the mean of no entry is NaN. *)
Definition fmean (col : list Num.fval) : Num.fval :=
  match filter (fun v => is_nan v = false) col with
  | [] => Num.NaN
  | (_ :: _) as kept =>
      Num.fdiv (fold_left fadd kept (Num.Fin 0))
               (Num.Fin (inject_Z (Z.of_nat (length kept))))
  end.

(** [Series.mean()] of a column of finite values that is not empty. *)
Definition mean (col : list Q) : Q :=
  Num.sum col / inject_Z (Z.of_nat (length col)).

Module Summary.

(** The dictionary returned by [get_strategy_summary]. *)
Record t : Type := mk {
  total_trades : nat;
  winning_trades : nat;
  losing_trades : Z;
  win_rate : Q;
  total_pl : Q;
  total_position_size : Q;
  avg_winner : Q;
  avg_loser : Q;
  avg_winner_pct : Num.fval;
  avg_loser_pct : Num.fval;
  overall_return : Q;
  cumulative_return : Q
}.

End Summary.

(** [None] is the empty dictionary. *)
Definition get_strategy_summary (cid : option string)
    (self : TradingDataManager) : option Summary.t :=
  match trades_df self with
  | [] => None
  | _ :: _ =>
      match trades_for_client cid self with
      | [] => None
      | (_ :: _) as trades =>
          let total_trades := length trades in
          let winning_trades :=
            length (filter (fun t => win_loss t = "Win") trades) in
          let losing_trades :=
            (Z.of_nat total_trades - Z.of_nat winning_trades)%Z in
          let win_rate :=
            if (0 <? total_trades)%nat
            then inject_Z (Z.of_nat winning_trades)
                 / inject_Z (Z.of_nat total_trades) * 100
            else 0 in
          let total_pl := Num.sum (map profit_loss trades) in
          let total_position_size := Num.sum (map position_size trades) in
          let winning_trades_df :=
            filter (fun t => 0 < profit_loss t) trades in
          let losing_trades_df :=
            filter (fun t => profit_loss t < 0) trades in
          let '(avg_winner, avg_winner_pct) :=
            match winning_trades_df with
            | _ :: _ =>
                (mean (map profit_loss winning_trades_df),
                 fmean (map recomputed_return_pct winning_trades_df))
            | [] => (0, Num.Fin 0)
            end in
          let '(avg_loser, avg_loser_pct) :=
            match losing_trades_df with
            | _ :: _ =>
                (mean (map profit_loss losing_trades_df),
                 fmean (map recomputed_return_pct losing_trades_df))
            | [] => (0, Num.Fin 0)
            end in
          let overall_return :=
            if decide (0 < total_position_size)
            then total_pl / total_position_size * 100
            else 0 in
          let monthly_returns := get_monthly_strategy_returns None self in
          let cumulative_return_pct :=
            match monthly_returns with
            | [] => 0
            | _ :: _ => List.last (map Cumulative_Return monthly_returns) 0
            end in
          Some (Summary.mk total_trades winning_trades losing_trades
                  (Num.round2 win_rate) (Num.round2 total_pl)
                  (Num.round2 total_position_size)
                  (Num.round2 avg_winner) (Num.round2 avg_loser)
                  (Num.fround2 avg_winner_pct) (Num.fround2 avg_loser_pct)
                  (Num.round2 overall_return)
                  (Num.round2 cumulative_return_pct))
      end
  end.

(** Two clients who joined on different days, over three June and July
    trades: one gain, one loss and one trade bought at price 0. *)
Definition store_summary : TradingDataManager :=
  mkManager default_config
    [mkTrade "T1" (mkDate 2025 6 2) (mkDate 2025 6 10) "MSTR"
             100 110 10 100 1000 (Num.Fin 10) "Win" None;
     mkTrade "T2" (mkDate 2025 6 12) (mkDate 2025 6 20) "COIN"
             50 40 10 (-100) 500 (Num.Fin (-20)) "Loss" None;
     mkTrade "T3" (mkDate 2025 7 1) (mkDate 2025 7 8) "FREE"
             0 5 10 50 0 Num.PInf "Win" None]
    [mkClient "early" "Early" 10000 (Some (mkDate 2025 1 1)) true;
     mkClient "late" "Late" 10000 (Some (mkDate 2025 7 1)) true]
    [] [] all_int64.

(** * Properties *)

(** ** Dates *)

Example days_from_civil_epoch : days_from_civil (mkDate 1970 1 1) = 0%Z.
Proof. reflexivity. Qed.

(** 2025-06-23 was a Monday: a new week period starts there. *)
Example monday_starts_week :
  to_period_2W (mkDate 2025 6 22) = 2894%Z
  /\ to_period_2W (mkDate 2025 6 23) = 2895%Z
  /\ to_period_2W (mkDate 2025 6 29) = 2895%Z
  /\ to_period_2W (mkDate 2025 6 30) = 2896%Z.
Proof. repeat split; reflexivity. Qed.

(** Printing a month period and reading it back gives the same period. *)
Lemma to_period_M_month_start (p : Z) : to_period_M (month_start p) = p.
Proof.
  unfold to_period_M, month_start. simpl.
  pose proof (Z.div_mod p 12). lia.
Qed.

(** ** Rounding *)

Section Rounding.

Lemma rint_close (y : Q) : Qabs (inject_Z (Num.rint y) - y) <= 1 # 2.
Proof.
  unfold Num.rint.
  pose proof (Qfloor_le y) as Hlo.
  pose proof (Qlt_floor y) as Hhi.
  rewrite inject_Z_plus in Hhi.
  change (inject_Z 1) with 1 in Hhi.
  apply Qabs_Qle_condition.
  destruct (Qcompare_spec (y - inject_Z (Qfloor y)) (1 # 2)) as [He | Hl | Hg];
    cbv beta iota zeta.
  - destruct (Z.even (Qfloor y)).
    + split; lra.
    + rewrite inject_Z_plus. change (inject_Z 1) with 1. split; lra.
  - split; lra.
  - rewrite inject_Z_plus. change (inject_Z 1) with 1. split; lra.
Qed.

Lemma rint_proper (x y : Q) : x == y -> Num.rint x = Num.rint y.
Proof.
  intros E. unfold Num.rint.
  assert (Qfloor x = Qfloor y) as -> by (now apply Qfloor_comp).
  assert ((x - inject_Z (Qfloor y) ?= 1 # 2)
          = (y - inject_Z (Qfloor y) ?= 1 # 2)) as ->.
  { apply Qcompare_comp; [now rewrite E | reflexivity]. }
  reflexivity.
Qed.

Lemma round2_value (x : Q) :
  Num.round2 x == inject_Z (Num.rint (x * 100)) * (1 # 100).
Proof.
  unfold Num.round2. rewrite Qred_correct, Qmake_Qdiv. reflexivity.
Qed.

Lemma round2_proper (x y : Q) : x == y -> Num.round2 x = Num.round2 y.
Proof.
  intros E. unfold Num.round2.
  assert (Num.rint (x * 100) = Num.rint (y * 100)) as ->; [| reflexivity].
  apply rint_proper. now rewrite E.
Qed.

(** Rounding to two decimals moves a value by at most half a cent. *)
Lemma round2_close (x : Q) : Qabs (Num.round2 x - x) <= 1 # 200.
Proof.
  pose proof (rint_close (x * 100)) as H.
  apply Qabs_Qle_condition in H. apply Qabs_Qle_condition.
  rewrite round2_value.
  set (k := inject_Z (Num.rint (x * 100))) in *.
  split; lra.
Qed.

(** Rounded parts of a sum miss the rounded sum by at most one cent. *)
Lemma round2_split (a b c : Q) :
  a + b == c ->
  Qabs (Num.round2 a + Num.round2 b - Num.round2 c) <= 1 # 100.
Proof.
  intros E.
  pose proof (rint_close (a * 100)) as Ha.
  pose proof (rint_close (b * 100)) as Hb.
  pose proof (rint_close (c * 100)) as Hc.
  apply Qabs_Qle_condition in Ha, Hb, Hc.
  rewrite !round2_value.
  set (ka := Num.rint (a * 100)) in *.
  set (kb := Num.rint (b * 100)) in *.
  set (kc := Num.rint (c * 100)) in *.
  assert (inject_Z (ka + kb - kc) <= 3 # 2
          /\ - (3 # 2) <= inject_Z (ka + kb - kc)) as [Hu Hl].
  { unfold Z.sub. rewrite !inject_Z_plus, inject_Z_opp. split; lra. }
  assert (-1 <= ka + kb - kc <= 1)%Z as [Hz1 Hz2].
  { unfold Qle in Hu, Hl. simpl in Hu, Hl. lia. }
  apply Qabs_Qle_condition.
  assert (inject_Z ka + inject_Z kb - inject_Z kc == inject_Z (ka + kb - kc))
    as Hs.
  { unfold Z.sub. rewrite !inject_Z_plus, inject_Z_opp. lra. }
  assert (inject_Z (-1) <= inject_Z (ka + kb - kc)) as H1
      by (rewrite <- Zle_Qle; exact Hz1).
  assert (inject_Z (ka + kb - kc) <= inject_Z 1) as H2
      by (rewrite <- Zle_Qle; exact Hz2).
  change (inject_Z (-1)) with (-1) in H1. change (inject_Z 1) with 1 in H2.
  split; lra.
Qed.

End Rounding.

(** ** Configuration *)

Section ConfigFacts.

Lemma default_config_ok : config_ok default_config.
Proof.
  split.
  - unfold section_ok. simpl. reflexivity.
  - intros c s H. simpl in H. rewrite lookup_empty in H. discriminate.
Qed.

Lemma section_ok_resolved (g s : ConfigSection) :
  section_ok g -> section_ok s ->
  default (default (40 # 100) (trader_share g)) (trader_share s)
  + default (default (60 # 100) (investor_share g)) (investor_share s) == 1.
Proof.
  unfold section_ok.
  destruct (trader_share s), (investor_share s),
    (trader_share g), (investor_share g); simpl; intros Hg Hs;
    try contradiction; try assumption; reflexivity.
Qed.

(** In a well-formed store every resolved configuration splits the
    profit completely. *)
Lemma config_ok_resolved (cfg : Config) (cid : option string) :
  config_ok cfg -> shares_sum_to_one (get_config cfg cid).
Proof.
  intros [Hg Hc]. unfold shares_sum_to_one.
  destruct cid as [c |]; simpl.
  - destruct (clients cfg !! c) as [s |] eqn:E; simpl.
    + apply section_ok_resolved; [exact Hg | exact (Hc c s E)].
    + apply (section_ok_resolved (global cfg) (mkSection None None None None None));
        [exact Hg | exact I].
  - apply (section_ok_resolved (mkSection None None None None None) (global cfg));
      [exact I | exact Hg].
Qed.

Lemma apply_updates_ok (tax ts : option Q) (s : ConfigSection) :
  section_ok s -> section_ok (apply_updates tax ts s).
Proof.
  intros H. unfold apply_updates.
  destruct ts as [t |]; destruct tax as [v |];
    unfold section_ok, set_trader_share, set_tax_rate; simpl;
    try exact H; ring.
Qed.

Lemma default_client_section_ok : section_ok default_client_section.
Proof. unfold section_ok. simpl. reflexivity. Qed.

Lemma update_config_ok (tax ts : option Q) (cid : option string)
    (cfg : Config) :
  config_ok cfg -> config_ok (update_config tax ts cid cfg).
Proof.
  intros [Hg Hc]. destruct cid as [c |]; simpl; split; simpl.
  - exact Hg.
  - intros c' s. rewrite lookup_insert. case_decide as Hcc.
    + intros [= <-]. apply apply_updates_ok.
      destruct (clients cfg !! c) as [s0 |] eqn:E; simpl.
      * exact (Hc c s0 E).
      * exact default_client_section_ok.
    + apply Hc.
  - now apply apply_updates_ok.
  - exact Hc.
Qed.

Lemma update_config_sets_shares (tax : option Q) (t : Q)
    (cid : option string) (cfg : Config) :
  let s := get_config (update_config tax (Some t) cid cfg) cid in
  cfg_trader_share s = t /\ cfg_investor_share s = 1 - t.
Proof.
  destruct cid as [c |]; simpl.
  - rewrite lookup_insert_eq. simpl. split; reflexivity.
  - split; reflexivity.
Qed.

End ConfigFacts.

(** ** Lists *)

Section ListFacts.

Context {A B : Type}.

Lemma lookup_map (f : A -> B) (l : list A) (i : nat) :
  map f l !! i = f <$> (l !! i).
Proof.
  revert i. induction l as [| x l IH]; intros [| i]; simpl; auto.
Qed.

Lemma elem_of_map (f : A -> B) (l : list A) (y : B) :
  y ∈ map f l <-> exists x, y = f x /\ x ∈ l.
Proof.
  rewrite list_elem_of_In, in_map_iff. split.
  - intros (x & E & H). exists x. split; [easy | now apply list_elem_of_In].
  - intros (x & E & H). exists x. split; [easy | now apply list_elem_of_In].
Qed.

Lemma map_eq_nil_inv (f : A -> B) (l : list A) : map f l = [] -> l = [].
Proof. destruct l; [reflexivity | discriminate]. Qed.

Lemma last_map_default (f : A -> B) (l : list A) (d : B) (x : A) :
  last l = Some x -> List.last (map f l) d = f x.
Proof.
  induction l as [| y l IH]; [discriminate |].
  destruct l as [| z l].
  - simpl. now intros [= ->].
  - intros H. change (List.last (map f (y :: z :: l)) d)
      with (List.last (map f (z :: l)) d).
    apply IH. exact H.
Qed.

Lemma last_default_irrelevant (l : list A) (d d' : A) :
  l <> [] -> List.last l d = List.last l d'.
Proof.
  induction l as [| x l IH]; [congruence |]. intros _.
  destruct l as [| y l]; [reflexivity |].
  change (List.last (y :: l) d = List.last (y :: l) d').
  apply IH. discriminate.
Qed.

Lemma last_is_Some (l : list A) : l <> [] -> exists x, last l = Some x.
Proof.
  intros H. destruct (last l) as [x |] eqn:E; [eauto |].
  apply last_None in E. contradiction.
Qed.

(** The first row a filter keeps. *)
Lemma filter_first (P : A -> Prop) `{forall x, Decision (P x)}
    (l1 l2 : list A) (x : A) :
  (forall y, y ∈ l1 -> ~ P y) -> P x ->
  filter P (l1 ++ x :: l2) = x :: filter P l2.
Proof.
  intros Hn Hx. induction l1 as [| y l1 IH]; simpl.
  - now rewrite filter_cons_True.
  - rewrite filter_cons_False by (apply Hn; left).
    apply IH. intros z Hz. apply Hn. now right.
Qed.

Lemma filter_none (P : A -> Prop) `{forall x, Decision (P x)} (l : list A) :
  (forall y, y ∈ l -> ~ P y) -> filter P l = [].
Proof.
  intros Hn. induction l as [| y l IH]; [reflexivity |].
  rewrite filter_cons_False by (apply Hn; left).
  apply IH. intros z Hz. apply Hn. now right.
Qed.

Lemma filter_all (P : A -> Prop) `{forall x, Decision (P x)} (l : list A) :
  (forall y, y ∈ l -> P y) -> filter P l = l.
Proof.
  intros Hall. induction l as [| y l IH]; [reflexivity |].
  rewrite filter_cons_True by (apply Hall; left).
  f_equal. apply IH. intros z Hz. apply Hall. now right.
Qed.

End ListFacts.

(** ** The period aggregator *)

Section AggregatorFacts.

Lemma return_pct_column_finite (total_pl capital : Q) :
  Num.is_finite (return_pct_column total_pl capital) = true.
Proof.
  unfold return_pct_column, raw_return_pct, Num.fdiv, Num.fmul, Num.sgn.
  destruct (capital ?= 0); destruct (total_pl ?= 0); simpl;
    try reflexivity.
Qed.

(** Whenever the rounded quotient is not a finite number, the column
    holds 0. *)
Lemma return_pct_column_guard (total_pl capital : Q) :
  Num.is_finite (raw_return_pct total_pl capital) = false ->
  return_pct_column total_pl capital = Num.Fin 0.
Proof.
  unfold return_pct_column.
  destruct (raw_return_pct total_pl capital); simpl;
    [discriminate | reflexivity | reflexivity | reflexivity].
Qed.

Lemma return_pct_column_zero (total_pl capital : Q) :
  capital == 0 -> return_pct_column total_pl capital = Num.Fin 0.
Proof.
  intros E. apply Qeq_alt in E.
  unfold return_pct_column, raw_return_pct, Num.fdiv, Num.sgn. rewrite E.
  destruct (total_pl ?= 0); reflexivity.
Qed.

Lemma cumsum_guarded (rows : list PeriodStats) :
  forall acc, Forall row_guarded rows -> Forall row_guarded (cumsum acc rows).
Proof.
  induction rows as [| r rows IH]; intros acc H; simpl.
  - constructor.
  - inversion H as [| ? ? Hr Hrows]; subst. constructor.
    + exact Hr.
    + now apply IH.
Qed.

Lemma strategy_returns_guarded (period_of : Date -> Z) (capital : Z -> Q)
    (cid : option string) (self : TradingDataManager) :
  Forall row_guarded (strategy_returns period_of capital cid self).
Proof.
  unfold strategy_returns.
  destruct (trades_df self); [constructor |].
  destruct (trades_for_client cid self) as [| t0 ts]; [constructor |].
  apply cumsum_guarded. apply Forall_forall. intros r Hr.
  apply elem_of_map in Hr as (k & -> & _). reflexivity.
Qed.

Lemma cumsum_length (rows : list PeriodStats) :
  forall acc, length (cumsum acc rows) = length rows.
Proof.
  induction rows as [| r rows IH]; intros acc; simpl; [| rewrite IH];
    reflexivity.
Qed.

Lemma insert_key_not_nil (k : Z) (keys : list Z) : insert_key k keys <> [].
Proof.
  destruct keys as [| h t]; simpl; [discriminate |].
  destruct (k <? h)%Z; [discriminate |].
  destruct (k =? h)%Z; discriminate.
Qed.

(** A frame is empty exactly when no trade survives the client filter. *)
Lemma strategy_returns_nil (period_of : Date -> Z) (capital : Z -> Q)
    (cid : option string) (self : TradingDataManager) :
  strategy_returns period_of capital cid self = []
  <-> trades_df self = [] \/ trades_for_client cid self = [].
Proof.
  unfold strategy_returns.
  destruct (trades_df self) as [| t ts]; [tauto |].
  destruct (trades_for_client cid self) as [| t0 ts0]; [tauto |].
  split.
  - intros H. apply (f_equal length) in H.
    rewrite cumsum_length, length_map in H. simpl in H.
    apply length_zero_iff_nil in H.
    now apply insert_key_not_nil in H.
  - intros [H | H]; discriminate.
Qed.

Lemma returns_empty_together (cid : option string)
    (self : TradingDataManager) :
  get_biweekly_strategy_returns cid self = []
  <-> get_monthly_strategy_returns cid self = [].
Proof.
  unfold get_biweekly_strategy_returns, get_monthly_strategy_returns.
  now rewrite !strategy_returns_nil.
Qed.

End AggregatorFacts.

(** ** The reconciliation walk *)

Section WalkFacts.

Variable freq : Freq.
Variable client_config : Settings.
Variable movements : list CapitalMovement.

(** Every step of a walk is the loop body run on one row of the frame. *)
Lemma walk_elem (returns : list PeriodStats) :
  forall (cc : Q) (s : Step.t),
    s ∈ walk freq client_config movements cc returns ->
    exists cc' pd,
      pd ∈ returns
      /\ s = walk_step freq client_config movements cc' pd.
Proof.
  induction returns as [| pd rest IH]; intros cc s H; simpl in H.
  - inversion H.
  - apply elem_of_cons in H as [-> | H].
    + exists cc, pd. split; [left | reflexivity].
    + apply IH in H as (cc' & pd' & Hin & ->).
      exists cc', pd'. split; [now right | reflexivity].
Qed.

(** A step starts from the capital the previous step ended with. *)
Lemma walk_chain (returns : list PeriodStats) :
  forall (cc : Q) (i : nat) (s1 s2 : Step.t),
    walk freq client_config movements cc returns !! i = Some s1 ->
    walk freq client_config movements cc returns !! S i = Some s2 ->
    Step.period_starting_capital s2 = Step.current_capital s1.
Proof.
  induction returns as [| pd rest IH]; intros cc i s1 s2 H1 H2;
    [discriminate |].
  destruct i as [| i].
  - simpl in H1. injection H1 as <-.
    destruct rest as [| pd' rest']; [discriminate |].
    simpl in H2. injection H2 as <-. reflexivity.
  - exact (IH _ i s1 s2 H1 H2).
Qed.

(** The first step starts from the capital the walk was entered with. *)
Lemma walk_head (returns : list PeriodStats) (cc : Q) (s : Step.t) :
  head (walk freq client_config movements cc returns) = Some s ->
  Step.period_starting_capital s = cc.
Proof.
  destruct returns as [| pd rest]; [discriminate |].
  simpl. now intros [= <-].
Qed.

Lemma walk_step_amounts (cc : Q) (pd : PeriodStats) :
  let s := walk_step freq client_config movements cc pd in
  Step.period_return_amount s
  = (Step.period_starting_capital s + Step.net_contributions s)
    * (Step.period_return_pct s / 100)
  /\ Step.profit_after_tax s
     = Step.period_return_amount s * (1 - cfg_tax_rate client_config)
  /\ Step.investor_share s
     = Step.profit_after_tax s * cfg_investor_share client_config
  /\ Step.trader_share s
     = Step.profit_after_tax s * cfg_trader_share client_config
  /\ Step.current_capital s
     = Step.period_starting_capital s + Step.net_contributions s
       + Step.investor_share s.
Proof. repeat split. Qed.

End WalkFacts.

(** A step of either walk of a client's ledger. *)
Lemma ledger_step (self : TradingDataManager) (cid : string) (cl : Client)
    (movements : list CapitalMovement) (s : Step.t) :
  s ∈ monthly_steps self cid cl movements
  \/ s ∈ biweekly_steps self cid cl movements ->
  exists freq cc pd,
    s = walk_step freq (get_config (config self) (Some cid))
                  movements cc pd.
Proof.
  intros [H | H]; apply walk_elem in H as (cc & pd & _ & ->); eauto.
Qed.

(** ** The shape of a returned ledger *)

(** Whatever [get_client_capital_flow] returns was built from the first
    directory row of the client: its totals are the client's, and its two
    breakdowns are the rounded steps of the two walks. *)
Lemma flow_breakdowns (cid : string) (self : TradingDataManager)
    (r : Flow.t) :
  get_client_capital_flow cid self = Some r ->
  exists cl rest,
    filter (fun cl => client_id cl = cid) (clients_df self) = cl :: rest
    /\ let movements :=
         filter (fun m => movement_client m = cid)
                (capital_movements_df self) in
       Flow.starting_capital r = starting_capital cl
       /\ Flow.total_contributions r = contribution_sum movements
       /\ Flow.total_withdrawals r = withdrawal_sum movements
       /\ Flow.monthly_breakdown r
          = map emit (monthly_steps self cid cl movements)
       /\ Flow.biweekly_breakdown r
          = map emit (biweekly_steps self cid cl movements).
Proof.
  unfold get_client_capital_flow.
  destruct (filter _ (clients_df self)) as [| cl rest] eqn:Ecl;
    [discriminate |].
  intros H. exists cl, rest. split; [reflexivity |].
  destruct (get_biweekly_strategy_returns (Some cid) self) as [| pd pds]
    eqn:Ebw.
  - injection H as <-. cbv zeta. simpl.
    unfold monthly_steps, biweekly_steps. rewrite Ebw.
    apply returns_empty_together in Ebw. rewrite Ebw.
    repeat split.
  - destruct (select_ending _ _ _ _) as [e t]. injection H as <-.
    repeat split.
Qed.

(** ** Ledger chaining *)

(** C4.  In the monthly breakdown and in the biweekly breakdown of a
    returned ledger, the [starting_capital] field of each period after the
    first equals the [ending_capital] field of the period before it. *)
Theorem ledger_chaining (cid : string) (self : TradingDataManager)
    (r : Flow.t) (bd : list Breakdown.t) (i : nat) (p q : Breakdown.t) :
  get_client_capital_flow cid self = Some r ->
  bd = Flow.monthly_breakdown r \/ bd = Flow.biweekly_breakdown r ->
  bd !! i = Some p ->
  bd !! S i = Some q ->
  Breakdown.starting_capital q = Breakdown.ending_capital p.
Proof.
  intros Hr Hbd Hp Hq.
  apply flow_breakdowns in Hr as (cl & rest & _ & _ & _ & _ & Hm & Hb).
  assert (exists steps freq cfg movs cc returns,
             bd = map emit steps
             /\ steps = walk freq cfg movs cc returns)
    as (steps & freq & cfg & movs & cc & returns & -> & Hsteps).
  { destruct Hbd as [-> | ->]; [rewrite Hm | rewrite Hb];
      do 6 eexists; (split; [reflexivity |]);
      [unfold monthly_steps | unfold biweekly_steps]; reflexivity. }
  rewrite lookup_map in Hp, Hq.
  apply fmap_Some in Hp as (s1 & Hs1 & ->).
  apply fmap_Some in Hq as (s2 & Hs2 & ->).
  subst steps. simpl. f_equal.
  exact (walk_chain _ _ _ _ _ _ _ _ Hs1 Hs2).
Qed.

Lemma ledger_chaining_witness :
  exists r p q,
    get_client_capital_flow "alice" store_two_periods = Some r
    /\ Flow.monthly_breakdown r !! 0%nat = Some p
    /\ Flow.monthly_breakdown r !! 1%nat = Some q
    /\ Breakdown.starting_capital q = Breakdown.ending_capital p.
Proof.
  eexists _, _, _.
  split; [vm_compute; reflexivity |].
  split; [reflexivity |]. split; [reflexivity |].
  eapply (ledger_chaining "alice" store_two_periods _ _ 0%nat).
  - vm_compute. reflexivity.
  - left. reflexivity.
  - reflexivity.
  - reflexivity.
Defined.

(** ** Tax on gains and on losses *)

Lemma round2_nonpos (x : Q) : x <= 0 -> Num.round2 x <= 0.
Proof.
  intros Hx. pose proof (rint_close (x * 100)) as H.
  apply Qabs_Qle_condition in H as [_ H].
  rewrite round2_value.
  assert (inject_Z (Num.rint (x * 100)) <= 1 # 2) as Hk by lra.
  assert (Num.rint (x * 100) <= 0)%Z as Hz.
  { unfold Qle in Hk. simpl in Hk. lia. }
  rewrite Zle_Qle in Hz. change (inject_Z 0) with 0 in Hz. lra.
Qed.

Lemma neg_times_pos (g k : Q) : g < 0 -> 0 < k -> g * k < 0.
Proof.
  intros Hg Hk.
  assert (0 < (- g) * k) as Hpos by (apply Qmult_lt_0_compat; lra).
  assert ((- g) * k == - (g * k)) as E by ring.
  rewrite E in Hpos. lra.
Qed.

(** C7.  In every step of the monthly and of the biweekly walk the trading
    gain is the capital after contributions times the period return, and
    the profit after tax is that gain times [1 - tax_rate]; the emitted
    field is this product rounded to two decimals.  Nothing floors the
    product at zero: under a tax rate below one, a negative gain gives a
    negative profit after tax and a non-positive emitted field. *)
Theorem profit_after_tax_no_floor (self : TradingDataManager) (cid : string)
    (cl : Client) (movements : list CapitalMovement) (s : Step.t) :
  s ∈ monthly_steps self cid cl movements
  \/ s ∈ biweekly_steps self cid cl movements ->
  let tax := cfg_tax_rate (get_config (config self) (Some cid)) in
  Step.period_return_amount s
  = (Step.period_starting_capital s + Step.net_contributions s)
    * (Step.period_return_pct s / 100)
  /\ Step.profit_after_tax s = Step.period_return_amount s * (1 - tax)
  /\ Breakdown.profit_after_tax (emit s)
     = Num.round2 (Step.period_return_amount s * (1 - tax))
  /\ (Step.period_return_amount s < 0 -> tax < 1 ->
      Step.profit_after_tax s < 0
      /\ Breakdown.profit_after_tax (emit s) <= 0).
Proof.
  intros H tax.
  apply ledger_step in H as (freq & cc & pd & ->).
  split; [reflexivity |]. split; [reflexivity |]. split; [reflexivity |].
  intros Hneg Htax.
  assert (Step.profit_after_tax
            (walk_step freq (get_config (config self) (Some cid))
                       movements cc pd) < 0) as Hpat.
  { refine (neg_times_pos _ (1 - tax) Hneg _). lra. }
  split; [exact Hpat |].
  apply round2_nonpos. lra.
Qed.

Lemma profit_after_tax_no_floor_witness :
  exists s,
    s ∈ monthly_steps store_two_periods "alice" alice []
    /\ Step.period_return_amount s < 0
    /\ Step.profit_after_tax s < 0
    /\ Breakdown.profit_after_tax (emit s) <= 0.
Proof.
  destruct (monthly_steps store_two_periods "alice" alice [] !! 1%nat)
    as [s2 |] eqn:E; [| vm_compute in E; discriminate].
  assert (s2 ∈ monthly_steps store_two_periods "alice" alice []) as Hin
      by (eapply list_elem_of_lookup_2; exact E).
  assert (Step.period_return_amount s2 < 0) as Hneg.
  { vm_compute in E. injection E as <-. reflexivity. }
  exists s2. split; [exact Hin |]. split; [exact Hneg |].
  apply (profit_after_tax_no_floor store_two_periods "alice" alice [] s2).
  - left. exact Hin.
  - exact Hneg.
  - reflexivity.
Defined.

(** ** Which walk the returned figures come from *)

(** Adding up from the left, as [sum] does, and from the right agree. *)
Lemma sum_fold_right (l : list Q) : Num.sum l == fold_right Qplus 0 l.
Proof.
  unfold Num.sum.
  assert (forall acc, fold_left Qplus l acc == acc + fold_right Qplus 0 l)
    as H.
  { induction l as [| x l IH]; intros acc; simpl; [ring |].
    rewrite IH. ring. }
  rewrite H. ring.
Qed.

(** The two breakdowns of a returned ledger are empty together. *)
Lemma breakdowns_empty_together (cid : string) (self : TradingDataManager)
    (r : Flow.t) :
  get_client_capital_flow cid self = Some r ->
  Flow.monthly_breakdown r = [] <-> Flow.biweekly_breakdown r = [].
Proof.
  intros Hr.
  apply flow_breakdowns in Hr as (cl & rest & _ & _ & _ & _ & -> & ->).
  unfold monthly_steps, biweekly_steps.
  pose proof (returns_empty_together (Some cid) self) as Hiff.
  destruct Hiff as [H1 H2].
  destruct (get_monthly_strategy_returns (Some cid) self);
    destruct (get_biweekly_strategy_returns (Some cid) self); simpl;
    split; intros H; try reflexivity; try discriminate;
    first [discriminate (H1 eq_refl) | discriminate (H2 eq_refl)].
Qed.

(** C10.  When the monthly breakdown of a returned ledger is not empty,
    [current_capital] is the [ending_capital] of its last monthly period
    and [total_returns] is the sum of the [profit_after_tax] fields of the
    monthly periods, added up from 0 in the order of the breakdown,
    whatever the biweekly walk computed.  Only when the monthly breakdown
    is empty do the two figures come from the biweekly side: the
    [ending_capital] of the last biweekly period (the anchor
    [starting_capital + total_contributions - total_withdrawals] when
    there is none) and the sum of the biweekly [profit_after_tax] fields;
    the biweekly breakdown is then empty as well, so that the figures are
    the anchor and 0. *)
Theorem monthly_walk_decides (cid : string) (self : TradingDataManager)
    (r : Flow.t) :
  get_client_capital_flow cid self = Some r ->
  let anchor :=
    Flow.starting_capital r + Flow.total_contributions r
    - Flow.total_withdrawals r in
  (Flow.monthly_breakdown r <> [] ->
   exists p,
     last (Flow.monthly_breakdown r) = Some p
     /\ Flow.current_capital r = Breakdown.ending_capital p
     /\ Flow.total_returns r
        = fold_left Qplus
            (map Breakdown.profit_after_tax (Flow.monthly_breakdown r)) 0
     /\ Flow.total_returns r
        == fold_right Qplus 0
             (map Breakdown.profit_after_tax (Flow.monthly_breakdown r)))
  /\ (Flow.monthly_breakdown r = [] ->
      Flow.current_capital r
      = match last (Flow.biweekly_breakdown r) with
        | Some p => Breakdown.ending_capital p
        | None => anchor
        end
      /\ Flow.total_returns r
         = fold_left Qplus
             (map Breakdown.profit_after_tax (Flow.biweekly_breakdown r)) 0
      /\ Flow.biweekly_breakdown r = []
      /\ Flow.current_capital r = anchor
      /\ Flow.total_returns r = 0).
Proof.
  intros Hr anchor.
  pose proof (breakdowns_empty_together cid self r Hr) as Hboth.
  revert Hr Hboth. subst anchor. unfold get_client_capital_flow.
  destruct (filter _ (clients_df self)) as [| cl rest]; [discriminate |].
  destruct (get_biweekly_strategy_returns (Some cid) self) as [| pd pds].
  - intros [= <-] _. simpl. split; [congruence |]. intros _.
    repeat split.
  - set (movs := filter _ (capital_movements_df self)).
    set (bsteps := biweekly_steps self cid cl movs).
    set (msteps := monthly_steps self cid cl movs).
    unfold select_ending.
    destruct (map emit msteps) as [| m ms] eqn:Em.
    + destruct (map emit bsteps) as [| b bs] eqn:Eb; intros [= <-] Hboth;
        simpl in Hboth; [| discriminate (proj1 Hboth eq_refl)].
      simpl. split; [congruence |]. intros _.
      apply map_eq_nil_inv in Eb. rewrite Eb. repeat split.
    + intros [= <-] _. simpl. split; [| discriminate]. intros _.
      destruct (last_is_Some (m :: ms)) as [p Hp]; [discriminate |].
      exists p. split; [exact Hp |].
      split; [unfold last_ending_capital; now apply last_map_default |].
      split; [reflexivity |].
      unfold sum_profit_after_tax. apply sum_fold_right.
Qed.

(** The two-period store: profits after tax of 750 and -391.88, a total of
    358.12 and an ending capital of 10214.88. *)
Lemma monthly_walk_decides_witness :
  (exists r p,
      get_client_capital_flow "alice" store_two_periods = Some r
      /\ last (Flow.monthly_breakdown r) = Some p
      /\ Flow.current_capital r = Breakdown.ending_capital p
      /\ Breakdown.ending_capital p == 1021488 # 100
      /\ map Breakdown.profit_after_tax (Flow.monthly_breakdown r)
         = [750; -9797 # 25]
      /\ Flow.total_returns r == 35812 # 100)
  /\ (exists r,
         get_client_capital_flow "alice"
           (mkManager default_config [] [alice] [] [] all_int64) = Some r
         /\ Flow.monthly_breakdown r = []
         /\ Flow.current_capital r = 10000 + 0 - 0
         /\ Flow.total_returns r = 0).
Proof.
  split.
  - destruct (get_client_capital_flow "alice" store_two_periods)
      as [r |] eqn:E; [| vm_compute in E; discriminate].
    assert (map Breakdown.profit_after_tax (Flow.monthly_breakdown r)
            = [750; -9797 # 25]) as Hpat.
    { vm_compute in E. injection E as <-. reflexivity. }
    destruct (proj1 (monthly_walk_decides "alice" store_two_periods r E))
      as (p & Hp & Hc & _ & Ht).
    + intros Hnil. rewrite Hnil in Hpat. discriminate.
    + exists r, p. split; [reflexivity |]. split; [exact Hp |].
      split; [exact Hc |]. split.
      * rewrite <- Hc. vm_compute in E. injection E as <-. reflexivity.
      * split; [exact Hpat |]. rewrite Ht, Hpat. reflexivity.
  - destruct (get_client_capital_flow "alice"
                (mkManager default_config [] [alice] [] [] all_int64))
      as [r |] eqn:E; [| vm_compute in E; discriminate].
    assert (Flow.monthly_breakdown r = []) as Hm.
    { vm_compute in E. injection E as <-. reflexivity. }
    assert (Flow.starting_capital r + Flow.total_contributions r
            - Flow.total_withdrawals r = 10000 + 0 - 0) as Ha.
    { vm_compute in E. injection E as <-. reflexivity. }
    exists r. split; [reflexivity |]. split; [exact Hm |].
    destruct (proj2 (monthly_walk_decides "alice" _ r E) Hm)
      as (_ & _ & _ & Hc & Ht).
    split; [rewrite Hc; exact Ha | exact Ht].
Defined.

(** ** Failure modes *)

(** C8.  A client that is not in the directory gets no ledger, without an
    exception.  A client that is, but none of whose trades survive the
    filter on the investment start date, gets a ledger with no period in
    either breakdown, [total_returns = 0] and [current_capital] equal to
    the anchor [starting_capital + total_contributions -
    total_withdrawals]. *)
Theorem capital_flow_failure_modes (cid : string)
    (self : TradingDataManager) :
  ((forall cl, cl ∈ clients_df self -> client_id cl <> cid) ->
   get_client_capital_flow cid self = None)
  /\ (forall l1 cl l2,
        clients_df self = l1 ++ cl :: l2 ->
        (forall c, c ∈ l1 -> client_id c <> cid) ->
        client_id cl = cid ->
        trades_for_client (Some cid) self = [] ->
        let movements :=
          filter (fun m => movement_client m = cid)
                 (capital_movements_df self) in
        get_client_capital_flow cid self
        = Some (Flow.mk (starting_capital cl)
                        (starting_capital cl + contribution_sum movements
                         - withdrawal_sum movements)
                        (contribution_sum movements)
                        (withdrawal_sum movements)
                        0 [] [])).
Proof.
  split.
  - intros Hnone. unfold get_client_capital_flow.
    rewrite (filter_none (fun cl => client_id cl = cid)); [reflexivity |].
    exact Hnone.
  - intros l1 cl l2 Hdf Hl1 Hcl Hempty movements.
    unfold get_client_capital_flow.
    rewrite Hdf, (filter_first (fun cl => client_id cl = cid)); try assumption.
    assert (get_biweekly_strategy_returns (Some cid) self = []) as ->.
    { apply strategy_returns_nil. now right. }
    reflexivity.
Qed.

Lemma capital_flow_failure_modes_witness :
  get_client_capital_flow "mallory" store_early_contribution = None
  /\ get_client_capital_flow "alice"
       (mkManager default_config [] [alice]
                  (capital_movements_df store_early_contribution) []
                  all_int64)
     = Some (Flow.mk 10000 (10000 + (0 + 2000) - 0) (0 + 2000) 0 0 [] []).
Proof.
  split.
  - apply (proj1 (capital_flow_failure_modes "mallory"
                    store_early_contribution)).
    intros cl Hcl. apply list_elem_of_singleton in Hcl as ->. discriminate.
  - apply (proj2 (capital_flow_failure_modes "alice"
                    (mkManager default_config [] [alice]
                       (capital_movements_df store_early_contribution) []
                       all_int64))
                 [] alice []).
    + reflexivity.
    + intros c Hc. inversion Hc.
    + reflexivity.
    + reflexivity.
Defined.

(** ** Where each walk starts *)

Lemma biweekly_walk_starts_at_anchor (self : TradingDataManager)
    (cid : string) (cl : Client) (movements : list CapitalMovement)
    (s : Step.t) :
  head (biweekly_steps self cid cl movements) = Some s ->
  Step.period_starting_capital s
  = starting_capital cl + contribution_sum movements
    - withdrawal_sum movements.
Proof. apply walk_head. Qed.

Lemma monthly_walk_starts_at_starting_capital (self : TradingDataManager)
    (cid : string) (cl : Client) (movements : list CapitalMovement)
    (s : Step.t) :
  head (monthly_steps self cid cl movements) = Some s ->
  Step.period_starting_capital s = starting_capital cl.
Proof. apply walk_head. Qed.

(** C1.  For a client with 10000 of starting capital and a contribution of
    2000 made in May, trading in June, the anchor is 12000.  The biweekly
    walk starts from it; the monthly walk starts from 10000, and the
    capital it reports never contains the contribution. *)
Theorem monthly_walk_misses_anchor :
  exists r m b,
    get_client_capital_flow "alice" store_early_contribution = Some r
    /\ head (Flow.monthly_breakdown r) = Some m
    /\ head (Flow.biweekly_breakdown r) = Some b
    /\ Flow.starting_capital r + Flow.total_contributions r
       - Flow.total_withdrawals r == 12000
    /\ Breakdown.starting_capital b = 12000
    /\ Breakdown.starting_capital m = 10000
    /\ Breakdown.contributions m = 0
    /\ Flow.current_capital r == 10374.85.
Proof.
  eexists _, _, _.
  split; [vm_compute; reflexivity |].
  split; [reflexivity |]. split; [reflexivity |].
  repeat split; vm_compute; reflexivity.
Qed.

(** ** The 10 % scenario *)

Section Scenario.

Variable freq : Freq.
Variable cfg : Settings.
Variable cc : Q.
Variable pd : PeriodStats.

Hypothesis capital : cc == 10000.
Hypothesis ret : Return_Pct pd == 10.
Hypothesis tax : cfg_tax_rate cfg == 25 # 100.
Hypothesis trader : cfg_trader_share cfg == 40 # 100.
Hypothesis investor : cfg_investor_share cfg == 60 # 100.

(** One run of the loop body without movements on the scenario's data. *)
Lemma scenario_step :
  let s := walk_step freq cfg [] cc pd in
  Step.period_return_amount s == 1000 /\ scenario_period (emit s).
Proof.
  unfold scenario_period. simpl.
  change (contribution_sum []) with 0. change (withdrawal_sum []) with 0.
  repeat split;
    try (match goal with
         | |- Num.round2 ?x == ?v =>
             rewrite (round2_proper x v); [reflexivity |]
         end);
    rewrite ?capital, ?ret, ?tax, ?trader, ?investor;
    vm_compute; reflexivity.
Qed.

End Scenario.

(** C2.  A client with a starting capital of 10000 and no capital
    movements, whose monthly and biweekly frames each hold exactly one
    period with a return of 10 %, under a tax rate of 0.25 and a trader
    share of 0.40 (investor share 0.60): each walk makes one step with a
    trading gain of 1000 and emits one period showing
    [capital_after_contributions = 10000], [profit_after_tax = 750],
    [investor_share = 450], [trader_share = 300] and
    [ending_capital = 10450]. *)
Theorem scenario_ten_percent (cid : string) (self : TradingDataManager)
    (cl : Client) (rest : list Client) (pm pb : PeriodStats) :
  filter (fun c => client_id c = cid) (clients_df self) = cl :: rest ->
  starting_capital cl == 10000 ->
  filter (fun m => movement_client m = cid) (capital_movements_df self) = [] ->
  cfg_tax_rate (get_config (config self) (Some cid)) == 25 # 100 ->
  cfg_trader_share (get_config (config self) (Some cid)) == 40 # 100 ->
  cfg_investor_share (get_config (config self) (Some cid)) == 60 # 100 ->
  get_monthly_strategy_returns (Some cid) self = [pm] ->
  Return_Pct pm == 10 ->
  get_biweekly_strategy_returns (Some cid) self = [pb] ->
  Return_Pct pb == 10 ->
  exists r sm sb,
    get_client_capital_flow cid self = Some r
    /\ monthly_steps self cid cl [] = [sm]
    /\ biweekly_steps self cid cl [] = [sb]
    /\ Flow.monthly_breakdown r = [emit sm]
    /\ Flow.biweekly_breakdown r = [emit sb]
    /\ Step.period_return_amount sm == 1000
    /\ Step.period_return_amount sb == 1000
    /\ scenario_period (emit sm)
    /\ scenario_period (emit sb).
Proof.
  intros Hcl Hcap Hmov Htax Htr Hinv Hm Hrm Hb Hrb.
  assert (starting_capital cl + contribution_sum [] - withdrawal_sum []
          == 10000) as Hanchor.
  { change (contribution_sum []) with 0. change (withdrawal_sum []) with 0.
    rewrite Hcap. reflexivity. }
  destruct (scenario_step FreqM _ _ pm Hcap Hrm Htax Htr Hinv)
    as [Hgm Hsm].
  destruct (scenario_step Freq2W _ _ pb Hanchor Hrb Htax Htr Hinv)
    as [Hgb Hsb].
  unfold get_client_capital_flow. rewrite Hcl, Hmov, Hb.
  unfold monthly_steps, biweekly_steps. rewrite Hm, Hb.
  do 3 eexists. simpl.
  split; [reflexivity |]. split; [reflexivity |]. split; [reflexivity |].
  split; [reflexivity |]. split; [reflexivity |].
  split; [exact Hgm |]. split; [exact Hgb |].
  split; [exact Hsm | exact Hsb].
Qed.

Lemma scenario_ten_percent_witness :
  exists r pm pb,
    get_client_capital_flow "alice" store_one_period = Some r
    /\ Flow.monthly_breakdown r = [pm]
    /\ Flow.biweekly_breakdown r = [pb]
    /\ scenario_period pm
    /\ scenario_period pb.
Proof.
  destruct (get_monthly_strategy_returns (Some "alice") store_one_period)
    as [| pm [| ? ?]] eqn:Em;
    [vm_compute in Em; discriminate | | vm_compute in Em; discriminate].
  destruct (get_biweekly_strategy_returns (Some "alice") store_one_period)
    as [| pb [| ? ?]] eqn:Eb;
    [vm_compute in Eb; discriminate | | vm_compute in Eb; discriminate].
  destruct (scenario_ten_percent "alice" store_one_period alice [] pm pb)
    as (r & sm & sb & Hr & _ & _ & Hmb & Hbb & _ & _ & Hsm & Hsb).
  - reflexivity.
  - reflexivity.
  - reflexivity.
  - reflexivity.
  - reflexivity.
  - reflexivity.
  - exact Em.
  - vm_compute in Em. injection Em as <-. reflexivity.
  - exact Eb.
  - vm_compute in Eb. injection Eb as <-. reflexivity.
  - exists r, (emit sm), (emit sb).
    split; [exact Hr |]. split; [exact Hmb |]. split; [exact Hbb |].
    split; [exact Hsm | exact Hsb].
Defined.

(** ** Split conservation *)

(** C3 as stated fails on the emitted fields.  With the default
    configuration (shares 0.40 and 0.60), a capital of 100 and a period
    return of 0.01 %, the profit after tax is 0.0075: it is emitted as
    0.01, while both shares, 0.0045 and 0.003, are emitted as 0. *)
Lemma emitted_split_not_conserved :
  exists r p,
    get_client_capital_flow "bob" store_one_cent = Some r
    /\ p ∈ Flow.monthly_breakdown r
    /\ shares_sum_to_one (get_config (config store_one_cent) (Some "bob"))
    /\ Breakdown.investor_share p = 0
    /\ Breakdown.trader_share p = 0
    /\ Breakdown.profit_after_tax p = 1 # 100
    /\ ~ (Breakdown.investor_share p + Breakdown.trader_share p
          == Breakdown.profit_after_tax p).
Proof.
  eexists _, _.
  split; [vm_compute; reflexivity |].
  split; [left |].
  split; [vm_compute; reflexivity |].
  split; [reflexivity |]. split; [reflexivity |]. split; [reflexivity |].
  vm_compute. discriminate.
Qed.

(** C3, as amended.  In every step of the monthly and of the biweekly walk
    whose resolved configuration has shares adding up to one, the investor
    share plus the trader share equals the profit after tax before
    rounding; the three emitted fields are each rounded to two decimals,
    and the emitted shares add up to the emitted profit within one cent.
    [update_config] keeps a store well formed, so that every
    configuration resolved from it has shares adding up to one, and when
    it is given a trader share [t] the configuration it updated resolves
    to the shares [t] and [1 - t]. *)
Theorem split_conservation :
  (forall (self : TradingDataManager) (cid : string) (cl : Client)
          (movements : list CapitalMovement) (s : Step.t),
      s ∈ monthly_steps self cid cl movements
      \/ s ∈ biweekly_steps self cid cl movements ->
      shares_sum_to_one (get_config (config self) (Some cid)) ->
      Step.investor_share s + Step.trader_share s == Step.profit_after_tax s
      /\ Breakdown.investor_share (emit s)
         = Num.round2 (Step.investor_share s)
      /\ Breakdown.trader_share (emit s) = Num.round2 (Step.trader_share s)
      /\ Breakdown.profit_after_tax (emit s)
         = Num.round2 (Step.profit_after_tax s)
      /\ Qabs (Breakdown.investor_share (emit s)
               + Breakdown.trader_share (emit s)
               - Breakdown.profit_after_tax (emit s)) <= 1 # 100)
  /\ (forall (tax ts : option Q) (cid : option string) (cfg : Config),
         config_ok cfg ->
         config_ok (update_config tax ts cid cfg)
         /\ forall cid',
             shares_sum_to_one
               (get_config (update_config tax ts cid cfg) cid'))
  /\ (forall (tax : option Q) (t : Q) (cid : option string) (cfg : Config),
         let s := get_config (update_config tax (Some t) cid cfg) cid in
         cfg_trader_share s = t /\ cfg_investor_share s = 1 - t).
Proof.
  split; [| split].
  - intros self cid cl movements s Hs Hone.
    apply ledger_step in Hs as (freq & cc & pd & ->).
    assert (Step.investor_share
              (walk_step freq (get_config (config self) (Some cid))
                         movements cc pd)
            + Step.trader_share
                (walk_step freq (get_config (config self) (Some cid))
                           movements cc pd)
            == Step.profit_after_tax
                 (walk_step freq (get_config (config self) (Some cid))
                            movements cc pd)) as Hsum.
    { unfold shares_sum_to_one in Hone.
      destruct (walk_step_amounts freq
                  (get_config (config self) (Some cid)) movements cc pd)
        as (_ & _ & -> & -> & _).
      set (pat := Step.profit_after_tax _).
      transitivity
        (pat * (cfg_trader_share (get_config (config self) (Some cid))
                + cfg_investor_share (get_config (config self) (Some cid))));
        [ring | rewrite Hone; ring]. }
    split; [exact Hsum |].
    split; [reflexivity |]. split; [reflexivity |]. split; [reflexivity |].
    apply round2_split. exact Hsum.
  - intros tax ts cid cfg Hok.
    pose proof (update_config_ok tax ts cid cfg Hok) as Hok'.
    split; [exact Hok' |].
    intros cid'. now apply config_ok_resolved.
  - intros tax t cid cfg. apply update_config_sets_shares.
Qed.

Lemma split_conservation_witness :
  (exists s,
      s ∈ monthly_steps store_one_cent "bob" (mkClient "bob" "Bob" 100 None true) []
      /\ Step.investor_share s + Step.trader_share s
         == Step.profit_after_tax s
      /\ Qabs (Breakdown.investor_share (emit s)
               + Breakdown.trader_share (emit s)
               - Breakdown.profit_after_tax (emit s)) <= 1 # 100)
  /\ config_ok (update_config None (Some (1 # 2)) (Some "bob") default_config).
Proof.
  destruct split_conservation as (Hsplit & Hupd & _).
  split.
  - destruct (monthly_steps store_one_cent "bob"
                (mkClient "bob" "Bob" 100 None true) [] !! 0%nat)
      as [s |] eqn:E; [| vm_compute in E; discriminate].
    assert (s ∈ monthly_steps store_one_cent "bob"
                  (mkClient "bob" "Bob" 100 None true) []) as Hin
        by (eapply list_elem_of_lookup_2; exact E).
    exists s. split; [exact Hin |].
    destruct (Hsplit store_one_cent "bob" _ [] s (or_introl Hin))
      as (Hsum & _ & _ & _ & Hcent).
    + vm_compute. reflexivity.
    + split; [exact Hsum | exact Hcent].
  - apply (Hupd None (Some (1 # 2)) (Some "bob") default_config).
    exact default_config_ok.
Defined.

(** ** Zero-denominator safety *)

(** C5.  Every row of the monthly and of the biweekly frame carries the
    guarded quotient of its own P&L and capital denominator.  That
    quotient is always a finite number, never NaN or an infinity, and
    computing it raises nothing; it is 0 when the denominator is zero,
    whatever the P&L, and whenever the division gives a value that is not
    finite. *)
Theorem zero_denominator_safety (cid : option string)
    (self : TradingDataManager) (r : PeriodStats) :
  r ∈ get_monthly_strategy_returns cid self
  \/ r ∈ get_biweekly_strategy_returns cid self ->
  row_guarded r
  /\ Num.is_finite (return_pct_column (Total_PL r) (Client_Capital r)) = true
  /\ (Client_Capital r == 0 ->
      return_pct_column (Total_PL r) (Client_Capital r) = Num.Fin 0
      /\ Return_Pct r = 0)
  /\ (Num.is_finite (raw_return_pct (Total_PL r) (Client_Capital r)) = false ->
      Return_Pct r = 0).
Proof.
  intros Hr.
  assert (row_guarded r) as Hg.
  { destruct Hr as [Hr | Hr];
      [unfold get_monthly_strategy_returns in Hr
      | unfold get_biweekly_strategy_returns in Hr];
      revert Hr; apply Forall_forall, strategy_returns_guarded. }
  split; [exact Hg |].
  split; [apply return_pct_column_finite |].
  split.
  - intros Hzero.
    pose proof (return_pct_column_zero (Total_PL r) _ Hzero) as Hcol.
    split; [exact Hcol |].
    rewrite Hg, Hcol. reflexivity.
  - intros Hinf. rewrite Hg, (return_pct_column_guard _ _ Hinf). reflexivity.
Qed.

Lemma zero_denominator_safety_witness :
  exists r,
    r ∈ get_monthly_strategy_returns (Some "carol") store_no_capital
    /\ Total_PL r == 1000
    /\ Client_Capital r == 0
    /\ Return_Pct r = 0.
Proof.
  destruct (get_monthly_strategy_returns (Some "carol") store_no_capital
              !! 0%nat) as [r |] eqn:E; [| vm_compute in E; discriminate].
  assert (r ∈ get_monthly_strategy_returns (Some "carol") store_no_capital)
    as Hin by (eapply list_elem_of_lookup_2; exact E).
  assert (Total_PL r == 1000 /\ Client_Capital r == 0) as [Hpl Hcap].
  { vm_compute in E. injection E as <-. split; reflexivity. }
  exists r. split; [exact Hin |]. split; [exact Hpl |]. split; [exact Hcap |].
  destruct (zero_denominator_safety (Some "carol") store_no_capital r
              (or_introl Hin)) as (_ & _ & Hzero & _).
  exact (proj2 (Hzero Hcap)).
Defined.

(** ** Period capital *)

(** Two dates with months in 1..12 have the same month period exactly when
    they lie in the same calendar month, and the periods are ordered as
    the calendar months are. *)
Lemma to_period_M_calendar (a b : Date) :
  (1 <= month_of_year a <= 12)%Z -> (1 <= month_of_year b <= 12)%Z ->
  (to_period_M a = to_period_M b
   <-> year a = year b /\ month_of_year a = month_of_year b)
  /\ ((to_period_M a <= to_period_M b)%Z
      <-> (year a < year b)%Z
          \/ (year a = year b /\ (month_of_year a <= month_of_year b)%Z)).
Proof. unfold to_period_M. intros Ha Hb. split; split; lia. Qed.

(** C6.  [get_monthly_capital] returns the [total_capital] of the first
    override row lying in the calendar month asked for, as it is stored.
    Without such a row it returns the sum of the starting capital of every
    client of the directory, active or not, plus contributions minus
    withdrawals over the movements of all clients whose month is that
    month or an earlier one. *)
Theorem monthly_capital_priority (m : Date) (self : TradingDataManager) :
  (forall l1 r l2,
      monthly_capital_df self = l1 ++ r :: l2 ->
      (forall o, o ∈ l1 -> to_period_M (month o) <> to_period_M m) ->
      to_period_M (month r) = to_period_M m ->
      get_monthly_capital m self = total_capital r)
  /\ ((forall o, o ∈ monthly_capital_df self ->
                 to_period_M (month o) <> to_period_M m) ->
      let up_to_month :=
        filter (fun mv => (to_period_M (movement_date mv) <= to_period_M m)%Z)
               (capital_movements_df self) in
      get_monthly_capital m self
      == Num.sum (map starting_capital (clients_df self))
         + (contribution_sum up_to_month - withdrawal_sum up_to_month)).
Proof.
  unfold get_monthly_capital, capital_for. split.
  - intros l1 r l2 Hdf Hl1 Hr.
    rewrite Hdf, (filter_first (fun o => to_period_M (month o) = to_period_M m));
      [reflexivity | exact Hl1 | exact Hr].
  - intros Hnone.
    rewrite (filter_none (fun o => to_period_M (month o) = to_period_M m));
      [| exact Hnone].
    unfold default_capital.
    destruct (capital_movements_df self) as [| mv mvs]; [| reflexivity].
    change (contribution_sum (filter _ [])) with 0.
    change (withdrawal_sum (filter _ [])) with 0.
    ring.
Qed.

Lemma monthly_capital_priority_witness :
  get_monthly_capital (mkDate 2025 6 15) store_with_override = 50000
  /\ get_monthly_capital (mkDate 2025 7 15) store_with_override == 25500.
Proof.
  split.
  - apply (proj1 (monthly_capital_priority (mkDate 2025 6 15)
                    store_with_override)
                 [] (mkMonthlyCapital (mkDate 2025 6 1) 50000 "" None) []).
    + reflexivity.
    + intros o Ho. inversion Ho.
    + reflexivity.
  - rewrite (proj2 (monthly_capital_priority (mkDate 2025 7 15)
                      store_with_override)).
    + vm_compute. reflexivity.
    + intros o Ho. apply list_elem_of_singleton in Ho as ->.
      vm_compute. discriminate.
Defined.

(** ** Trade import *)

Section ImportFacts.

Variable types : NumericTypes.


(** Every row has its signature among those seen before or those kept. *)
Lemma drop_duplicates_from_covers (df : list Trade) :
  forall seen t,
    t ∈ df ->
    trade_signature types t ∈ seen
    \/ trade_signature types t
       ∈ map (trade_signature types) (drop_duplicates_from types seen df).
Proof.
  induction df as [| u df IH]; intros seen t Ht; [inversion Ht |].
  simpl. apply elem_of_cons in Ht as [-> | Ht].
  - case_decide as Hseen; [now left |]. right. simpl. left.
  - case_decide as Hseen; [now apply IH |].
    destruct (IH (trade_signature types u :: seen) t Ht) as [Hin | Hin].
    + apply elem_of_cons in Hin as [-> | Hin]; [| now left].
      right. simpl. left.
    + right. simpl. now right.
Qed.


(** A split of a filtered frame comes from a split of the frame. *)
Lemma filter_split (P : Trade -> Prop) `{forall t, Decision (P t)}
    (df : list Trade) :
  forall a t b,
    filter P df = a ++ t :: b ->
    exists l1 l2, df = l1 ++ t :: l2 /\ filter P l1 = a.
Proof.
  induction df as [| u df IH]; intros a t b Hf.
  - destruct a; discriminate.
  - destruct (decide (P u)) as [Hu | Hu].
    + rewrite filter_cons_True in Hf by exact Hu.
      destruct a as [| a0 a].
      * injection Hf as -> _. exists [], df. split; reflexivity.
      * injection Hf as -> Hf. destruct (IH a t b Hf) as (l1 & l2 & -> & <-).
        exists (a0 :: l1), l2. split; [reflexivity |].
        now rewrite filter_cons_True.
    + rewrite filter_cons_False in Hf by exact Hu.
      destruct (IH a t b Hf) as (l1 & l2 & -> & <-).
      exists (u :: l1), l2. split; [reflexivity |].
      now rewrite filter_cons_False.
Qed.

End ImportFacts.

(** Two signatures printed with different dtypes are equal only when the
    dtypes agree on every column. *)
Lemma signature_dtypes (a b : NumericTypes) (t u : Trade) :
  trade_signature a t = trade_signature b u -> a = b.
Proof.
  unfold trade_signature, print_number. intros [= _ _ _ H1 _ H2 _ H3 _].
  destruct a, b. simpl in *. congruence.
Qed.

Section UploadOutcome.

Variable unicode_normalize : string -> string.
Variable file : UploadFile.
Variable self : TradingDataManager.

(** What a call of [upload_trades] returns: a failure that leaves the
    manager as it was, or the store with the appended rows behind the
    stored ones. *)
Lemma upload_trades_store :
  (fst (fst (upload_trades unicode_normalize file self)) = false
   /\ snd (upload_trades unicode_normalize file self) = self)
  \/ exists df,
       processed_rows (config self)
         (rename_columns unicode_normalize (file_columns file))
         (file_rows file) = Some df
       /\ let new :=
            appended_rows (trades_dtypes self) (file_dtypes (file_rows file))
                          (trades_df self) df in
          upload_trades unicode_normalize file self
          = ((true, SuccessfullyUploaded (length new)),
             set_trades_typed self (trades_df self ++ new)
               (dtypes_after_import (trades_dtypes self)
                  (file_dtypes (file_rows file)) (trades_df self) new)).
Proof.
  unfold upload_trades.
  destruct (ends_with ".csv" (file_name file)
            || ends_with ".xlsx" (file_name file)
            || ends_with ".xls" (file_name file)); [| left; split; reflexivity].
  destruct (file_readable file); [| left; split; reflexivity].
  destruct (missing_columns _); [| left; split; reflexivity].
  destruct (duplicated_columns _); [| left; split; reflexivity].
  destruct (processed_rows _ _ _) as [df |]; [| left; split; reflexivity].
  right. exists df. split; [reflexivity |]. cbv zeta.
  unfold appended_rows, dtypes_after_import.
  destruct (trades_df self) as [| e0 es] eqn:E; [| reflexivity].
  simpl. rewrite (filter_all (fun t => _ ∉ [])); [reflexivity |].
  intros t _. inversion 1.
Qed.

End UploadOutcome.

(** Where the dtypes of the store do not turn an [int64] column of the
    file into [float64], a second upload of the file finds every row in
    the store and leaves the manager as the first upload left it. *)
Lemma reupload_same_dtypes (unicode_normalize : string -> string)
    (file : UploadFile) (self : TradingDataManager) :
  trades_df self = []
  \/ concat_dtypes (trades_dtypes self) (file_dtypes (file_rows file))
     = file_dtypes (file_rows file) ->
  snd (upload_trades unicode_normalize file
         (snd (upload_trades unicode_normalize file self)))
  = snd (upload_trades unicode_normalize file self).
Proof.
  intros Hagree.
  destruct (upload_trades_store unicode_normalize file self)
    as [[_ Hs] | (df & Hdf & Hs)].
  { rewrite Hs. exact Hs. }
  cbv zeta in Hs. rewrite Hs. cbn [snd].
  set (ft := file_dtypes (file_rows file)) in *.
  set (new := appended_rows (trades_dtypes self) ft (trades_df self) df) in *.
  set (t1 := dtypes_after_import (trades_dtypes self) ft (trades_df self) new).
  set (self1 := set_trades_typed self (trades_df self ++ new) t1).
  destruct (upload_trades_store unicode_normalize file self1)
    as [[_ Hs'] | (df' & Hdf' & Hs')]; [exact Hs' |].
  cbv zeta in Hs'. rewrite Hs'. cbn [snd]. fold ft.
  change (config self1) with (config self) in Hdf'.
  rewrite Hdf in Hdf'. injection Hdf' as <-.
  change (trades_dtypes self1) with t1.
  change (trades_df self1) with (trades_df self ++ new).
  assert (appended_rows t1 ft (trades_df self ++ new) df = []) as Hnone.
  { destruct new as [| n0 ns] eqn:Enew.
    - (* nothing was appended: the store and its dtypes are unchanged *)
      rewrite app_nil_r.
      destruct (trades_df self) as [| e0 es] eqn:E.
      + subst t1. simpl. exact Enew.
      + subst t1. simpl. exact Enew.
    - unfold appended_rows.
      rewrite (filter_none
                 (fun t => trade_signature ft t
                           ∉ map (trade_signature t1)
                                 (trades_df self ++ n0 :: ns)));
        [reflexivity |].
      intros t Ht Hnot. apply Hnot. clear Hnot.
      assert (t1 = ft) as ->.
      { subst t1. unfold dtypes_after_import.
        destruct (trades_df self) as [| e0 es] eqn:E; [reflexivity |].
        destruct Hagree as [Hnil | Hcat]; [discriminate | exact Hcat]. }
      rewrite map_app, elem_of_app.
      destruct (decide (trade_signature ft t
                        ∈ map (trade_signature (trades_dtypes self))
                              (trades_df self))) as [Hold | Hnew].
      + left. apply elem_of_map in Hold as (e & Hsig & He).
        pose proof (signature_dtypes _ _ _ _ Hsig) as Heq.
        rewrite <- Heq in Hsig. apply elem_of_map.
        exists e. split; [exact Hsig | exact He].
      + right. rewrite <- Enew. unfold new, appended_rows.
        assert (t ∈ filter (fun t => trade_signature ft t
                                     ∉ map (trade_signature
                                              (trades_dtypes self))
                                           (trades_df self)) df) as Hkept
          by (apply list_elem_of_filter; split; assumption).
        destruct (drop_duplicates_from_covers ft _ [] t Hkept) as [Hin | Hin];
          [inversion Hin | exact Hin]. }
  rewrite Hnone, app_nil_r. unfold self1, set_trades_typed. simpl.
  f_equal. subst t1. unfold dtypes_after_import.
  destruct (trades_df self) as [| e0 es]; [| reflexivity].
  simpl. now destruct new.
Qed.

(** C9.  A second upload of the same file is not always without effect.
    The signatures compared are printed text, and a number prints by the
    dtype of its column: [50] in an [int64] column, [50.0] in a
    [float64] column.  Take a store whose [buy_price] column is
    [float64] and a file with integer prices.  The first upload appends
    the row of the file, and [pd.concat] keeps the column [float64]; the
    second upload prints the same six fields of the stored row and of
    the row of the file differently, finds no duplicate and appends the
    row again. *)
Theorem reupload_appends_again (unicode_normalize : string -> string) :
  let upload := upload_trades unicode_normalize file_integer_prices in
  let once := snd (upload store_float_prices) in
  let twice := snd (upload once) in
  fst (upload store_float_prices) = (true, SuccessfullyUploaded 1)
  /\ fst (upload once) = (true, SuccessfullyUploaded 1)
  /\ map stock (trades_df once) = ["MSTR"; "COIN"]
  /\ map stock (trades_df twice) = ["MSTR"; "COIN"; "COIN"]
  /\ twice <> once
  /\ (forall stored new,
         trades_df twice !! 1%nat = Some stored ->
         trades_df twice !! 2%nat = Some new ->
         (buy_date stored, sell_date stored, stock stored,
          buy_price stored, sell_price stored, quantity stored)
         = (buy_date new, sell_date new, stock new,
            buy_price new, sell_price new, quantity new)
         /\ trade_signature (trades_dtypes once) stored
            <> trade_signature (file_dtypes (file_rows file_integer_prices))
                               new).
Proof.
  cbv zeta.
  split; [vm_compute; reflexivity |].
  split; [vm_compute; reflexivity |].
  split; [vm_compute; reflexivity |].
  split; [vm_compute; reflexivity |].
  split.
  - intros Heq.
    assert (length (trades_df
                      (snd (upload_trades unicode_normalize
                              file_integer_prices
                              (snd (upload_trades unicode_normalize
                                      file_integer_prices
                                      store_float_prices)))))
            = length (trades_df
                        (snd (upload_trades unicode_normalize
                                file_integer_prices store_float_prices))))
      as Hlen by now rewrite Heq.
    vm_compute in Hlen. discriminate.
  - intros stored new Hs Hn. vm_compute in Hs, Hn.
    injection Hs as <-. injection Hn as <-.
    split; [reflexivity |]. vm_compute. discriminate.
Qed.

(** * Further properties of the data manager *)

(** ** Sums *)

Lemma fold_left_Qplus_acc (l : list Q) :
  forall acc, fold_left Qplus l acc == acc + fold_left Qplus l 0.
Proof.
  induction l as [| x l IH]; intros acc; simpl.
  - ring.
  - rewrite (IH (acc + x)), (IH (0 + x)). ring.
Qed.

Lemma sum_cons (x : Q) (l : list Q) : Num.sum (x :: l) == x + Num.sum l.
Proof. unfold Num.sum. simpl. rewrite fold_left_Qplus_acc. ring. Qed.

Lemma sum_app (l1 l2 : list Q) :
  Num.sum (l1 ++ l2) == Num.sum l1 + Num.sum l2.
Proof.
  induction l1 as [| x l1 IH]; simpl.
  - unfold Num.sum at 2. simpl. ring.
  - rewrite !sum_cons, IH. ring.
Qed.

Lemma sum_singleton (x : Q) : Num.sum [x] == x.
Proof. unfold Num.sum. simpl. ring. Qed.

(** ** Capital overrides *)

Section OverrideFacts.

Variable month_year : Z.
Variable capital_amount : Q.

(** The update [set_monthly_capital] applies to the rows of the month. *)
Let upd (r : MonthlyCapital) : MonthlyCapital :=
  if decide (in_month month_year r)
  then mkMonthlyCapital (month r) capital_amount (capital_notes r) (capital_client_id r)
  else r.

Lemma upd_month (r : MonthlyCapital) : month (upd r) = month r.
Proof. unfold upd. case_decide; reflexivity. Qed.

(** Rewriting the amounts keeps every row in its month. *)
Lemma filter_month_map_upd (p : Z) (df : list MonthlyCapital) :
  filter (fun r => to_period_M (month r) = p) (map upd df)
  = map upd (filter (fun r => to_period_M (month r) = p) df).
Proof.
  induction df as [| r df IH]; [reflexivity |]. simpl.
  destruct (decide (to_period_M (month r) = p)) as [Hr | Hr].
  - rewrite !filter_cons_True; [| exact Hr | now rewrite upd_month].
    simpl. now rewrite IH.
  - rewrite !filter_cons_False; [exact IH | exact Hr | now rewrite upd_month].
Qed.

Lemma map_upd_id (df : list MonthlyCapital) :
  (forall r, r ∈ df -> ~ in_month month_year r) -> map upd df = df.
Proof.
  induction df as [| r df IH]; intros Hall; [reflexivity |]. simpl.
  rewrite IH by (intros r' Hr'; apply Hall; now right).
  unfold upd. rewrite decide_False by (apply Hall; left). reflexivity.
Qed.

End OverrideFacts.

(** Neither writing nor deleting an override touches what the default
    capital is computed from. *)
Lemma default_capital_ignores_overrides (period_of : Date -> Z) (p : Z)
    (self : TradingDataManager) (df : list MonthlyCapital) :
  default_capital period_of p (set_monthly_capital_df self df)
  = default_capital period_of p self.
Proof. reflexivity. Qed.

(** Reading the capital of a date after an override has been written. *)
Lemma get_monthly_capital_after_set (month_year : Z) (capital_amount : Q)
    (self : TradingDataManager) (d : Date) :
  get_monthly_capital d (snd (set_monthly_capital month_year capital_amount self))
  = if decide (to_period_M d = month_year) then capital_amount
    else get_monthly_capital d self.
Proof.
  unfold get_monthly_capital, capital_for, set_monthly_capital.
  pose proof (to_period_M_month_start month_year) as Hp.
  assert (forall df : list MonthlyCapital,
             filter (in_month month_year) df
             = filter (fun r => to_period_M (month r) = month_year) df)
    as Hin.
  { intros df. apply list_filter_iff. intros r. unfold in_month.
    now rewrite Hp. }
  rewrite Hin.
  destruct (filter (fun r => to_period_M (month r) = month_year)
                   (monthly_capital_df self)) as [| r0 rs] eqn:Ef; simpl.
  - rewrite filter_app.
    case_decide as Hd.
    + rewrite Hd, Ef. simpl.
      rewrite filter_cons_True by exact Hp. reflexivity.
    + rewrite (filter_cons_False _ (mkMonthlyCapital _ _ _ _)) by
        (simpl; rewrite Hp; congruence).
      rewrite filter_nil, app_nil_r. reflexivity.
  - rewrite (filter_month_map_upd month_year capital_amount).
    case_decide as Hd.
    + rewrite Hd, Ef. simpl.
      assert (in_month month_year r0) as Hr0.
      { unfold in_month. rewrite Hp.
        assert (r0 ∈ filter (fun r => to_period_M (month r) = month_year)
                         (monthly_capital_df self)) as H0
            by (rewrite Ef; left).
        now apply list_elem_of_filter in H0 as [H0 _]. }
      rewrite decide_True by exact Hr0. reflexivity.
    + rewrite map_upd_id; [reflexivity |].
      intros r Hr. apply list_elem_of_filter in Hr as [Hr _].
      unfold in_month. rewrite Hp. congruence.
Qed.

(** Reading the capital of a date after an override has been deleted. *)
Lemma get_monthly_capital_after_delete (month_year : Z)
    (self : TradingDataManager) (d : Date) :
  get_monthly_capital d (snd (delete_monthly_capital month_year self))
  = if decide (to_period_M d = month_year)
    then default_capital to_period_M month_year self
    else get_monthly_capital d self.
Proof.
  unfold get_monthly_capital, capital_for, delete_monthly_capital.
  pose proof (to_period_M_month_start month_year) as Hp. simpl.
  rewrite list_filter_filter.
  case_decide as Hd.
  - rewrite filter_none; [now rewrite Hd |].
    intros r _ [Hr Hnot]. apply Hnot. unfold in_month. congruence.
  - rewrite (list_filter_iff _
               (fun r => to_period_M (month r) = to_period_M d));
      [reflexivity |].
    intros r. unfold in_month. rewrite Hp. split; [tauto |].
    intros Hr. split; [exact Hr | congruence].
Qed.

(** X1.  [set_monthly_capital] is an upsert by calendar month.  It
    reports success; afterwards [get_monthly_capital] returns the amount
    just set for every date of that month and what it returned before for
    every date of another month; trades, clients, movements and the
    configuration are left as they were. *)
Theorem set_monthly_capital_upsert (month_year : Z) (capital_amount : Q)
    (self : TradingDataManager) :
  let self' := snd (set_monthly_capital month_year capital_amount self) in
  fst (set_monthly_capital month_year capital_amount self) = true
  /\ (forall d,
         get_monthly_capital d self'
         = if decide (to_period_M d = month_year) then capital_amount
           else get_monthly_capital d self)
  /\ trades_df self' = trades_df self
  /\ clients_df self' = clients_df self
  /\ capital_movements_df self' = capital_movements_df self
  /\ config self' = config self.
Proof.
  split; [| split].
  - unfold set_monthly_capital. now destruct (filter _ _).
  - intros d. apply get_monthly_capital_after_set.
  - unfold set_monthly_capital. destruct (filter _ _); repeat split.
Qed.

(** X2.  [delete_monthly_capital] makes the month fall back to the
    aggregate default (all clients' starting capital plus the net
    movements up to that month), whatever amount had been set for it, and
    leaves every other month alone. *)
Theorem delete_monthly_capital_reverts (month_year : Z) (capital_amount : Q)
    (self : TradingDataManager) (d : Date) :
  get_monthly_capital d (snd (delete_monthly_capital month_year self))
  = (if decide (to_period_M d = month_year)
     then default_capital to_period_M month_year self
     else get_monthly_capital d self)
  /\ get_monthly_capital d
       (snd (delete_monthly_capital month_year
               (snd (set_monthly_capital month_year capital_amount self))))
     = get_monthly_capital d (snd (delete_monthly_capital month_year self)).
Proof.
  split; [apply get_monthly_capital_after_delete |].
  rewrite !get_monthly_capital_after_delete.
  case_decide as Hd.
  - unfold set_monthly_capital. now destruct (filter _ _).
  - rewrite get_monthly_capital_after_set. now rewrite decide_False.
Qed.

Lemma NoDup_map_filter {A B : Type} (f : A -> B) (P : A -> Prop)
    `{forall x, Decision (P x)} (l : list A) :
  NoDup (map f l) -> NoDup (map f (filter P l)).
Proof.
  induction l as [| x l IH]; simpl; intros Hnd; [constructor |].
  apply NoDup_cons in Hnd as [Hx Hnd].
  destruct (decide (P x)) as [Hp | Hp].
  - rewrite filter_cons_True by exact Hp. simpl.
    apply NoDup_cons. split; [| now apply IH].
    intros Hin. apply Hx. apply elem_of_map in Hin as (y & Hy & Hyl).
    apply elem_of_map. exists y. split; [exact Hy |].
    now apply list_elem_of_filter in Hyl as [_ Hyl].
  - rewrite filter_cons_False by exact Hp. now apply IH.
Qed.

(** X3.  Writing and deleting overrides keep the table at one row per
    calendar month at most; setting an amount for a month that has a row
    does not add a row. *)
Theorem overrides_stay_unique (month_year : Z) (capital_amount : Q)
    (self : TradingDataManager) :
  (months_unique self ->
   months_unique (snd (set_monthly_capital month_year capital_amount self))
   /\ months_unique (snd (delete_monthly_capital month_year self)))
  /\ length (monthly_capital_df
               (snd (set_monthly_capital month_year capital_amount
                       (snd (set_monthly_capital month_year capital_amount
                               self)))))
     = length (monthly_capital_df
                 (snd (set_monthly_capital month_year capital_amount self))).
Proof.
  unfold months_unique.
  pose proof (to_period_M_month_start month_year) as Hp.
  assert (forall (c : Q) (df : list MonthlyCapital),
             map (fun r => to_period_M (month r))
                 (map (fun r =>
                         if decide (in_month month_year r)
                         then mkMonthlyCapital (month r) c (capital_notes r)
                                               (capital_client_id r)
                         else r) df)
             = map (fun r => to_period_M (month r)) df) as Hmap.
  { intros c df. rewrite map_map. apply map_ext. intros r.
    case_decide; reflexivity. }
  split; [intros Hnd; split |].
  - unfold set_monthly_capital.
    destruct (filter (in_month month_year) (monthly_capital_df self))
      as [| r0 rs] eqn:Ef; simpl.
    + rewrite map_app. apply NoDup_app. split; [exact Hnd |]. split.
      * intros k Hk Hk'. simpl in Hk'.
        apply list_elem_of_singleton in Hk' as ->.
        apply elem_of_map in Hk as (r & Hr & Hrl).
        assert (r ∈ filter (in_month month_year) (monthly_capital_df self))
          as Hin by (apply list_elem_of_filter; split;
                     [unfold in_month; congruence | exact Hrl]).
        rewrite Ef in Hin. inversion Hin.
      * simpl. apply NoDup_singleton.
    + now rewrite Hmap.
  - unfold delete_monthly_capital. simpl. now apply NoDup_map_filter.
  - unfold set_monthly_capital.
    destruct (filter (in_month month_year) (monthly_capital_df self))
      as [| r0 rs] eqn:Ef; simpl.
    + rewrite filter_app, Ef. simpl.
      rewrite filter_cons_True by (unfold in_month; reflexivity).
      simpl. now rewrite length_map.
    + assert (exists r1 rs1,
                 filter (in_month month_year)
                   (map (fun r =>
                           if decide (in_month month_year r)
                           then mkMonthlyCapital (month r) capital_amount
                                                 (capital_notes r)
                                                 (capital_client_id r)
                           else r) (monthly_capital_df self))
                 = r1 :: rs1) as (r1 & rs1 & ->).
      { assert (r0 ∈ monthly_capital_df self /\ in_month month_year r0)
          as [Hr0 Hin0].
        { assert (r0 ∈ filter (in_month month_year)
                          (monthly_capital_df self)) as H0
              by (rewrite Ef; left).
          apply list_elem_of_filter in H0. tauto. }
        set (f := fun r => if decide (in_month month_year r)
                           then mkMonthlyCapital (month r) capital_amount
                                                 (capital_notes r)
                                                 (capital_client_id r)
                           else r).
        destruct (filter (in_month month_year)
                         (map f (monthly_capital_df self)))
          as [| r1 rs1] eqn:E1; [| eauto].
        exfalso.
        assert (f r0 ∈ filter (in_month month_year)
                         (map f (monthly_capital_df self))) as H1.
        { apply list_elem_of_filter. split.
          - unfold f. rewrite decide_True by exact Hin0. exact Hin0.
          - apply elem_of_map. eauto. }
        rewrite E1 in H1. inversion H1. }
      simpl. now rewrite !length_map.
Qed.

Lemma overrides_stay_unique_witness :
  months_unique (snd (set_monthly_capital june_2025 20000 store_with_override))
  /\ months_unique (snd (delete_monthly_capital june_2025 store_with_override)).
Proof.
  destruct (overrides_stay_unique june_2025 20000 store_with_override)
    as (Huniq & _).
  apply Huniq. unfold months_unique. simpl. apply NoDup_singleton.
Defined.

(** ** Rows of a frame *)

Lemma insert_key_elem (k x : Z) (keys : list Z) :
  x ∈ insert_key k keys <-> x = k \/ x ∈ keys.
Proof.
  induction keys as [| h t IH]; simpl.
  - rewrite list_elem_of_singleton. split; [tauto |].
    intros [H | H]; [exact H | inversion H].
  - destruct (k <? h)%Z eqn:Hlt.
    + rewrite elem_of_cons. tauto.
    + destruct (k =? h)%Z eqn:Heq.
      * apply Z.eqb_eq in Heq as ->. rewrite elem_of_cons. tauto.
      * rewrite !elem_of_cons, IH. tauto.
Qed.

Lemma group_keys_elem (x : Z) (keys : list Z) :
  x ∈ group_keys keys <-> x ∈ keys.
Proof.
  unfold group_keys. induction keys as [| k keys IH]; simpl.
  - tauto.
  - rewrite insert_key_elem, IH, elem_of_cons. tauto.
Qed.

(** The running sum rewrites [Cumulative_Return] only. *)
Lemma cumsum_elem (rows : list PeriodStats) :
  forall acc r,
    r ∈ cumsum acc rows -> exists r0, r0 ∈ rows /\ same_stats r r0.
Proof.
  induction rows as [| r0 rows IH]; intros acc r Hr; simpl in Hr.
  - inversion Hr.
  - apply elem_of_cons in Hr as [-> | Hr].
    + exists r0. split; [left | repeat split].
    + destruct (IH _ _ Hr) as (r1 & Hr1 & Hs). exists r1.
      split; [now right | exact Hs].
Qed.

Section FrameFacts.

Variable period_of : Date -> Z.
Variable capital : Z -> Q.

(** What a row of a frame holds: the trades of one period that has
    trades, their count and P&L, the capital looked up for the period and
    the guarded quotient of the two. *)
Lemma strategy_returns_row (cid : option string) (self : TradingDataManager)
    (r : PeriodStats) :
  r ∈ strategy_returns period_of capital cid self ->
  let group :=
    filter (fun t => period_of (sell_date t) = Period r)
           (trades_for_client cid self) in
  group <> []
  /\ Total_PL r = Num.sum (map profit_loss group)
  /\ Total_Trades r = length group
  /\ Winning_Trades r = length (filter (fun t => win_loss t = "Win") group)
  /\ Client_Capital r = capital (Period r)
  /\ Return_Pct r
     = Num.finite_value (return_pct_column (Total_PL r) (capital (Period r))).
Proof.
  unfold strategy_returns.
  destruct (trades_df self) as [| t0 ts0]; [inversion 1 |].
  destruct (trades_for_client cid self) as [| t ts] eqn:Et; [inversion 1 |].
  intros Hr.
  apply cumsum_elem in Hr as (r0 & Hr0 & Hp & Hpl & Hn & Hw & _ & Hc & Hret).
  apply elem_of_map in Hr0 as (k & -> & Hk).
  apply group_keys_elem, elem_of_map in Hk as (u & Hu & Hin).
  simpl in *. rewrite Hp, Hpl, Hn, Hw, Hc, Hret.
  split.
  - intros Hnil.
    assert (u ∈ filter (fun t0 => period_of (sell_date t0) = k) (t :: ts))
      as Hmem by (apply list_elem_of_filter; split; [now symmetry | exact Hin]).
    rewrite Hnil in Hmem. inversion Hmem.
  - repeat split.
Qed.

End FrameFacts.

(** The client filter does not read the override table. *)
Lemma trades_for_client_overrides (cid : option string)
    (self : TradingDataManager) (df : list MonthlyCapital) :
  trades_for_client cid (set_monthly_capital_df self df)
  = trades_for_client cid self.
Proof. reflexivity. Qed.

(** X4.  Override precedence.  After [set_monthly_capital] for a month,
    the row of that month in the monthly frame has the amount set as its
    capital denominator, and its return is the guarded quotient of the
    month's P&L, computed from the same trades as before, and that
    amount; the trade store is not altered.  After
    [delete_monthly_capital] the row's denominator is the aggregate
    default again. *)
Theorem override_precedence (cid : option string) (month_year : Z)
    (capital_amount : Q) (self : TradingDataManager) (r : PeriodStats) :
  Period r = month_year ->
  let group :=
    filter (fun t => to_period_M (sell_date t) = month_year)
           (trades_for_client cid self) in
  (r ∈ get_monthly_strategy_returns cid
         (snd (set_monthly_capital month_year capital_amount self)) ->
   Total_PL r = Num.sum (map profit_loss group)
   /\ Client_Capital r = capital_amount
   /\ Return_Pct r
      = Num.finite_value (return_pct_column (Total_PL r) capital_amount)
   /\ trades_df (snd (set_monthly_capital month_year capital_amount self))
      = trades_df self)
  /\ (r ∈ get_monthly_strategy_returns cid
            (snd (delete_monthly_capital month_year self)) ->
      Total_PL r = Num.sum (map profit_loss group)
      /\ Client_Capital r = default_capital to_period_M month_year self).
Proof.
  intros Hp group. split; intros Hr.
  - apply strategy_returns_row in Hr as (_ & Hpl & _ & _ & Hc & Hret).
    assert (trades_for_client cid
              (snd (set_monthly_capital month_year capital_amount self))
            = trades_for_client cid self
            /\ trades_df
                 (snd (set_monthly_capital month_year capital_amount self))
               = trades_df self) as [Htr Hdf].
    { unfold set_monthly_capital.
      destruct (filter _ (monthly_capital_df self)); split; reflexivity. }
    rewrite Htr, Hp in Hpl.
    rewrite get_monthly_capital_after_set, to_period_M_month_start, Hp in Hc, Hret.
    rewrite decide_True in Hc, Hret by reflexivity.
    repeat split; assumption.
  - apply strategy_returns_row in Hr as (_ & Hpl & _ & _ & Hc & _).
    rewrite Hp in Hpl.
    rewrite get_monthly_capital_after_delete, to_period_M_month_start, Hp in Hc.
    rewrite decide_True in Hc by reflexivity.
    split; assumption.
Qed.

Lemma override_precedence_witness :
  exists r,
    r ∈ get_monthly_strategy_returns None
          (snd (set_monthly_capital june_2025 20000 store_one_period))
    /\ Total_PL r == 1000
    /\ Client_Capital r = 20000
    /\ Return_Pct r = 5.
Proof.
  destruct (get_monthly_strategy_returns None
              (snd (set_monthly_capital june_2025 20000 store_one_period))
              !! 0%nat) as [r |] eqn:E; [| vm_compute in E; discriminate].
  assert (r ∈ get_monthly_strategy_returns None
                (snd (set_monthly_capital june_2025 20000 store_one_period)))
    as Hin by (eapply list_elem_of_lookup_2; exact E).
  assert (Period r = june_2025 /\ Total_PL r == 1000 /\ Return_Pct r = 5)
    as (Hp & Hpl & Hret).
  { vm_compute in E. injection E as <-. repeat split. }
  destruct (proj1 (override_precedence None june_2025 20000
                     store_one_period r Hp) Hin) as (_ & Hc & _).
  exists r. repeat split; assumption.
Defined.

(** X5.  [get_biweekly_capital] uses an override row only when the date
    stored with the row falls in the week of the period asked for, and
    then returns its amount as stored (the first such row); for any other
    period it returns all clients' starting capital plus contributions
    minus withdrawals over the movements of all clients dated in that
    week or an earlier one. *)
Theorem biweekly_capital_priority (period : Z) (self : TradingDataManager) :
  (forall l1 r l2,
      monthly_capital_df self = l1 ++ r :: l2 ->
      (forall o, o ∈ l1 -> to_period_2W (month o) <> period) ->
      to_period_2W (month r) = period ->
      get_biweekly_capital period self = total_capital r)
  /\ ((forall o, o ∈ monthly_capital_df self ->
                 to_period_2W (month o) <> period) ->
      let up_to_period :=
        filter (fun mv => (to_period_2W (movement_date mv) <= period)%Z)
               (capital_movements_df self) in
      get_biweekly_capital period self
      == Num.sum (map starting_capital (clients_df self))
         + (contribution_sum up_to_period - withdrawal_sum up_to_period)).
Proof.
  unfold get_biweekly_capital, capital_for. split.
  - intros l1 r l2 Hdf Hl1 Hr.
    rewrite Hdf, (filter_first (fun o => to_period_2W (month o) = period));
      [reflexivity | exact Hl1 | exact Hr].
  - intros Hnone.
    rewrite (filter_none (fun o => to_period_2W (month o) = period));
      [| exact Hnone].
    unfold default_capital.
    destruct (capital_movements_df self) as [| mv mvs]; [| reflexivity].
    change (contribution_sum (filter _ [])) with 0.
    change (withdrawal_sum (filter _ [])) with 0.
    ring.
Qed.

(** An override written for June 2025 is stored under 2025-06-01, a
    Sunday: it is used for the week ending that day and for no other week
    of June. *)
Lemma biweekly_capital_priority_witness :
  get_biweekly_capital (to_period_2W (mkDate 2025 6 1)) store_with_override
  = 50000
  /\ get_biweekly_capital (to_period_2W (mkDate 2025 6 10)) store_with_override
     == 17000.
Proof.
  split.
  - apply (proj1 (biweekly_capital_priority _ store_with_override)
                 [] (mkMonthlyCapital (mkDate 2025 6 1) 50000 "" None) []).
    + reflexivity.
    + intros o Ho. inversion Ho.
    + reflexivity.
  - rewrite (proj2 (biweekly_capital_priority _ store_with_override)).
    + vm_compute. reflexivity.
    + intros o Ho. apply list_elem_of_singleton in Ho as ->.
      vm_compute. discriminate.
Defined.

(** ** Capital movements *)

Lemma contribution_sum_app (l1 l2 : list CapitalMovement) :
  contribution_sum (l1 ++ l2) == contribution_sum l1 + contribution_sum l2.
Proof. unfold contribution_sum. now rewrite filter_app, map_app, sum_app. Qed.

Lemma withdrawal_sum_app (l1 l2 : list CapitalMovement) :
  withdrawal_sum (l1 ++ l2) == withdrawal_sum l1 + withdrawal_sum l2.
Proof. unfold withdrawal_sum. now rewrite filter_app, map_app, sum_app. Qed.

(** The net of a single movement. *)
Lemma single_movement_net (m : CapitalMovement) :
  contribution_sum [m] - withdrawal_sum [m]
  == signed_amount (movement_type m) (amount m).
Proof.
  unfold contribution_sum, withdrawal_sum, signed_amount.
  unfold is_contribution, is_withdrawal.
  destruct (decide (movement_type m = "contribution")) as [Hc | Hc].
  - rewrite filter_cons_True by exact Hc.
    rewrite filter_cons_False by (rewrite Hc; discriminate).
    rewrite !filter_nil. cbn [map]. rewrite sum_singleton.
    change (Num.sum []) with 0. ring.
  - rewrite filter_cons_False by exact Hc.
    destruct (decide (movement_type m = "withdrawal")) as [Hw | Hw].
    + rewrite filter_cons_True by exact Hw.
      rewrite !filter_nil. cbn [map]. rewrite sum_singleton.
      change (Num.sum []) with 0. ring.
    + rewrite filter_cons_False by exact Hw.
      rewrite !filter_nil. cbn [map]. change (Num.sum []) with 0. ring.
Qed.

(** The default capital, whether or not the movement log is empty. *)
Lemma default_capital_value (period_of : Date -> Z) (p : Z)
    (self : TradingDataManager) :
  let up_to :=
    filter (fun m => (period_of (movement_date m) <= p)%Z)
           (capital_movements_df self) in
  default_capital period_of p self
  == Num.sum (map starting_capital (clients_df self))
     + (contribution_sum up_to - withdrawal_sum up_to).
Proof.
  unfold default_capital.
  destruct (capital_movements_df self) as [| m ms]; [| reflexivity].
  cbv zeta. change (contribution_sum (filter _ [])) with 0.
  change (withdrawal_sum (filter _ [])) with 0. ring.
Qed.

Lemma default_capital_after_movement (period_of : Date -> Z) (p : Z)
    (self : TradingDataManager) (m : CapitalMovement) :
  default_capital period_of p
    (set_capital_movements self (capital_movements_df self ++ [m]))
  == default_capital period_of p self
     + (if decide (period_of (movement_date m) <= p)%Z
        then signed_amount (movement_type m) (amount m) else 0).
Proof.
  rewrite !default_capital_value. simpl.
  rewrite filter_app, contribution_sum_app, withdrawal_sum_app.
  case_decide as Hm.
  - rewrite (filter_cons_True _ m) by exact Hm. rewrite filter_nil.
    rewrite <- single_movement_net. ring.
  - rewrite (filter_cons_False _ m) by exact Hm. rewrite filter_nil.
    change (contribution_sum []) with 0. change (withdrawal_sum []) with 0.
    ring.
Qed.

(** X6.  [add_capital_movement] and the pooled capital of a month.  Where
    an override exists for the month the capital stays the override.
    Elsewhere a movement dated in that month or before adds its amount
    when it is a contribution, subtracts it when it is a withdrawal and
    changes nothing when it has any other type; a movement dated in a
    later month changes nothing. *)
Theorem movement_changes_pooled_capital (client kind : string) (value : Q)
    (date : Date) (note : string) (self : TradingDataManager) (d : Date) :
  let self' :=
    snd (add_capital_movement client kind value date note self) in
  ((exists o, o ∈ monthly_capital_df self
              /\ to_period_M (month o) = to_period_M d) ->
   get_monthly_capital d self' = get_monthly_capital d self)
  /\ ((forall o, o ∈ monthly_capital_df self ->
                 to_period_M (month o) <> to_period_M d) ->
      get_monthly_capital d self'
      == get_monthly_capital d self
         + (if decide (to_period_M date <= to_period_M d)%Z
            then signed_amount kind value else 0)).
Proof.
  unfold get_monthly_capital, capital_for, add_capital_movement. simpl.
  split.
  - intros (o & Ho & Hp).
    destruct (filter (fun r => to_period_M (month r) = to_period_M d)
                     (monthly_capital_df self)) as [| r rs] eqn:Ef;
      [| reflexivity].
    assert (o ∈ filter (fun r => to_period_M (month r) = to_period_M d)
                    (monthly_capital_df self)) as Hin
        by (apply list_elem_of_filter; split; assumption).
    rewrite Ef in Hin. inversion Hin.
  - intros Hnone.
    rewrite (filter_none (fun o => to_period_M (month o) = to_period_M d))
      by exact Hnone.
    apply (default_capital_after_movement to_period_M (to_period_M d) self
             (mkMovement _ client date kind value note)).
Qed.

Lemma movement_changes_pooled_capital_witness :
  get_monthly_capital (mkDate 2025 6 30)
    (snd (add_capital_movement "alice" "withdrawal" 300 (mkDate 2025 6 5) ""
            store_one_period))
  == get_monthly_capital (mkDate 2025 6 30) store_one_period + - 300
  /\ get_monthly_capital (mkDate 2025 6 30)
       (snd (add_capital_movement "alice" "withdrawal" 300 (mkDate 2025 6 5)
               "" store_with_override))
     = get_monthly_capital (mkDate 2025 6 30) store_with_override.
Proof.
  split.
  - apply (proj2 (movement_changes_pooled_capital "alice" "withdrawal" 300
                    (mkDate 2025 6 5) "" store_one_period (mkDate 2025 6 30))).
    intros o Ho. inversion Ho.
  - apply (proj1 (movement_changes_pooled_capital "alice" "withdrawal" 300
                    (mkDate 2025 6 5) "" store_with_override
                    (mkDate 2025 6 30))).
    exists (mkMonthlyCapital (mkDate 2025 6 1) 50000 "" None).
    split; [left | reflexivity].
Defined.

(** ** Which clients have a ledger *)

(** A client of the directory always gets a ledger. *)
Lemma flow_is_Some (cid : string) (self : TradingDataManager) (cl : Client)
    (rest : list Client) :
  filter (fun c => client_id c = cid) (clients_df self) = cl :: rest ->
  exists r, get_client_capital_flow cid self = Some r.
Proof.
  intros Hcl. unfold get_client_capital_flow. rewrite Hcl.
  destruct (get_biweekly_strategy_returns (Some cid) self); [eauto |].
  destruct (select_ending _ _ _ _). eauto.
Qed.

(** X7.  [add_capital_movement] and a client's ledger.  Every client that
    had a ledger keeps one, with the same starting capital.  The totals of
    a client other than the movement's are unchanged; for the movement's
    own client a contribution adds its amount to [total_contributions]
    and a withdrawal adds its amount to [total_withdrawals]. *)
Theorem movement_changes_ledger_totals (client kind : string) (value : Q)
    (date : Date) (note : string) (self : TradingDataManager)
    (cid : string) (r : Flow.t) :
  get_client_capital_flow cid self = Some r ->
  exists r',
    get_client_capital_flow cid
      (snd (add_capital_movement client kind value date note self)) = Some r'
    /\ Flow.starting_capital r' = Flow.starting_capital r
    /\ (client <> cid ->
        Flow.total_contributions r' = Flow.total_contributions r
        /\ Flow.total_withdrawals r' = Flow.total_withdrawals r)
    /\ (client = cid ->
        Flow.total_contributions r'
        == Flow.total_contributions r
           + (if decide (kind = "contribution") then value else 0)
        /\ Flow.total_withdrawals r'
           == Flow.total_withdrawals r
              + (if decide (kind = "withdrawal") then value else 0)).
Proof.
  intros Hr.
  apply flow_breakdowns in Hr as (cl & rest & Hcl & Hs & Hc & Hw & _ & _).
  set (self' := snd (add_capital_movement client kind value date note self)).
  assert (filter (fun c => client_id c = cid) (clients_df self') = cl :: rest)
    as Hcl' by exact Hcl.
  destruct (flow_is_Some cid self' cl rest Hcl') as [r' Hr'].
  exists r'. split; [exact Hr' |].
  apply flow_breakdowns in Hr' as (cl' & rest' & Hcl2 & Hs' & Hc' & Hw' & _ & _).
  rewrite Hcl' in Hcl2. injection Hcl2 as <- <-.
  rewrite Hs, Hc, Hw, Hs', Hc', Hw'.
  split; [reflexivity |].
  unfold self', add_capital_movement. simpl. rewrite filter_app.
  split.
  - intros Hne.
    rewrite (filter_cons_False _ (mkMovement _ _ _ _ _ _)) by exact Hne.
    rewrite filter_nil, app_nil_r. split; reflexivity.
  - intros He.
    rewrite (filter_cons_True _ (mkMovement _ _ _ _ _ _)) by exact He.
    rewrite filter_nil, contribution_sum_app, withdrawal_sum_app.
    unfold contribution_sum at 2, withdrawal_sum at 2.
    unfold is_contribution, is_withdrawal.
    split.
    + destruct (decide (kind = "contribution")) as [Hk | Hk].
      * rewrite filter_cons_True by exact Hk. rewrite filter_nil.
        cbn [map amount]. rewrite sum_singleton. reflexivity.
      * rewrite filter_cons_False by exact Hk. rewrite filter_nil.
        cbn [map]. change (Num.sum []) with 0. reflexivity.
    + destruct (decide (kind = "withdrawal")) as [Hk | Hk].
      * rewrite filter_cons_True by exact Hk. rewrite filter_nil.
        cbn [map amount]. rewrite sum_singleton. reflexivity.
      * rewrite filter_cons_False by exact Hk. rewrite filter_nil.
        cbn [map]. change (Num.sum []) with 0. reflexivity.
Qed.

Lemma movement_changes_ledger_totals_witness :
  exists r r',
    get_client_capital_flow "alice" store_one_period = Some r
    /\ get_client_capital_flow "alice"
         (snd (add_capital_movement "alice" "contribution" 2000
                 (mkDate 2025 6 5) "" store_one_period)) = Some r'
    /\ Flow.total_contributions r' == Flow.total_contributions r + 2000.
Proof.
  destruct (get_client_capital_flow "alice" store_one_period) as [r |] eqn:E;
    [| vm_compute in E; discriminate].
  destruct (movement_changes_ledger_totals "alice" "contribution" 2000
              (mkDate 2025 6 5) "" store_one_period "alice" r E)
    as (r' & Hr' & _ & _ & Hown).
  exists r, r'. split; [reflexivity |]. split; [exact Hr' |].
  exact (proj1 (Hown eq_refl)).
Defined.

(** ** The client directory *)

Lemma guarded_filter {A : Type} (P : A -> Prop) `{forall x, Decision (P x)}
    (l : list A) :
  match l with [] => l | _ :: _ => filter P l end = filter P l.
Proof. destruct l; reflexivity. Qed.

Lemma filter_filter_neg {A : Type} (P : A -> Prop)
    `{forall x, Decision (P x)} (l : list A) :
  filter P (filter (fun x => ~ P x) l) = [].
Proof.
  apply filter_none. intros x Hx. now apply list_elem_of_filter in Hx as [Hx _].
Qed.

Lemma filter_idem {A : Type} (P : A -> Prop) `{forall x, Decision (P x)}
    (l : list A) :
  filter P (filter P l) = filter P l.
Proof.
  apply filter_all. intros x Hx. now apply list_elem_of_filter in Hx as [Hx _].
Qed.

(** X8.  After [add_or_update_client] the directory holds exactly one row
    for the client, with the values given (and today's date when no
    investment start date is given); the rows of all other clients are
    the ones that were there, in the same order; and the client has a
    ledger whose starting capital is the one given. *)
Theorem add_or_update_client_row (username name : string) (capital : Q)
    (start : option Date) (is_active : bool) (today : Date)
    (self : TradingDataManager) :
  let self' :=
    snd (add_or_update_client username name capital start is_active today
                              self) in
  filter (fun cl => client_id cl = username) (clients_df self')
  = [mkClient username name capital (Some (default today start)) is_active]
  /\ filter (fun cl => client_id cl <> username) (clients_df self')
     = filter (fun cl => client_id cl <> username) (clients_df self)
  /\ exists r,
       get_client_capital_flow username self' = Some r
       /\ Flow.starting_capital r = capital.
Proof.
  cbv zeta. unfold add_or_update_client. simpl.
  rewrite (guarded_filter (fun cl => client_id cl <> username)).
  assert (filter (fun cl => client_id cl = username)
            (filter (fun cl => client_id cl <> username) (clients_df self)
             ++ [mkClient username name capital
                          (Some match start with
                                | Some d => d
                                | None => today
                                end) is_active])
          = [mkClient username name capital (Some (default today start))
                      is_active]) as Hrow.
  { rewrite filter_app.
    rewrite (filter_none (fun cl => client_id cl = username)
               (filter _ (clients_df self))).
    - rewrite filter_cons_True by reflexivity.
      destruct start; reflexivity.
    - intros x Hx. now apply list_elem_of_filter in Hx as [Hx _]. }
  split; [exact Hrow |]. split.
  - rewrite filter_app, filter_idem.
    rewrite filter_cons_False by (simpl; tauto).
    now rewrite filter_nil, app_nil_r.
  - set (self' := set_clients self _).
    destruct (flow_is_Some username self' _ [] Hrow) as [r Hr].
    exists r. split; [exact Hr |].
    apply flow_breakdowns in Hr as (cl & rest & Hcl & Hs & _).
    rewrite Hs. unfold self' in Hcl. simpl in Hcl. rewrite Hrow in Hcl.
    now injection Hcl as <- _.
Qed.

(** X9.  The last [add_or_update_client] for a client wins: writing the
    client twice leaves the directory as the second write alone would. *)
Theorem add_or_update_client_last_wins (username : string)
    (name1 name2 : string) (capital1 capital2 : Q)
    (start1 start2 : option Date) (active1 active2 : bool)
    (today1 today2 : Date) (self : TradingDataManager) :
  snd (add_or_update_client username name2 capital2 start2 active2 today2
         (snd (add_or_update_client username name1 capital1 start1 active1
                                    today1 self)))
  = snd (add_or_update_client username name2 capital2 start2 active2 today2
                              self).
Proof.
  unfold add_or_update_client. simpl. unfold set_clients. simpl. f_equal.
  rewrite !(guarded_filter (fun cl => client_id cl <> username)).
  rewrite filter_app, filter_idem.
  rewrite filter_cons_False by (simpl; tauto).
  now rewrite filter_nil, app_nil_r.
Qed.

(** X10.  After [delete_client] the client has no ledger; the directory
    rows and the movements of the client are gone and those of the other
    clients are all kept in order; of the trades and of the capital
    overrides exactly the rows tagged with the client in a [client_id]
    column are gone, so that a store without such tags keeps all its
    trades and overrides; the client's configuration resolves to the
    global one and every other configuration resolves as before. *)
Theorem delete_client_cascade (cid : string) (self : TradingDataManager) :
  let self' := snd (delete_client cid self) in
  get_client_capital_flow cid self' = None
  /\ capital_movements_df self'
     = filter (fun m => movement_client m <> cid) (capital_movements_df self)
  /\ clients_df self'
     = filter (fun cl => client_id cl <> cid) (clients_df self)
  /\ (let own := get_config (config self') (Some cid) in
      let glob := get_config (config self') None in
      cfg_tax_rate own = cfg_tax_rate glob
      /\ cfg_trader_share own = cfg_trader_share glob
      /\ cfg_investor_share own = cfg_investor_share glob)
  /\ (forall c, c <> Some cid ->
                get_config (config self') c = get_config (config self) c)
  /\ trades_df self'
     = filter (fun t => trade_client_id t <> Some cid) (trades_df self)
  /\ monthly_capital_df self'
     = filter (fun r => capital_client_id r <> Some cid)
              (monthly_capital_df self)
  /\ ((forall t, t ∈ trades_df self -> trade_client_id t <> Some cid) ->
      trades_df self' = trades_df self)
  /\ ((forall r, r ∈ monthly_capital_df self ->
                 capital_client_id r <> Some cid) ->
      monthly_capital_df self' = monthly_capital_df self).
Proof.
  cbv zeta. unfold delete_client. simpl.
  rewrite (guarded_filter (fun cl => client_id cl <> cid)).
  rewrite (guarded_filter (fun m => movement_client m <> cid)).
  rewrite (guarded_filter (fun t => trade_client_id t <> Some cid)).
  rewrite (guarded_filter (fun r => capital_client_id r <> Some cid)).
  split; [| split; [reflexivity | split; [reflexivity |]]].
  - unfold get_client_capital_flow. simpl.
    now rewrite (filter_filter_neg (fun cl => client_id cl = cid)).
  - assert (clients
              match clients (config self) !! cid with
              | Some _ =>
                  mkConfig (global (config self))
                           (delete cid (clients (config self)))
              | None => config self
              end !! cid = None) as Hgone.
    { destruct (clients (config self) !! cid) eqn:E; simpl;
        [apply lookup_delete_eq | exact E]. }
    split; [| split; [| split; [reflexivity | split; [reflexivity |]]]].
    + rewrite Hgone. simpl. repeat split.
    + intros [c |] Hc; simpl.
      * assert (c <> cid) as Hne by congruence.
        destruct (clients (config self) !! cid) eqn:E; simpl;
          [| reflexivity].
        now rewrite lookup_delete_ne.
      * destruct (clients (config self) !! cid); reflexivity.
    + split; intros Hall; now apply filter_all.
Qed.

(** A trade tagged with the client goes, an untagged one and one of
    another client stay. *)
Lemma delete_client_cascade_witness :
  map trade_id (trades_df (snd (delete_client "alice" store_tagged_trades)))
  = ["T2"; "T3"]
  /\ get_client_capital_flow "alice"
       (snd (delete_client "alice" store_tagged_trades)) = None
  /\ trades_df (snd (delete_client "alice" store_two_periods))
     = trades_df store_two_periods.
Proof.
  destruct (delete_client_cascade "alice" store_tagged_trades)
    as (Hflow & _ & _ & _ & _ & Htrades & _).
  destruct (delete_client_cascade "alice" store_two_periods)
    as (_ & _ & _ & _ & _ & _ & _ & Hkeep & _).
  split; [rewrite Htrades; vm_compute; reflexivity |].
  split; [exact Hflow |].
  apply Hkeep. intros t Ht.
  repeat (apply elem_of_cons in Ht as [-> | Ht]; [discriminate |]).
  inversion Ht.
Defined.

(** X11.  Creating a client the store does not know, one with no
    directory row, no movement, no configuration section and no trade or
    capital override tagged with its name, and deleting it again gives
    the store back as it was. *)
Theorem delete_after_add_restores (username name : string) (capital : Q)
    (start : option Date) (is_active : bool) (today : Date)
    (self : TradingDataManager) :
  (forall cl, cl ∈ clients_df self -> client_id cl <> username) ->
  (forall m, m ∈ capital_movements_df self -> movement_client m <> username) ->
  (forall t, t ∈ trades_df self -> trade_client_id t <> Some username) ->
  (forall r, r ∈ monthly_capital_df self ->
             capital_client_id r <> Some username) ->
  clients (config self) !! username = None ->
  snd (delete_client username
         (snd (add_or_update_client username name capital start is_active
                                    today self)))
  = self.
Proof.
  intros Hcl Hmv Htr Hmc Hcfg.
  unfold delete_client, add_or_update_client. simpl. rewrite Hcfg.
  rewrite !(guarded_filter (fun cl => client_id cl <> username)).
  rewrite (guarded_filter (fun m => movement_client m <> username)).
  rewrite (guarded_filter (fun t => trade_client_id t <> Some username)).
  rewrite (guarded_filter (fun r => capital_client_id r <> Some username)).
  rewrite filter_app, filter_idem.
  rewrite filter_cons_False by (simpl; tauto).
  rewrite filter_nil, app_nil_r.
  rewrite (filter_all (fun cl => client_id cl <> username)) by exact Hcl.
  rewrite (filter_all (fun m => movement_client m <> username)) by exact Hmv.
  rewrite (filter_all (fun t => trade_client_id t <> Some username))
    by exact Htr.
  rewrite (filter_all (fun r => capital_client_id r <> Some username))
    by exact Hmc.
  now destruct self.
Qed.

Lemma delete_after_add_restores_witness :
  snd (delete_client "erin"
         (snd (add_or_update_client "erin" "Erin" 7000 None true
                 (mkDate 2025 9 1) store_with_override)))
  = store_with_override.
Proof.
  apply delete_after_add_restores.
  - intros cl Hcl. repeat (apply elem_of_cons in Hcl as [-> | Hcl];
                           [discriminate |]). inversion Hcl.
  - intros m Hm. repeat (apply elem_of_cons in Hm as [-> | Hm];
                         [discriminate |]). inversion Hm.
  - intros t Ht. repeat (apply elem_of_cons in Ht as [-> | Ht];
                         [discriminate |]). inversion Ht.
  - intros r Hr. repeat (apply elem_of_cons in Hr as [-> | Hr];
                         [discriminate |]). inversion Hr.
  - reflexivity.
Defined.

(** ** Synchronising the directory with the users *)

Lemma sync_store (users : list (string * UserInfo)) (today : Date)
    (self : TradingDataManager) :
  let rows := client_rows_of_users today users in
  snd (sync_clients_from_users (Some users) today self)
  = match rows with
    | [] => self
    | _ :: _ =>
        set_clients self
          (filter (fun cl => client_id cl ∉ map client_id rows)
                  (clients_df self) ++ rows)
    end.
Proof.
  cbv zeta. unfold sync_clients_from_users. fold (client_rows_of_users today users).
  destruct (client_rows_of_users today users) as [| row rows]; [reflexivity |].
  simpl. now rewrite (guarded_filter (fun cl => client_id cl ∉ _)).
Qed.

(** X12.  [sync_clients_from_users] is idempotent, as its docstring says:
    run twice on the same [users.json] on the same day, it leaves the
    directory as the first run left it.  Without a [users.json] it
    reports failure and changes nothing. *)
Theorem sync_clients_idempotent (users : option (list (string * UserInfo)))
    (today : Date) (self : TradingDataManager) :
  snd (sync_clients_from_users users today
         (snd (sync_clients_from_users users today self)))
  = snd (sync_clients_from_users users today self)
  /\ (users = None ->
      sync_clients_from_users users today self = (false, self)).
Proof.
  split; [| now intros ->].
  destruct users as [users |]; [| reflexivity].
  rewrite !sync_store. cbv zeta.
  destruct (client_rows_of_users today users) as [| row rows] eqn:E;
    [reflexivity |].
  unfold set_clients. simpl. f_equal.
  rewrite filter_app, filter_idem.
  rewrite (filter_none _ (row :: rows)); [now rewrite app_nil_r |].
  intros cl Hcl Hnot. apply Hnot.
  apply (elem_of_map client_id (row :: rows)). eauto.
Qed.

Lemma rows_of_user (today : Date) (users : list (string * UserInfo))
    (u : string) (info : UserInfo) :
  NoDup (map fst users) ->
  (u, info) ∈ users ->
  u_role info = Some "client" ->
  filter (fun cl => client_id cl = u) (client_rows_of_users today users)
  = [client_row_of_user today u info].
Proof.
  unfold client_rows_of_users.
  induction users as [| [v i] users IH]; intros Hnd Hin Hrole;
    [inversion Hin |].
  simpl in Hnd. apply NoDup_cons in Hnd as [Hv Hnd].
  assert (forall w j, (w, j) ∈ users ->
                      client_id (client_row_of_user today w j) <> v) as Hfresh.
  { intros w j Hw Heq. simpl in Heq. subst w. apply Hv.
    apply elem_of_map. exists (v, j). split; [reflexivity | exact Hw]. }
  apply elem_of_cons in Hin as [Heq | Hin].
  - injection Heq as <- <-.
    rewrite filter_cons_True by exact Hrole. simpl.
    rewrite filter_cons_True by reflexivity. f_equal.
    apply filter_none. intros cl Hcl.
    apply elem_of_map in Hcl as ([w j] & -> & Hw).
    apply list_elem_of_filter in Hw as [_ Hw]. exact (Hfresh w j Hw).
  - assert (u <> v) as Hne.
    { intros ->. apply Hv. apply elem_of_map. exists (v, info).
      split; [reflexivity | exact Hin]. }
    destruct (decide (u_role i = Some "client")) as [Hi | Hi].
    + rewrite filter_cons_True by exact Hi. simpl.
      rewrite filter_cons_False by (simpl; congruence).
      now apply IH.
    + rewrite filter_cons_False by exact Hi. now apply IH.
Qed.

(** X13.  After [sync_clients_from_users] on a [users.json] that has at
    least one client, every user with the role ['client'] has exactly one
    directory row, made of the user's record (name, starting capital 0
    when missing, today's date when the start date is missing or not a
    date, active unless said otherwise); every row of the directory is
    such a row or a row that was there before; and the rows of clients
    that are not client users are all kept. *)
Theorem sync_clients_content (users : list (string * UserInfo))
    (today : Date) (self : TradingDataManager) :
  NoDup (map fst users) ->
  client_rows_of_users today users <> [] ->
  let self' := snd (sync_clients_from_users (Some users) today self) in
  (forall u info,
      (u, info) ∈ users -> u_role info = Some "client" ->
      filter (fun cl => client_id cl = u) (clients_df self')
      = [client_row_of_user today u info])
  /\ (forall cl,
         cl ∈ clients_df self' ->
         cl ∈ clients_df self
         \/ exists u info,
             (u, info) ∈ users /\ u_role info = Some "client"
             /\ cl = client_row_of_user today u info)
  /\ (forall cl,
         cl ∈ clients_df self ->
         (forall u info, (u, info) ∈ users -> u_role info = Some "client" ->
                         client_id cl <> u) ->
         cl ∈ clients_df self').
Proof.
  intros Hnd Hrows. cbv zeta. rewrite sync_store. cbv zeta.
  destruct (client_rows_of_users today users) as [| row rows] eqn:E;
    [congruence |].
  rewrite <- E. simpl.
  assert (forall cl, cl ∈ client_rows_of_users today users ->
                     exists u info,
                       (u, info) ∈ users /\ u_role info = Some "client"
                       /\ cl = client_row_of_user today u info) as Hfrom.
  { intros cl Hcl. unfold client_rows_of_users in Hcl.
    apply elem_of_map in Hcl as ([u info] & -> & Hu).
    apply list_elem_of_filter in Hu as [Hrole Hu]. exists u, info.
    repeat split; assumption. }
  split; [| split].
  - intros u info Hu Hrole. rewrite filter_app.
    rewrite (rows_of_user today users u info Hnd Hu Hrole).
    rewrite filter_none; [reflexivity |].
    intros cl Hcl Hid. apply list_elem_of_filter in Hcl as [Hnot _].
    apply Hnot. apply elem_of_map.
    exists (client_row_of_user today u info). split; [now rewrite Hid |].
    unfold client_rows_of_users. apply elem_of_map. exists (u, info).
    split; [reflexivity |]. apply list_elem_of_filter. split; assumption.
  - intros cl Hcl. apply elem_of_app in Hcl as [Hcl | Hcl].
    + left. now apply list_elem_of_filter in Hcl as [_ Hcl].
    + right. now apply Hfrom.
  - intros cl Hcl Hother. apply elem_of_app. left.
    apply list_elem_of_filter. split; [| exact Hcl].
    intros Hin. apply elem_of_map in Hin as (row' & Hid & Hrow').
    destruct (Hfrom row' Hrow') as (u & info & Hu & Hrole & ->).
    apply (Hother u info Hu Hrole). exact Hid.
Qed.

Lemma sync_clients_content_witness :
  filter (fun cl => client_id cl = "alice")
         (clients_df (snd (sync_clients_from_users (Some sample_users)
                             (mkDate 2025 9 1) store_with_override)))
  = [mkClient "alice" "Alice A." 12000 (Some (mkDate 2025 2 1)) true]
  /\ filter (fun cl => client_id cl = "frank")
            (clients_df (snd (sync_clients_from_users (Some sample_users)
                                (mkDate 2025 9 1) store_with_override)))
     = [mkClient "frank" "" 0 (Some (mkDate 2025 9 1)) true].
Proof.
  assert (NoDup (map fst sample_users)) as Hnd.
  { apply NoDup_ListNoDup. repeat constructor; simpl; intuition discriminate. }
  assert (client_rows_of_users (mkDate 2025 9 1) sample_users <> [])
    as Hrows by discriminate.
  destruct (sync_clients_content sample_users (mkDate 2025 9 1)
              store_with_override Hnd Hrows) as (Hrow & _ & _).
  split.
  - apply (Hrow "alice" (mkUserInfo (Some "client") (Some "Alice A.")
                           (Some 12000) (Some (Some (mkDate 2025 2 1)))
                           (Some true)));
      [right; left | reflexivity].
  - apply (Hrow "frank" (mkUserInfo (Some "client") None None (Some None)
                           None));
      [right; right; left | reflexivity].
Defined.

(** ** Removing trades by return *)

Lemma with_return_pct_idem (t : Trade) :
  with_return_pct (with_return_pct t) = with_return_pct t.
Proof. reflexivity. Qed.

Lemma map_fixed {A : Type} (f : A -> A) (l : list A) :
  (forall x, x ∈ l -> f x = x) -> map f l = l.
Proof.
  induction l as [| x l IH]; intros H; [reflexivity |]. simpl.
  rewrite (H x) by left. f_equal. apply IH. intros y Hy. apply H. now right.
Qed.

Lemma filter_length_split {A : Type} (P : A -> Prop)
    `{forall x, Decision (P x)} (l : list A) :
  (length (filter P l) + length (filter (fun x => ~ P x) l) = length l)%nat.
Proof.
  induction l as [| x l IH]; [reflexivity |].
  destruct (decide (P x)) as [Hx | Hx].
  - rewrite filter_cons_True by exact Hx.
    rewrite filter_cons_False by tauto. simpl. lia.
  - rewrite filter_cons_False by exact Hx.
    rewrite filter_cons_True by exact Hx. simpl. lia.
Qed.

(** What [remove_trades_by_return_percentage] leaves in the store. *)
Lemma remove_trades_store (stock_symbol : string) (target tolerance : Q)
    (self : TradingDataManager) :
  let P := matches_return stock_symbol target tolerance in
  let df := map with_return_pct (trades_df self) in
  let res :=
    remove_trades_by_return_percentage stock_symbol target tolerance self in
  trades_df (snd res) = filter (fun t => ~ P t) df
  /\ (fst (fst res) = false -> trades_df (snd res) = df)
  /\ (forall n, fst res = (true, RemovedTrades n) -> n = length (filter P df))
  /\ (fst (fst res) = true ->
      filter P df <> []
      /\ exists n, fst res = (true, RemovedTrades n)).
Proof.
  cbv zeta. unfold remove_trades_by_return_percentage.
  destruct (trades_df self) as [| t ts] eqn:Et.
  - simpl. rewrite Et. repeat split; try discriminate; reflexivity.
  - set (df := map with_return_pct (t :: ts)).
    destruct (filter (matches_return stock_symbol target tolerance) df)
      as [| m ms] eqn:Em.
    + simpl. split; [| repeat split; try discriminate].
      symmetry. apply filter_all. intros x Hx HP.
      assert (x ∈ filter (matches_return stock_symbol target tolerance) df)
        as Hin by (apply list_elem_of_filter; split; assumption).
      rewrite Em in Hin. inversion Hin.
    + cbn [fst snd]. unfold set_trades. cbn [trades_df].
      split; [reflexivity |]. split; [discriminate |]. split.
      * intros n [= <-].
        pose proof (filter_length_split
                      (matches_return stock_symbol target tolerance) df)
          as Hlen.
        rewrite Em in Hlen.
        change (S (length (map with_return_pct ts))) with (length df).
        lia.
      * intros _. split; [discriminate | eauto].
Qed.

(** X14.  After [remove_trades_by_return_percentage] no trade of the
    given stock with a recomputed return inside the band around the
    target is left, whether or not the call reports a removal.  Every
    trade left is a trade that was there, with its [return_pct]
    recomputed from its prices, and every trade of another stock is
    kept.  A reported removal counts at least one trade, and the count
    plus the number of trades left is the number there was. *)
Theorem remove_trades_effect (stock_symbol : string) (target tolerance : Q)
    (self : TradingDataManager) :
  let res :=
    remove_trades_by_return_percentage stock_symbol target tolerance self in
  (forall t, t ∈ trades_df (snd res) ->
             ~ matches_return stock_symbol target tolerance t)
  /\ (forall t', t' ∈ trades_df (snd res) ->
                 exists t, t ∈ trades_df self /\ t' = with_return_pct t)
  /\ (forall t, t ∈ trades_df self -> stock t <> stock_symbol ->
                with_return_pct t ∈ trades_df (snd res))
  /\ (forall n, fst res = (true, RemovedTrades n) ->
                (0 < n)%nat
                /\ (n + length (trades_df (snd res))
                    = length (trades_df self))%nat).
Proof.
  cbv zeta.
  destruct (remove_trades_store stock_symbol target tolerance self)
    as (Hst & _ & Hn & Hok).
  split; [| split; [| split]].
  - intros t Ht. rewrite Hst in Ht.
    now apply list_elem_of_filter in Ht as [Ht _].
  - intros t' Ht'. rewrite Hst in Ht'.
    apply list_elem_of_filter in Ht' as [_ Ht'].
    apply elem_of_map in Ht' as (t & -> & Ht). eauto.
  - intros t Ht Hs. rewrite Hst. apply list_elem_of_filter. split.
    + intros (Hstock & _). apply Hs. exact Hstock.
    + apply elem_of_map. eauto.
  - intros n Hres. pose proof (Hn n Hres) as ->.
    destruct Hok as [Hne _]; [now rewrite Hres |].
    rewrite Hst.
    pose proof (filter_length_split
                  (matches_return stock_symbol target tolerance)
                  (map with_return_pct (trades_df self))) as Hlen.
    rewrite length_map in Hlen. split; [| exact Hlen].
    destruct (filter (matches_return stock_symbol target tolerance)
                     (map with_return_pct (trades_df self)));
      [congruence | simpl; lia].
Qed.

Lemma remove_trades_effect_witness :
  fst (remove_trades_by_return_percentage "MSTR" 30 25 store_outliers)
  = (true, RemovedTrades 2)
  /\ map trade_id
       (trades_df
          (snd (remove_trades_by_return_percentage "MSTR" 30 25
                  store_outliers)))
     = ["T3"; "T4"]
  /\ (2 + length
           (trades_df
              (snd (remove_trades_by_return_percentage "MSTR" 30 25
                      store_outliers)))
      = length (trades_df store_outliers))%nat.
Proof.
  assert (fst (remove_trades_by_return_percentage "MSTR" 30 25 store_outliers)
          = (true, RemovedTrades 2)) as Hres by (vm_compute; reflexivity).
  split; [exact Hres |]. split; [vm_compute; reflexivity |].
  destruct (remove_trades_effect "MSTR" 30 25 store_outliers)
    as (_ & _ & _ & Hcount).
  destruct (Hcount 2%nat Hres) as [_ Hlen].
  exact Hlen.
Defined.

(** X15.  Calling [remove_trades_by_return_percentage] again with the same
    arguments reports a failure and leaves the store as the first call
    left it. *)
Theorem remove_trades_twice (stock_symbol : string) (target tolerance : Q)
    (self : TradingDataManager) :
  let self' :=
    snd (remove_trades_by_return_percentage stock_symbol target tolerance
           self) in
  fst (fst (remove_trades_by_return_percentage stock_symbol target tolerance
              self')) = false
  /\ snd (remove_trades_by_return_percentage stock_symbol target tolerance
            self') = self'.
Proof.
  cbv zeta.
  set (self' := snd (remove_trades_by_return_percentage stock_symbol target
                       tolerance self)).
  assert (trades_df self'
          = filter (fun t => ~ matches_return stock_symbol target tolerance t)
              (map with_return_pct (trades_df self))) as Hst
      by apply remove_trades_store.
  assert (map with_return_pct (trades_df self') = trades_df self') as Hfix.
  { apply map_fixed. intros x Hx. rewrite Hst in Hx.
    apply list_elem_of_filter in Hx as [_ Hx].
    apply elem_of_map in Hx as (t & -> & _). apply with_return_pct_idem. }
  assert (filter (matches_return stock_symbol target tolerance)
                 (trades_df self') = []) as Hnone.
  { rewrite Hst. apply filter_filter_neg. }
  clearbody self'. unfold remove_trades_by_return_percentage.
  destruct (trades_df self') as [| t ts] eqn:Et; [split; reflexivity |].
  rewrite Hfix, Hnone. simpl. split; [reflexivity |].
  unfold set_trades. rewrite <- Et. now destruct self'.
Qed.

(** ** Accepting an upload *)


Lemma filter_nil_length {A : Type} (P : A -> Prop)
    `{forall x, Decision (P x)} (l : list A) :
  filter P l = [] <-> length (filter P l) = 0%nat.
Proof. destruct (filter P l); simpl; split; congruence. Qed.



Section Acceptance.

Variable unicode_normalize : string -> string.


Variable file : UploadFile.





Variable self : TradingDataManager.



End Acceptance.


(** ** The rows an upload stores *)







(** ** Frames: periods, counts and sums *)

Lemma insert_key_ascending (k : Z) (keys : list Z) :
  ascending keys -> ascending (insert_key k keys).
Proof.
  induction keys as [| h t IH]; simpl.
  - intros _. split; [intros y Hy; inversion Hy | exact I].
  - intros [Hh Ht].
    destruct (k <? h)%Z eqn:Hlt.
    + apply Z.ltb_lt in Hlt. split; [| split; assumption].
      intros y Hy. apply elem_of_cons in Hy as [-> | Hy]; [exact Hlt |].
      specialize (Hh y Hy). lia.
    + apply Z.ltb_ge in Hlt.
      destruct (k =? h)%Z eqn:Heq; [split; assumption |].
      apply Z.eqb_neq in Heq. split; [| now apply IH].
      intros y Hy. apply insert_key_elem in Hy as [-> | Hy]; [lia |].
      now apply Hh.
Qed.

Lemma group_keys_ascending (keys : list Z) : ascending (group_keys keys).
Proof.
  unfold group_keys. induction keys as [| k keys IH]; simpl; [exact I |].
  now apply insert_key_ascending.
Qed.

Lemma ascending_NoDup (l : list Z) : ascending l -> NoDup l.
Proof.
  induction l as [| x t IH]; simpl; [constructor |].
  intros [Hx Ht]. apply NoDup_cons. split; [| now apply IH].
  intros Hin. specialize (Hx x Hin). lia.
Qed.

(** In an ascending list a later position holds a larger value. *)
Lemma ascending_lookup (l : list Z) :
  ascending l ->
  forall i j a b,
    l !! i = Some a -> l !! j = Some b -> (i < j)%nat -> (a < b)%Z.
Proof.
  induction l as [| x t IH]; intros Hasc i j a b Hi Hj Hlt;
    [discriminate |].
  destruct Hasc as [Hx Ht].
  destruct j as [| j]; [lia |].
  destruct i as [| i].
  - simpl in Hi. injection Hi as <-. apply Hx.
    eapply list_elem_of_lookup_2. exact Hj.
  - apply (IH Ht i j); [exact Hi | exact Hj | lia].
Qed.

Lemma cumsum_map {B : Type} (f : PeriodStats -> B) (rows : list PeriodStats) :
  (forall r c, f (mkPeriodStats (Period r) (Total_PL r) (Total_Trades r)
                                (Winning_Trades r) (Win_Rate r)
                                (Client_Capital r) (Return_Pct r) c)
               = f r) ->
  forall acc, map f (cumsum acc rows) = map f rows.
Proof.
  intros Hf. induction rows as [| r rows IH]; intros acc; [reflexivity |].
  simpl. now rewrite Hf, IH.
Qed.

(** The periods of a frame are the group keys of the trades left by the
    client filter. *)
Lemma strategy_returns_periods (period_of : Date -> Z) (capital : Z -> Q)
    (cid : option string) (self : TradingDataManager) :
  map Period (strategy_returns period_of capital cid self)
  = group_keys (map (fun t => period_of (sell_date t))
                    (trades_for_client cid self)).
Proof.
  unfold strategy_returns.
  destruct (trades_df self) as [| t0 ts0] eqn:Edf.
  - assert (trades_for_client cid self = []) as ->; [| reflexivity].
    unfold trades_for_client. rewrite Edf.
    destruct cid as [c |]; [| reflexivity].
    destruct (decide (c = "")); [reflexivity |].
    destruct (filter _ (clients_df self)) as [| cl ?]; [reflexivity |].
    destruct (investment_start_date cl); reflexivity.
  - destruct (trades_for_client cid self) as [| t ts]; [reflexivity |].
    rewrite (cumsum_map Period) by reflexivity.
    rewrite map_map. simpl. apply map_id.
Qed.

(** X18.  The rows of the monthly and of the biweekly frame come in
    strictly ascending order of period, one row per period, and a period
    has a row exactly when a trade left by the client filter was sold in
    it. *)
Theorem frame_periods_ascending (cid : option string)
    (self : TradingDataManager) (frame : list PeriodStats)
    (period_of : Date -> Z) :
  (frame = get_monthly_strategy_returns cid self /\ period_of = to_period_M)
  \/ (frame = get_biweekly_strategy_returns cid self
      /\ period_of = to_period_2W) ->
  (forall i j r1 r2,
      frame !! i = Some r1 -> frame !! j = Some r2 -> (i < j)%nat ->
      (Period r1 < Period r2)%Z)
  /\ NoDup (map Period frame)
  /\ (forall k,
         k ∈ map Period frame
         <-> exists t, t ∈ trades_for_client cid self
                       /\ period_of (sell_date t) = k).
Proof.
  intros Hframe.
  assert (map Period frame
          = group_keys (map (fun t => period_of (sell_date t))
                            (trades_for_client cid self))) as Hp.
  { destruct Hframe as [[-> ->] | [-> ->]]; apply strategy_returns_periods. }
  pose proof (group_keys_ascending
                (map (fun t => period_of (sell_date t))
                     (trades_for_client cid self))) as Hasc.
  rewrite <- Hp in Hasc.
  split; [| split].
  - intros i j r1 r2 H1 H2 Hlt.
    apply (ascending_lookup _ Hasc i j (Period r1) (Period r2));
      [rewrite lookup_map, H1; reflexivity
      | rewrite lookup_map, H2; reflexivity
      | exact Hlt].
  - now apply ascending_NoDup.
  - intros k. rewrite Hp, group_keys_elem, elem_of_map.
    split; intros (t & H1 & H2); exists t; split; auto.
Qed.

Lemma frame_periods_ascending_witness :
  map Period (get_monthly_strategy_returns (Some "alice") store_two_periods)
  = [24305%Z; 24306%Z]
  /\ NoDup (map Period
              (get_monthly_strategy_returns (Some "alice") store_two_periods)).
Proof.
  split; [vm_compute; reflexivity |].
  apply (frame_periods_ascending (Some "alice") store_two_periods _
           to_period_M).
  left. split; reflexivity.
Defined.


Section Partition.

Variable key : Trade -> Z.



Variable weight : Trade -> Q.

(** Summing a column over the trades of every key sums it over every
    trade once. *)
Lemma weight_step (ks : list Z) (t : Trade) (l : list Trade) :
  NoDup ks ->
  Num.sum (map (fun k => Num.sum (map weight
                                      (filter (fun u => key u = k) (t :: l))))
               ks)
  == (if decide (key t ∈ ks) then weight t else 0)
     + Num.sum (map (fun k => Num.sum (map weight
                                           (filter (fun u => key u = k) l)))
                    ks).
Proof.
  induction ks as [| k ks IH]; intros Hnd.
  - simpl. change (Num.sum []) with 0. ring.
  - apply NoDup_cons in Hnd as [Hk Hnd]. cbn [map].
    rewrite !sum_cons, (IH Hnd).
    destruct (decide (key t = k)) as [He | Hne];
      [rewrite filter_cons_True by exact He
      | rewrite filter_cons_False by exact Hne];
      destruct (decide (key t ∈ k :: ks)) as [H1 | H1];
      destruct (decide (key t ∈ ks)) as [H2 | H2];
      cbn [map]; rewrite ?sum_cons; try ring; exfalso.
    + apply Hk. now rewrite <- He.
    + apply H1. rewrite He. left.
    + apply H1. rewrite He. left.
    + apply elem_of_cons in H1 as [? | ?]; contradiction.
    + apply H1. now right.
Qed.

Lemma weight_partition (ks : list Z) (l : list Trade) :
  NoDup ks -> (forall t, t ∈ l -> key t ∈ ks) ->
  Num.sum (map (fun k => Num.sum (map weight
                                      (filter (fun u => key u = k) l))) ks)
  == Num.sum (map weight l).
Proof.
  intros Hnd. induction l as [| t l IH]; intros Hall.
  - clear Hall. induction ks as [| k ks IHk]; [reflexivity |].
    apply NoDup_cons in Hnd as [_ Hnd]. cbn [map].
    rewrite sum_cons, (IHk Hnd).
    change (Num.sum (map weight (filter (fun u => key u = k) []))) with 0.
    cbn [map]. change (Num.sum []) with 0. ring.
  - rewrite weight_step by exact Hnd.
    rewrite decide_True by (apply Hall; left).
    rewrite IH by (intros u Hu; apply Hall; now right).
    cbn [map]. rewrite sum_cons. reflexivity.
Qed.

End Partition.

Lemma trades_for_client_nil (cid : option string)
    (self : TradingDataManager) :
  trades_df self = [] -> trades_for_client cid self = [].
Proof.
  intros Edf. unfold trades_for_client. rewrite Edf.
  destruct cid as [c |]; [| reflexivity].
  destruct (decide (c = "")); [reflexivity |].
  destruct (filter _ (clients_df self)) as [| cl ?]; [reflexivity |].
  destruct (investment_start_date cl); reflexivity.
Qed.

(** A column of a frame, read off the groups of trades. *)
Lemma strategy_returns_column {B : Type} (f : PeriodStats -> B)
    (period_of : Date -> Z) (capital : Z -> Q) (cid : option string)
    (self : TradingDataManager) :
  (forall r c, f (mkPeriodStats (Period r) (Total_PL r) (Total_Trades r)
                                (Winning_Trades r) (Win_Rate r)
                                (Client_Capital r) (Return_Pct r) c)
               = f r) ->
  map f (strategy_returns period_of capital cid self)
  = map (fun k => f (aggregate_group period_of capital
                       (trades_for_client cid self) k))
        (group_keys (map (fun t => period_of (sell_date t))
                         (trades_for_client cid self))).
Proof.
  intros Hf. unfold strategy_returns.
  destruct (trades_df self) as [| t0 ts0] eqn:Edf.
  - now rewrite (trades_for_client_nil cid self Edf).
  - destruct (trades_for_client cid self) as [| t ts]; [reflexivity |].
    rewrite (cumsum_map f _ Hf), map_map. reflexivity.
Qed.

Lemma rint_between (y : Q) (n m : Z) :
  inject_Z n <= y <= inject_Z m -> (n <= Num.rint y <= m)%Z.
Proof.
  intros [Hn Hm]. pose proof (rint_close y) as H.
  apply Qabs_Qle_condition in H as [Hlo Hhi].
  assert (inject_Z n - (1 # 2) <= inject_Z (Num.rint y)) as H1 by lra.
  assert (inject_Z (Num.rint y) <= inject_Z m + (1 # 2)) as H2 by lra.
  unfold Qle in H1, H2. simpl in H1, H2. lia.
Qed.

(** Rounding to two decimals stays between whole bounds. *)
Lemma round2_between (x : Q) (n m : Z) :
  inject_Z n <= x <= inject_Z m ->
  inject_Z n <= Num.round2 x <= inject_Z m.
Proof.
  intros [Hn Hm].
  destruct (rint_between (x * 100) (n * 100) (m * 100)) as [H1 H2].
  { rewrite !inject_Z_mult. change (inject_Z 100) with 100. split; lra. }
  rewrite round2_value.
  rewrite Zle_Qle in H1, H2. rewrite inject_Z_mult in H1, H2.
  change (inject_Z 100) with 100 in H1, H2. split; lra.
Qed.

Section FrameTotals.

Variable period_of : Date -> Z.
Variable capital : Z -> Q.
Variable cid : option string.
Variable self : TradingDataManager.

Let trades := trades_for_client cid self.
Let keys := group_keys (map (fun t => period_of (sell_date t)) trades).

Lemma keys_cover (t : Trade) : t ∈ trades -> period_of (sell_date t) ∈ keys.
Proof.
  intros Ht. unfold keys. apply group_keys_elem, elem_of_map. eauto.
Qed.


Lemma total_pl_sum :
  Num.sum (map Total_PL (strategy_returns period_of capital cid self))
  == Num.sum (map profit_loss trades).
Proof.
  rewrite (strategy_returns_column Total_PL) by reflexivity.
  exact (weight_partition (fun t => period_of (sell_date t)) profit_loss
           keys trades (ascending_NoDup _ (group_keys_ascending _))
           keys_cover).
Qed.


End FrameTotals.

Lemma win_rate_bounds (w t : nat) :
  (1 <= t)%nat -> (w <= t)%nat ->
  0 <= Num.round2 (inject_Z (Z.of_nat w) / inject_Z (Z.of_nat t) * 100) <= 100.
Proof.
  intros Ht Hw.
  assert (0 < inject_Z (Z.of_nat t)) as Hpos.
  { change 0 with (inject_Z 0). rewrite <- Zlt_Qlt. lia. }
  assert (0 <= inject_Z (Z.of_nat w)) as Hw0.
  { change 0 with (inject_Z 0). rewrite <- Zle_Qle. lia. }
  assert (inject_Z (Z.of_nat w) <= inject_Z (Z.of_nat t)) as Hwt.
  { rewrite <- Zle_Qle. lia. }
  assert (0 <= inject_Z (Z.of_nat w) / inject_Z (Z.of_nat t)) as H0.
  { apply Qle_shift_div_l; [exact Hpos | lra]. }
  assert (inject_Z (Z.of_nat w) / inject_Z (Z.of_nat t) <= 1) as H1.
  { apply Qle_shift_div_r; [exact Hpos | lra]. }
  apply (round2_between _ 0 100).
  change (inject_Z 0) with 0. change (inject_Z 100) with 100.
  set (q := inject_Z (Z.of_nat w) / inject_Z (Z.of_nat t)) in *.
  split; lra.
Qed.



(** X20.  The P&L of the periods adds up to the P&L of the trades: the
    [Total_PL] column of the monthly and of the biweekly frame sums to
    the sum of [profit_loss] over the trades left by the client filter,
    and each row holds the P&L of the trades sold in its period. *)
Theorem frame_pl_conservation (cid : option string)
    (self : TradingDataManager) (frame : list PeriodStats)
    (period_of : Date -> Z) :
  (frame = get_monthly_strategy_returns cid self /\ period_of = to_period_M)
  \/ (frame = get_biweekly_strategy_returns cid self
      /\ period_of = to_period_2W) ->
  Num.sum (map Total_PL frame)
  == Num.sum (map profit_loss (trades_for_client cid self))
  /\ forall r,
       r ∈ frame ->
       Total_PL r
       = Num.sum (map profit_loss
                      (trades_in_period period_of (Period r)
                         (trades_for_client cid self))).
Proof.
  intros Hframe.
  assert (exists capital,
             frame = strategy_returns period_of capital cid self)
    as [capital ->].
  { destruct Hframe as [[-> ->] | [-> ->]];
      [exists (fun k => get_monthly_capital (month_start k) self)
      | exists (fun k => get_biweekly_capital k self)]; reflexivity. }
  split; [apply total_pl_sum |].
  intros r Hr. now apply strategy_returns_row in Hr as (_ & Hpl & _).
Qed.

Lemma frame_pl_conservation_witness :
  Num.sum (map Total_PL
             (get_biweekly_strategy_returns (Some "alice") store_two_periods))
  == 1000 + (-500 + 0).
Proof.
  rewrite (proj1 (frame_pl_conservation (Some "alice") store_two_periods _
                    to_period_2W
                    (or_intror (conj eq_refl eq_refl)))).
  vm_compute. reflexivity.
Defined.

(** ** Cumulative returns *)

Lemma cumsum_running (rows : list PeriodStats) :
  forall acc i r,
    cumsum acc rows !! i = Some r ->
    Cumulative_Return r
    == acc + Num.sum (map Return_Pct (take (S i) (cumsum acc rows))).
Proof.
  induction rows as [| r0 rows IH]; intros acc i r Hr; [discriminate |].
  destruct i as [| i]; simpl in Hr.
  - injection Hr as <-. cbn [cumsum take map Return_Pct Cumulative_Return].
    rewrite sum_singleton. reflexivity.
  - rewrite (IH _ _ _ Hr). cbn [cumsum take map Return_Pct].
    rewrite sum_cons. ring.
Qed.

(** X21.  [Cumulative_Return] is a running sum, not a compounded
    product: in the monthly and in the biweekly frame the cumulative
    return of a row is the sum of the [Return_Pct] of that row and of
    all rows before it, and the cumulative return of the last row is the
    sum of the whole column. *)
Theorem cumulative_return_is_running_sum (cid : option string)
    (self : TradingDataManager) (frame : list PeriodStats) :
  frame = get_monthly_strategy_returns cid self
  \/ frame = get_biweekly_strategy_returns cid self ->
  (forall i r,
      frame !! i = Some r ->
      Cumulative_Return r == Num.sum (map Return_Pct (take (S i) frame)))
  /\ (forall r,
         last frame = Some r ->
         Cumulative_Return r == Num.sum (map Return_Pct frame)).
Proof.
  intros Hframe.
  assert (forall i r,
             frame !! i = Some r ->
             Cumulative_Return r
             == Num.sum (map Return_Pct (take (S i) frame))) as Hrun.
  { assert (exists rows, frame = cumsum 0 rows) as [rows ->].
    { destruct Hframe as [-> | ->];
        unfold get_monthly_strategy_returns, get_biweekly_strategy_returns,
          strategy_returns;
        destruct (trades_df self); try (exists []; reflexivity);
        destruct (trades_for_client cid self); try (exists []; reflexivity);
        eexists; reflexivity. }
    intros i r Hr. rewrite (cumsum_running rows 0 i r Hr). ring. }
  split; [exact Hrun |].
  intros r Hlast. rewrite last_lookup in Hlast.
  rewrite (Hrun _ _ Hlast).
  rewrite take_ge; [reflexivity |].
  destruct frame; [discriminate | simpl; lia].
Qed.

Lemma cumulative_return_is_running_sum_witness :
  exists r,
    last (get_monthly_strategy_returns (Some "alice") store_two_periods)
    = Some r
    /\ Cumulative_Return r == 10 + (-5).
Proof.
  destruct (last (get_monthly_strategy_returns (Some "alice")
                    store_two_periods)) as [r |] eqn:E;
    [| vm_compute in E; discriminate].
  exists r. split; [reflexivity |].
  rewrite (proj2 (cumulative_return_is_running_sum (Some "alice")
                    store_two_periods _ (or_introl eq_refl)) r E).
  vm_compute. reflexivity.
Defined.

(** ** What the walk adds up to *)

Lemma last_cons_default {A : Type} (x d : A) (l : list A) :
  List.last (x :: l) d = List.last l x.
Proof.
  revert x d. induction l as [| y l IH]; intros x d; [reflexivity |].
  change (List.last (x :: y :: l) d) with (List.last (y :: l) d).
  now rewrite (IH y d), (IH y x).
Qed.

Lemma capital_after_walk (freq : Freq) (cfg : Settings)
    (movements : list CapitalMovement) (returns : list PeriodStats) :
  forall cc,
    let steps := walk freq cfg movements cc returns in
    capital_after cc steps
    == cc + Num.sum (map Step.net_contributions steps)
       + Num.sum (map Step.investor_share steps).
Proof.
  induction returns as [| pd rest IH]; intros cc; cbv zeta.
  - unfold capital_after. simpl. change (Num.sum []) with 0. ring.
  - cbn [walk map]. unfold capital_after. cbn [map].
    rewrite last_cons_default.
    set (s := walk_step freq cfg movements cc pd).
    change (List.last (map Step.current_capital
                           (walk freq cfg movements
                                 (Step.current_capital s) rest))
                      (Step.current_capital s))
      with (capital_after (Step.current_capital s)
              (walk freq cfg movements (Step.current_capital s) rest)).
    rewrite (IH (Step.current_capital s)), !sum_cons.
    destruct (walk_step_amounts freq cfg movements cc pd)
      as (_ & _ & _ & _ & Hcur).
    fold s in Hcur. rewrite Hcur.
    change (Step.period_starting_capital s) with cc. ring.
Qed.

(** The capital a ledger with monthly periods reports. *)
Lemma flow_current_capital (cid : string) (self : TradingDataManager)
    (r : Flow.t) (d : Q) :
  get_client_capital_flow cid self = Some r ->
  Flow.monthly_breakdown r <> [] ->
  Flow.current_capital r = last_ending_capital (Flow.monthly_breakdown r) d.
Proof.
  unfold get_client_capital_flow.
  destruct (filter _ (clients_df self)) as [| cl rest]; [discriminate |].
  destruct (get_biweekly_strategy_returns (Some cid) self) as [| pd pds].
  - intros [= <-]. simpl. congruence.
  - unfold select_ending.
    destruct (map emit (monthly_steps self cid cl _)) as [| m ms] eqn:Em.
    + destruct (map emit (biweekly_steps self cid cl _));
        intros [= <-]; simpl; congruence.
    + intros [= <-] _. cbn [Flow.current_capital Flow.monthly_breakdown].
      apply last_default_irrelevant. discriminate.
Qed.

Lemma last_ending_capital_emit (steps : list Step.t) (cc d : Q) :
  steps <> [] ->
  last_ending_capital (map emit steps) d
  = Num.round2 (capital_after cc steps).
Proof.
  intros Hne. unfold last_ending_capital, capital_after.
  destruct (last_is_Some steps Hne) as [s Hs].
  rewrite map_map.
  rewrite (last_map_default (fun x => Breakdown.ending_capital (emit x))
             steps d s Hs).
  now rewrite (last_map_default Step.current_capital steps cc s Hs).
Qed.

(** No movement is ever taken up in a period of the biweekly walk: the
    period column holds ['2W'] periods, the period read back from the
    frame is a weekly one. *)
Lemma biweekly_period_movements (movements : list CapitalMovement) (k : Z) :
  filter (fun m => to_period Freq2W (movement_date m)
                   = Period_of_text Freq2W k) movements = [].
Proof.
  induction movements as [| m ms IH]; [reflexivity |].
  rewrite filter_cons_False; [exact IH |].
  unfold to_period, Period_of_text. intros [=].
Qed.

(** The monthly walk takes up the movements dated in the month. *)
Lemma monthly_period_movements (movements : list CapitalMovement) (k : Z) :
  filter (fun m => to_period FreqM (movement_date m)
                   = Period_of_text FreqM k) movements
  = filter (fun m => to_period_M (movement_date m) = k) movements.
Proof.
  apply list_filter_iff. intros m. unfold to_period, Period_of_text.
  split; [intros [= H]; exact H | intros ->; reflexivity].
Qed.

Lemma sum_all_zero (l : list Q) : (forall q, q ∈ l -> q == 0) -> Num.sum l == 0.
Proof.
  induction l as [| x l IH]; intros Hall; [reflexivity |].
  rewrite sum_cons, (Hall x) by left.
  rewrite IH; [ring |]. intros q Hq. apply Hall. now right.
Qed.

(** X22.  What a walk adds to the capital.  The monthly walk takes up, in
    each month of the frame, the client's movements dated in that month,
    and ends at the client's starting capital plus these net
    contributions plus the investor shares of the months walked; the
    trader shares never enter it.  The biweekly walk takes up no movement
    in any period: every biweekly step shows contributions and
    withdrawals of 0, and the walk ends at the anchor (starting capital
    plus all contributions minus all withdrawals) plus the investor
    shares.  The ledger holds the two walks, rounded, and when it has
    monthly periods the [current_capital] it reports is the monthly sum
    rounded to two decimals. *)
Theorem walk_capital_conservation (cid : string) (self : TradingDataManager)
    (cl : Client) (rest : list Client) :
  filter (fun c => client_id c = cid) (clients_df self) = cl :: rest ->
  let movs :=
    filter (fun m => movement_client m = cid) (capital_movements_df self) in
  let msteps := monthly_steps self cid cl movs in
  let bsteps := biweekly_steps self cid cl movs in
  let anchor :=
    starting_capital cl + contribution_sum movs - withdrawal_sum movs in
  (forall s,
      s ∈ msteps ->
      let in_month :=
        filter (fun m => to_period_M (movement_date m) = Step.period s)
               movs in
      Step.period_contributions s = contribution_sum in_month
      /\ Step.period_withdrawals s = withdrawal_sum in_month
      /\ Step.net_contributions s
         = contribution_sum in_month - withdrawal_sum in_month)
  /\ capital_after (starting_capital cl) msteps
     == starting_capital cl
        + Num.sum (map Step.net_contributions msteps)
        + Num.sum (map Step.investor_share msteps)
  /\ (forall s,
         s ∈ bsteps ->
         Step.period_contributions s = 0
         /\ Step.period_withdrawals s = 0
         /\ Step.net_contributions s = 0 - 0)
  /\ capital_after anchor bsteps
     == anchor + Num.sum (map Step.investor_share bsteps)
  /\ exists r,
       get_client_capital_flow cid self = Some r
       /\ Flow.monthly_breakdown r = map emit msteps
       /\ Flow.biweekly_breakdown r = map emit bsteps
       /\ (msteps <> [] ->
           Flow.current_capital r
           = Num.round2 (starting_capital cl
                         + Num.sum (map Step.net_contributions msteps)
                         + Num.sum (map Step.investor_share msteps))).
Proof.
  intros Hcl movs msteps bsteps anchor.
  assert (capital_after (starting_capital cl) msteps
          == starting_capital cl
             + Num.sum (map Step.net_contributions msteps)
             + Num.sum (map Step.investor_share msteps)) as Hmsum
    by apply capital_after_walk.
  assert (forall s,
             s ∈ bsteps ->
             Step.period_contributions s = 0
             /\ Step.period_withdrawals s = 0
             /\ Step.net_contributions s = 0 - 0) as Hb0.
  { intros s Hs. apply walk_elem in Hs as (cc & pd & _ & ->).
    unfold walk_step.
    cbn [Step.period_contributions Step.period_withdrawals
         Step.net_contributions].
    rewrite biweekly_period_movements. repeat split. }
  split.
  { intros s Hs. apply walk_elem in Hs as (cc & pd & _ & ->).
    unfold walk_step.
    cbn [Step.period_contributions Step.period_withdrawals
         Step.net_contributions Step.period].
    rewrite monthly_period_movements. repeat split. }
  split; [exact Hmsum |].
  split; [exact Hb0 |].
  split.
  { assert (capital_after anchor bsteps
            == anchor + Num.sum (map Step.net_contributions bsteps)
               + Num.sum (map Step.investor_share bsteps)) as Hbsum
      by apply capital_after_walk.
    rewrite Hbsum.
    rewrite (sum_all_zero (map Step.net_contributions bsteps)); [ring |].
    intros q Hq. apply elem_of_map in Hq as (s & -> & Hs).
    destruct (Hb0 s Hs) as (_ & _ & ->). reflexivity. }
  destruct (flow_is_Some cid self cl rest Hcl) as [r Hr].
  exists r. split; [exact Hr |].
  pose proof (flow_current_capital cid self r 0 Hr) as Hcur.
  apply flow_breakdowns in Hr as (cl' & rest' & Hcl' & _ & _ & _ & Hm & Hb).
  rewrite Hcl in Hcl'. injection Hcl' as <- <-.
  cbv zeta in Hm, Hb. fold movs in Hm, Hb. fold msteps in Hm.
  fold bsteps in Hb.
  split; [exact Hm |]. split; [exact Hb |].
  intros Hne.
  rewrite Hcur by (rewrite Hm; intros Hnil; apply Hne;
                   now apply map_eq_nil_inv in Hnil).
  rewrite Hm.
  rewrite (last_ending_capital_emit _ (starting_capital cl)) by exact Hne.
  now apply round2_proper.
Qed.

(** A contribution of 2000 dated in the week and in the month of the only
    trading period: the monthly period shows it, the biweekly period
    shows none and starts from the anchor 12000. *)
Lemma walk_capital_conservation_witness :
  exists r,
    get_client_capital_flow "alice" store_same_week_contribution = Some r
    /\ map Breakdown.contributions (Flow.monthly_breakdown r) = [2000]
    /\ map Breakdown.contributions (Flow.biweekly_breakdown r) = [0]
    /\ map Breakdown.starting_capital (Flow.biweekly_breakdown r) = [12000]
    /\ Flow.current_capital r
       = Num.round2
           (10000
            + Num.sum
                (map Step.net_contributions
                     (monthly_steps store_same_week_contribution "alice"
                        alice
                        (capital_movements_df store_same_week_contribution)))
            + Num.sum
                (map Step.investor_share
                     (monthly_steps store_same_week_contribution "alice"
                        alice
                        (capital_movements_df
                           store_same_week_contribution)))).
Proof.
  destruct (walk_capital_conservation "alice" store_same_week_contribution
              alice [])
    as (_ & _ & _ & _ & r & Hr & Hm & Hb & Hcur); [vm_compute; reflexivity |].
  exists r. split; [exact Hr |].
  split; [rewrite Hm; vm_compute; reflexivity |].
  split; [rewrite Hb; vm_compute; reflexivity |].
  split; [rewrite Hb; vm_compute; reflexivity |].
  apply Hcur. vm_compute. discriminate.
Defined.

(** ** The ledger follows the frame *)

Lemma walk_periods (freq : Freq) (cfg : Settings)
    (movements : list CapitalMovement) (returns : list PeriodStats) :
  forall cc,
    map Step.period (walk freq cfg movements cc returns)
    = map Period returns
    /\ map Step.period_return_pct (walk freq cfg movements cc returns)
       = map Return_Pct returns.
Proof.
  induction returns as [| pd rest IH]; intros cc; [split; reflexivity |].
  destruct (IH (Step.current_capital
                  (walk_step freq cfg movements cc pd))) as [H1 H2].
  cbn [walk map]. rewrite H1, H2. split; reflexivity.
Qed.

(** X23.  A ledger is chronological.  The monthly breakdown has one
    period per row of the client's monthly frame, in the frame's order
    and with the frame's return percentage, unrounded; its periods are
    strictly ascending.  The same holds for the biweekly breakdown and
    the biweekly frame. *)
Theorem ledger_is_chronological (cid : string) (self : TradingDataManager)
    (r : Flow.t) :
  get_client_capital_flow cid self = Some r ->
  let mframe := get_monthly_strategy_returns (Some cid) self in
  let bframe := get_biweekly_strategy_returns (Some cid) self in
  map Breakdown.period (Flow.monthly_breakdown r) = map Period mframe
  /\ map Breakdown.return_pct (Flow.monthly_breakdown r)
     = map Return_Pct mframe
  /\ map Breakdown.period (Flow.biweekly_breakdown r) = map Period bframe
  /\ map Breakdown.return_pct (Flow.biweekly_breakdown r)
     = map Return_Pct bframe
  /\ (forall bd i j p q,
         bd = Flow.monthly_breakdown r \/ bd = Flow.biweekly_breakdown r ->
         bd !! i = Some p -> bd !! j = Some q -> (i < j)%nat ->
         (Breakdown.period p < Breakdown.period q)%Z).
Proof.
  intros Hr mframe bframe.
  apply flow_breakdowns in Hr as (cl & rest & _ & _ & _ & _ & Hm & Hb).
  cbv zeta in Hm, Hb.
  set (movs := filter (fun m => movement_client m = cid)
                      (capital_movements_df self)) in *.
  destruct (walk_periods FreqM (get_config (config self) (Some cid))
              movs mframe (starting_capital cl)) as [Hmp Hmr].
  destruct (walk_periods Freq2W (get_config (config self) (Some cid))
              movs bframe
              (starting_capital cl + contribution_sum movs
               - withdrawal_sum movs)) as [Hbp Hbr].
  assert (map Breakdown.period (Flow.monthly_breakdown r) = map Period mframe)
    as H1 by (rewrite Hm, map_map; exact Hmp).
  assert (map Breakdown.period (Flow.biweekly_breakdown r) = map Period bframe)
    as H3 by (rewrite Hb, map_map; exact Hbp).
  split; [exact H1 |].
  split; [rewrite Hm, map_map; exact Hmr |].
  split; [exact H3 |].
  split; [rewrite Hb, map_map; exact Hbr |].
  intros bd i j p q Hbd Hp Hq Hlt.
  assert (ascending (map Breakdown.period bd)) as Hasc.
  { destruct Hbd as [-> | ->]; [rewrite H1 | rewrite H3];
      unfold mframe, bframe, get_monthly_strategy_returns,
        get_biweekly_strategy_returns;
      rewrite strategy_returns_periods; apply group_keys_ascending. }
  apply (ascending_lookup _ Hasc i j (Breakdown.period p)
           (Breakdown.period q));
    [rewrite lookup_map, Hp; reflexivity
    | rewrite lookup_map, Hq; reflexivity
    | exact Hlt].
Qed.

Lemma ledger_is_chronological_witness :
  exists r,
    get_client_capital_flow "alice" store_two_periods = Some r
    /\ map Breakdown.period (Flow.monthly_breakdown r) = [24305%Z; 24306%Z].
Proof.
  destruct (get_client_capital_flow "alice" store_two_periods) as [r |] eqn:E;
    [| vm_compute in E; discriminate].
  exists r. split; [reflexivity |].
  rewrite (proj1 (ledger_is_chronological "alice" store_two_periods r E)).
  vm_compute. reflexivity.
Defined.

(** ** Who an update of the configuration reaches *)

(** X24.  An update of one client's configuration changes what no other
    client and not the global configuration resolve to.  An update of
    the global configuration leaves the client sections as they are: a
    client keeps every value its own section stores, and a client without
    a section resolves to the updated global values. *)
Theorem update_config_reach (tax ts : option Q) (cfg : Config) :
  (forall c c',
      c' <> Some c ->
      get_config (update_config tax ts (Some c) cfg) c' = get_config cfg c')
  /\ clients (update_config tax ts None cfg) = clients cfg
  /\ (forall c s,
         clients cfg !! c = Some s ->
         let before := get_config cfg (Some c) in
         let after := get_config (update_config tax ts None cfg) (Some c) in
         (is_Some (tax_rate s) -> cfg_tax_rate after = cfg_tax_rate before)
         /\ (is_Some (trader_share s) ->
             cfg_trader_share after = cfg_trader_share before)
         /\ (is_Some (investor_share s) ->
             cfg_investor_share after = cfg_investor_share before))
  /\ (forall c,
         clients cfg !! c = None ->
         let after := get_config (update_config tax ts None cfg) (Some c) in
         let glob := get_config (update_config tax ts None cfg) None in
         cfg_tax_rate after = cfg_tax_rate glob
         /\ cfg_trader_share after = cfg_trader_share glob
         /\ cfg_investor_share after = cfg_investor_share glob).
Proof.
  split; [| split; [reflexivity | split]].
  - intros c [c' |] Hne; simpl; [| reflexivity].
    rewrite lookup_insert_ne by congruence. reflexivity.
  - intros c s Hs. cbv zeta. simpl. rewrite Hs. simpl.
    repeat split; intros [v Hv]; rewrite Hv; reflexivity.
  - intros c Hc. cbv zeta. simpl. rewrite Hc. simpl. repeat split.
Qed.

Lemma update_config_reach_witness :
  let cfg := update_config (Some (10 # 100)) None (Some "alice") default_config in
  cfg_tax_rate (get_config (update_config (Some (30 # 100)) None None cfg)
                           (Some "alice")) = 10 # 100
  /\ cfg_tax_rate (get_config (update_config (Some (30 # 100)) None None cfg)
                              (Some "bob")) = 30 # 100.
Proof.
  cbv zeta.
  set (cfg := update_config (Some (10 # 100)) None (Some "alice")
                            default_config).
  destruct (update_config_reach (Some (30 # 100)) None cfg)
    as (_ & _ & Hown & Hnone).
  split.
  - destruct (Hown "alice"
                (mkSection (Some (10 # 100)) (Some (40 # 100))
                           (Some (60 # 100)) None None)) as (Htax & _ & _).
    + reflexivity.
    + rewrite Htax; [reflexivity | eexists; reflexivity].
  - destruct (Hnone "bob") as (Htax & _ & _); [reflexivity |].
    rewrite Htax. reflexivity.
Defined.

(** X25.  What [update_config] writes for a client.  For a client that
    has a section, only the values given are written: a tax rate given
    replaces the tax rate, a trader share [t] given replaces the shares
    by [t] and [1 - t], and what is not given resolves as before.  For a
    client without a section the section is created from the fixed
    defaults 0.25, 0.40 and 0.60, so whatever is not given resolves to
    these defaults and no longer to the global values. *)
Theorem update_config_client_fields (tax ts : option Q) (c : string)
    (cfg : Config) :
  let before := get_config cfg (Some c) in
  let after := get_config (update_config tax ts (Some c) cfg) (Some c) in
  (forall s,
      clients cfg !! c = Some s ->
      cfg_tax_rate after = default (cfg_tax_rate before) tax
      /\ cfg_trader_share after = default (cfg_trader_share before) ts
      /\ cfg_investor_share after
         = match ts with
           | Some t => 1 - t
           | None => cfg_investor_share before
           end)
  /\ (clients cfg !! c = None ->
      cfg_tax_rate after = default (25 # 100) tax
      /\ cfg_trader_share after = default (40 # 100) ts
      /\ cfg_investor_share after
         = match ts with Some t => 1 - t | None => 60 # 100 end).
Proof.
  cbv zeta. simpl. rewrite lookup_insert_eq. split.
  - intros s Hs. rewrite Hs. simpl.
    destruct tax, ts; simpl; repeat split.
  - intros Hc. rewrite Hc. simpl.
    destruct tax, ts; simpl; repeat split.
Qed.

Lemma update_config_client_fields_witness :
  let cfg := update_config (Some (30 # 100)) (Some (50 # 100)) None
                           default_config in
  cfg_tax_rate (get_config cfg (Some "alice")) = 30 # 100
  /\ cfg_tax_rate
       (get_config (update_config None (Some (20 # 100)) (Some "alice") cfg)
                   (Some "alice")) = 25 # 100.
Proof.
  cbv zeta. split; [reflexivity |].
  destruct (update_config_client_fields None (Some (20 # 100)) "alice"
              (update_config (Some (30 # 100)) (Some (50 # 100)) None
                             default_config)) as [_ Hnew].
  destruct Hnew as (Htax & _ & _); [reflexivity |].
  exact Htax.
Defined.

(** ** Updating a client *)

Section UpdateClient.

Variable hash : string -> string.

Lemma change_password_result (username new_password : string)
    (auth : AuthManager) :
  let res := change_password hash username new_password auth in
  (fst res = true <-> is_Some (users auth !! username))
  /\ (fst res = false -> snd res = auth)
  /\ sessions (snd res) = sessions auth
  /\ (forall u, users auth !! username = Some u ->
                exists u',
                  users (snd res) !! username = Some u'
                  /\ usr_password_hash u' = hash new_password
                  /\ usr_role u' = usr_role u
                  /\ usr_active u' = usr_active u)
  /\ (forall other, other <> username ->
                    users (snd res) !! other = users auth !! other).
Proof.
  cbv zeta. unfold change_password.
  destruct (users auth !! username) as [u |] eqn:E; simpl.
  - split; [split; [eauto | reflexivity] |].
    split; [discriminate |]. split; [reflexivity |]. split.
    + intros u0 [= <-]. eexists. rewrite lookup_insert_eq.
      split; [reflexivity |]. repeat split.
    + intros other Hne. now rewrite lookup_insert_ne.
  - split; [split; [discriminate | intros [? ?]; discriminate] |].
    split; [reflexivity |]. split; [reflexivity |]. split; [discriminate |].
    reflexivity.
Qed.

(** The rows of a directory after [update_client] has rewritten it. *)
Lemma rewritten_directory (cid name : string) (capital : Q)
    (start : option Date) (is_active : bool) (df : list Client) :
  let f := fun cl =>
             if decide (client_id cl = cid)
             then mkClient (client_id cl) name capital start is_active
             else cl in
  map client_id (map f df) = map client_id df
  /\ (forall cl, cl ∈ map f df -> client_id cl = cid ->
                 cl = mkClient cid name capital start is_active)
  /\ filter (fun cl => client_id cl <> cid) (map f df)
     = filter (fun cl => client_id cl <> cid) df.
Proof.
  cbv zeta. split; [| split].
  - rewrite map_map. apply map_ext. intros cl. case_decide; reflexivity.
  - intros cl Hcl Hid. apply elem_of_map in Hcl as (c0 & -> & _).
    case_decide as Hc0; [now rewrite Hc0 | contradiction].
  - induction df as [| c0 df IH]; [reflexivity |]. cbn [map].
    destruct (decide (client_id c0 = cid)) as [Hc | Hc].
    + rewrite !filter_cons_False by (simpl; tauto). exact IH.
    + rewrite !filter_cons_True by exact Hc. now rewrite IH.
Qed.

(** X26.  [update_client].  For a client without a row it reports failure
    and changes neither the directory nor the accounts.  For a client
    with rows it rewrites every row of the client to the values given,
    leaves the rows of the other clients and the order of the directory
    as they are, and then changes the password when one is given: it
    reports success exactly when no password is given or the client has
    an account, so that with a password for a client without an account
    it reports failure although the directory has been rewritten. *)
Theorem update_client_effect (cid name : string) (capital : Q)
    (start : option Date) (is_active : bool) (new_password : option string)
    (self : TradingDataManager) (auth : AuthManager) :
  let res :=
    update_client hash cid name capital start is_active new_password
                  self auth in
  let self' := snd (fst res) in
  ((forall cl, cl ∈ clients_df self -> client_id cl <> cid) ->
   res = (false, self, auth))
  /\ ((exists cl, cl ∈ clients_df self /\ client_id cl = cid) ->
      map client_id (clients_df self') = map client_id (clients_df self)
      /\ (forall cl, cl ∈ clients_df self' -> client_id cl = cid ->
                     cl = mkClient cid name capital start is_active)
      /\ filter (fun cl => client_id cl <> cid) (clients_df self')
         = filter (fun cl => client_id cl <> cid) (clients_df self)
      /\ (fst (fst res) = true
          <-> ~ given new_password \/ is_Some (users auth !! cid))
      /\ (forall pw u,
             new_password = Some pw -> pw <> "" ->
             users auth !! cid = Some u ->
             exists u',
               users (snd res) !! cid = Some u'
               /\ usr_password_hash u' = hash pw)).
Proof.
  cbv zeta. unfold update_client. split.
  - intros Hnone.
    now rewrite (filter_none (fun cl => client_id cl = cid)).
  - intros (c0 & Hc0 & Hid).
    destruct (filter (fun cl => client_id cl = cid) (clients_df self))
      as [| c1 cs] eqn:Ef.
    { assert (c0 ∈ filter (fun cl => client_id cl = cid) (clients_df self))
        as Hin by (apply list_elem_of_filter; split; assumption).
      rewrite Ef in Hin. inversion Hin. }
    destruct (rewritten_directory cid name capital start is_active
                (clients_df self)) as (Hids & Hrows & Hothers).
    assert (not_given : forall pw, new_password = Some pw -> pw = "" ->
                                   ~ given new_password).
    { intros pw -> -> (p & [= <-] & Hp). now apply Hp. }
    destruct new_password as [pw |].
    + destruct (decide (pw = "")) as [Hpw | Hpw].
      * cbn [fst snd]. unfold set_clients. cbn [clients_df].
        split; [exact Hids |]. split; [exact Hrows |].
        split; [exact Hothers |]. split.
        -- split; [intros _; left; now apply (not_given pw) | reflexivity].
        -- intros p u [= <-] Hne. contradiction.
      * destruct (change_password_result cid pw auth)
          as (Hok & _ & _ & Hset & _). cbv zeta in Hok, Hset.
        destruct (change_password hash cid pw auth) as [ok auth'] eqn:Ecp.
        cbn [fst snd] in Hok, Hset.
        destruct ok; cbn [fst snd]; unfold set_clients; cbn [clients_df];
          (split; [exact Hids |]); (split; [exact Hrows |]);
          (split; [exact Hothers |]); split.
        -- split; [intros _; right; now apply Hok | reflexivity].
        -- intros p u [= <-] _ Hu. destruct (Hset u Hu) as (u' & Hu' & Hh & _).
           eauto.
        -- split; [discriminate |]. intros [Hng | Hsome].
           ++ exfalso. apply Hng. exists pw. split; [reflexivity | exact Hpw].
           ++ apply Hok in Hsome. discriminate.
        -- intros p u [= <-] _ Hu. destruct (Hset u Hu) as (u' & Hu' & Hh & _).
           eauto.
    + cbn [fst snd]. unfold set_clients. cbn [clients_df].
      split; [exact Hids |]. split; [exact Hrows |].
      split; [exact Hothers |]. split.
      * split; [| reflexivity]. intros _. left.
        intros (p & Hp & _). discriminate.
      * intros p u Hp. discriminate.
Qed.

End UpdateClient.

Lemma update_client_effect_witness :
  let res :=
    update_client sample_hash "dave" "David" 6000 None true (Some "pw")
                  store_with_override sample_auth in
  fst (fst res) = false
  /\ filter (fun cl => client_id cl = "dave") (clients_df (snd (fst res)))
     = [mkClient "dave" "David" 6000 None true].
Proof.
  cbv zeta.
  destruct (update_client_effect sample_hash "dave" "David" 6000 None true
              (Some "pw") store_with_override sample_auth) as [_ Hrows].
  destruct Hrows as (_ & _ & _ & Hok & _).
  - exists (mkClient "dave" "Dave" 5000 None false).
    split; [right; left | reflexivity].
  - split; [| vm_compute; reflexivity].
    destruct (fst (fst (update_client sample_hash "dave" "David" 6000 None
                          true (Some "pw") store_with_override sample_auth)))
      eqn:E; [| reflexivity].
    destruct (proj1 Hok eq_refl) as [Hng | Hsome].
    + exfalso. apply Hng. exists "pw". split; [reflexivity | discriminate].
    + destruct Hsome as [u Hu]. vm_compute in Hu. discriminate.
Defined.

(** ** Sessions *)

Lemma cleanup_lookup (now : Z) (auth : AuthManager) (sid : string) :
  sessions (_cleanup_expired_sessions now auth) !! sid
  = match sessions auth !! sid with
    | Some s => if decide (expired now s) then None else Some s
    | None => None
    end.
Proof.
  unfold _cleanup_expired_sessions. simpl.
  destruct (sessions auth !! sid) as [s |] eqn:E.
  - case_decide as Hexp.
    + apply map_lookup_filter_None. right. intros s' Hs'. simpl.
      rewrite E in Hs'. injection Hs' as <-. tauto.
    + apply map_lookup_filter_Some. split; [exact E | exact Hexp].
  - apply map_lookup_filter_None. now left.
Qed.

Section Sessions.

Variable hash : string -> string.

(** X27.  [login] opens a session exactly for a user that exists, is
    active and whose stored digest is the digest of the password given.
    The session is filed under the token drawn, carries the user's role,
    and is at once authenticated and resolved by [get_session_user] to
    the user's name and e-mail.  Whether or not the login succeeds, the
    accounts are unchanged and every other session is dropped when it is
    older than 24 hours and kept otherwise. *)
Theorem login_session (now : Z) (token username password : string)
    (auth : AuthManager) :
  let res := login hash now token username password auth in
  (is_Some (fst res)
   <-> exists u, users auth !! username = Some u
                 /\ usr_active u = true
                 /\ usr_password_hash u = hash password)
  /\ (forall sid role,
         fst res = Some (sid, role) ->
         sid = token
         /\ is_authenticated token (snd res) = true
         /\ exists u,
              users auth !! username = Some u
              /\ role = usr_role u
              /\ get_session_user token (snd res)
                 = Some (mkUserView username role (usr_name u) (usr_email u)))
  /\ users (snd res) = users auth
  /\ (forall sid,
         fst res = None \/ sid <> token ->
         sessions (snd res) !! sid
         = match sessions auth !! sid with
           | Some s => if decide (expired now s) then None else Some s
           | None => None
           end).
Proof.
  cbv zeta. unfold login.
  change (users (_cleanup_expired_sessions now auth)) with (users auth).
  destruct (users auth !! username) as [u |] eqn:Eu.
  - destruct (usr_active u) eqn:Ea.
    + destruct (decide (usr_password_hash u = hash password)) as [Hh | Hh];
        cbn [fst snd].
      * split; [split; [intros _; exists u; auto | eauto] |].
        split.
        -- intros sid role [= <- <-]. split; [reflexivity |]. split.
           ++ unfold is_authenticated. cbn [sessions].
              rewrite lookup_insert_eq. apply bool_decide_eq_true. eauto.
           ++ exists u. split; [reflexivity |]. split; [reflexivity |].
              unfold get_session_user. cbn [sessions users].
              rewrite lookup_insert_eq. cbn [ses_username ses_role].
              now rewrite Eu.
        -- split; [reflexivity |]. intros sid [Hnone | Hne];
             [discriminate |].
           cbn [sessions]. rewrite lookup_insert_ne by congruence.
           apply cleanup_lookup.
      * split.
        { split; [intros [? ?]; discriminate |].
          intros (u' & [= <-] & _ & Hh'). contradiction. }
        split; [discriminate |]. split; [reflexivity |].
        intros sid _. apply cleanup_lookup.
    + cbn [fst snd]. split.
      { split; [intros [? ?]; discriminate |].
        intros (u' & [= <-] & Ha' & _). congruence. }
      split; [discriminate |]. split; [reflexivity |].
      intros sid _. apply cleanup_lookup.
  - cbn [fst snd]. split.
    { split; [intros [? ?]; discriminate |].
      intros (u' & Hu' & _). discriminate. }
    split; [discriminate |]. split; [reflexivity |].
    intros sid _. apply cleanup_lookup.
Qed.

End Sessions.

Lemma login_session_witness :
  fst (login sample_hash (2 * session_lifetime) "token-2" "alice" "secret"
             sample_auth) = Some ("token-2", "client")
  /\ sessions (snd (login sample_hash (2 * session_lifetime) "token-2"
                          "alice" "secret" sample_auth)) !! "token-1" = None
  /\ fst (login sample_hash 5 "token-2" "alice" "guess" sample_auth) = None.
Proof.
  destruct (login_session sample_hash (2 * session_lifetime) "token-2"
              "alice" "secret" sample_auth) as (Hok & _ & _ & Hother).
  destruct (login_session sample_hash 5 "token-2" "alice" "guess"
              sample_auth) as (Hbad & _).
  split; [vm_compute; reflexivity |]. split.
  - rewrite Hother by (right; discriminate). vm_compute. reflexivity.
  - destruct (fst (login sample_hash 5 "token-2" "alice" "guess" sample_auth))
      eqn:E; [| reflexivity].
    destruct (proj1 Hbad (ex_intro _ _ eq_refl)) as (u & Hu & _ & Hh).
    vm_compute in Hu. injection Hu as <-. vm_compute in Hh. discriminate.
Defined.

(** [logout] ends the session given and no other: afterwards the
    session is not authenticated, has no role and resolves to no user,
    and every other session is as before.  Logging out of a session that
    does not exist changes nothing. *)
Lemma logout_ends_session (sid : string) (auth : AuthManager) :
  let auth' := logout sid auth in
  is_authenticated sid auth' = false
  /\ (forall role, has_role sid role auth' = false)
  /\ get_session_user sid auth' = None
  /\ (forall other, other <> sid ->
                    sessions auth' !! other = sessions auth !! other)
  /\ users auth' = users auth
  /\ (sessions auth !! sid = None -> auth' = auth).
Proof.
  cbv zeta.
  assert (sessions (logout sid auth) !! sid = None) as Hgone.
  { unfold logout. destruct (sessions auth !! sid) eqn:E; simpl;
      [apply lookup_delete_eq | exact E]. }
  split; [| split; [| split; [| split; [| split]]]].
  - unfold is_authenticated. rewrite Hgone. apply bool_decide_eq_false.
    intros [? ?]. discriminate.
  - intros role. unfold has_role. now rewrite Hgone.
  - unfold get_session_user. now rewrite Hgone.
  - intros other Hne. unfold logout.
    destruct (sessions auth !! sid); simpl; [| reflexivity].
    now rewrite lookup_delete_ne.
  - unfold logout. now destruct (sessions auth !! sid).
  - intros Hnone. unfold logout. now rewrite Hnone.
Qed.

(** X29.  Roles.  A session that does not exist has no role.  A session
    stored with the role ['admin'] passes both the ['admin'] and the
    ['client'] check, one stored with the role ['client'] passes the
    ['client'] check only, and no session passes a check for any other
    role.  The role checked is the one stored with the session at login:
    deleting the user or switching the user to inactive leaves the
    session authenticated with the same roles, while [get_session_user]
    no longer resolves the session of a deleted user. *)
Theorem session_roles (sid : string) (auth : AuthManager) :
  (sessions auth !! sid = None -> forall role, has_role sid role auth = false)
  /\ (forall s,
         sessions auth !! sid = Some s ->
         (ses_role s = "admin" ->
          has_role sid "admin" auth = true
          /\ has_role sid "client" auth = true)
         /\ (ses_role s = "client" ->
             has_role sid "admin" auth = false
             /\ has_role sid "client" auth = true)
         /\ (forall role, role <> "admin" -> role <> "client" ->
                          has_role sid role auth = false))
  /\ (forall username role,
         has_role sid role (snd (delete_user username auth))
         = has_role sid role auth
         /\ is_authenticated sid (snd (delete_user username auth))
            = is_authenticated sid auth)
  /\ (forall username kwargs role,
         has_role sid role (snd (update_user username kwargs auth))
         = has_role sid role auth
         /\ is_authenticated sid (snd (update_user username kwargs auth))
            = is_authenticated sid auth)
  /\ (forall s,
         sessions auth !! sid = Some s ->
         fst (delete_user (ses_username s) auth) = true ->
         get_session_user sid (snd (delete_user (ses_username s) auth))
         = None).
Proof.
  split; [| split; [| split; [| split]]].
  - intros Hnone role. unfold has_role. now rewrite Hnone.
  - intros s Hs. unfold has_role. rewrite Hs. cbv zeta.
    split; [| split].
    + intros Hr. rewrite Hr. split; reflexivity.
    + intros Hr. rewrite Hr. split; reflexivity.
    + intros role H1 H2.
      rewrite decide_False by exact H1. now rewrite decide_False.
  - intros username role. unfold delete_user.
    destruct (users auth !! username); [| split; reflexivity].
    destruct (decide (username = "admin")); split; reflexivity.
  - intros username kwargs role. unfold update_user.
    destruct (users auth !! username); split; reflexivity.
  - intros s Hs. unfold delete_user.
    destruct (users auth !! ses_username s) eqn:Eu; [| discriminate].
    destruct (decide (ses_username s = "admin")); [discriminate |].
    intros _. unfold get_session_user. cbn [snd sessions users].
    rewrite Hs. cbv zeta. now rewrite lookup_delete_eq.
Qed.

Lemma session_roles_witness :
  has_role "token-1" "client" sample_auth = true
  /\ has_role "token-1" "admin" sample_auth = false
  /\ get_session_user "token-1" (snd (delete_user "alice" sample_auth)) = None
  /\ has_role "token-1" "client" (snd (delete_user "alice" sample_auth))
     = true.
Proof.
  destruct (session_roles "token-1" sample_auth)
    as (_ & Hrole & Hdel & _ & Hgone).
  destruct (Hrole (mkSession "alice" "client" 0) eq_refl) as (_ & Hc & _).
  destruct (Hc eq_refl) as [Ha Hcl].
  split; [exact Hcl |]. split; [exact Ha |]. split.
  - apply (Hgone (mkSession "alice" "client" 0)); reflexivity.
  - rewrite (proj1 (Hdel "alice" "client")). exact Hcl.
Defined.

(** ** Accounts *)

Section Accounts.

Variable hash : string -> string.

Lemma login_outcome (now : Z) (token username password : string)
    (auth : AuthManager) (u : User) :
  users auth !! username = Some u ->
  fst (login hash now token username password auth)
  = if usr_active u
    then if decide (usr_password_hash u = hash password)
         then Some (token, usr_role u) else None
    else None.
Proof.
  intros Hu. unfold login.
  change (users (_cleanup_expired_sessions now auth)) with (users auth).
  rewrite Hu. destruct (usr_active u); [| reflexivity].
  now destruct (decide _).
Qed.

(** X30.  The life of an account.  [create_client] never overwrites: for
    a name already taken it reports failure and changes nothing, and for
    a free name it adds an active account of role ['client'] that can log
    in with the password given, leaving every other account and every
    session as they were.  [change_password] on an existing account makes
    the new password the one that logs in (when the account is active)
    and rejects every password whose digest is not the new one's.  The
    account ['admin'] is never deleted. *)
Theorem account_lifecycle (now : Z) (today : Date)
    (username password name email : string) (capital : Q)
    (start : option Date) (auth : AuthManager) :
  let created :=
    create_client hash now today username password name email capital start
                  auth in
  (is_Some (users auth !! username) -> created = (false, auth))
  /\ (users auth !! username = None ->
      fst created = true
      /\ (forall other, other <> username ->
                        users (snd created) !! other = users auth !! other)
      /\ sessions (snd created) = sessions auth
      /\ forall now' token,
           fst (login hash now' token username password (snd created))
           = Some (token, "client"))
  /\ (forall u new_password,
         users auth !! username = Some u ->
         let changed := change_password hash username new_password auth in
         fst changed = true
         /\ (forall now' token,
                fst (login hash now' token username new_password
                           (snd changed))
                = if usr_active u then Some (token, usr_role u) else None)
         /\ (forall now' token other_password,
                hash other_password <> hash new_password ->
                fst (login hash now' token username other_password
                           (snd changed)) = None))
  /\ delete_user "admin" auth = (false, auth).
Proof.
  cbv zeta. split; [| split; [| split]].
  - intros [u Hu]. unfold create_client. now rewrite Hu.
  - intros Hnone. unfold create_client. rewrite Hnone. cbn [fst snd].
    split; [reflexivity |]. split; [| split; [reflexivity |]].
    + intros other Hne. cbn [users]. now rewrite lookup_insert_ne.
    + intros now' token.
      erewrite login_outcome
        by (cbn [users]; apply lookup_insert_eq).
      cbn [usr_active usr_password_hash usr_role].
      now rewrite decide_True.
  - intros u new_password Hu. unfold change_password. rewrite Hu.
    cbn [fst snd]. split; [reflexivity |]. split.
    + intros now' token.
      erewrite login_outcome
        by (cbn [users]; apply lookup_insert_eq).
      cbn [usr_active usr_password_hash usr_role].
      now rewrite decide_True.
    + intros now' token other_password Hne.
      erewrite login_outcome
        by (cbn [users]; apply lookup_insert_eq).
      cbn [usr_active usr_password_hash usr_role].
      rewrite decide_False by congruence. now destruct (usr_active u).
  - unfold delete_user. destruct (users auth !! "admin"); [| reflexivity].
    now rewrite decide_True.
Qed.

End Accounts.

Lemma account_lifecycle_witness :
  fst (login sample_hash 7 "token-3" "bob" "pw"
         (snd (create_client sample_hash 5 (mkDate 2025 6 1) "bob" "pw" "Bob"
                             "bob@example.com" 2500 None sample_auth)))
  = Some ("token-3", "client")
  /\ create_client sample_hash 5 (mkDate 2025 6 1) "alice" "pw" "Bob"
                   "bob@example.com" 2500 None sample_auth
     = (false, sample_auth)
  /\ fst (login sample_hash 7 "token-3" "alice" "secret"
            (snd (change_password sample_hash "alice" "fresh" sample_auth)))
     = None.
Proof.
  destruct (account_lifecycle sample_hash 5 (mkDate 2025 6 1) "bob" "pw" "Bob"
              "bob@example.com" 2500 None sample_auth)
    as (_ & Hnew & _).
  destruct (account_lifecycle sample_hash 5 (mkDate 2025 6 1) "alice" "pw"
              "Bob" "bob@example.com" 2500 None sample_auth)
    as (Htaken & _ & Hchange & _).
  split; [| split].
  - assert (users sample_auth !! "bob" = None) as Hfree
      by (vm_compute; reflexivity).
    destruct (Hnew Hfree) as (_ & _ & _ & Hlogin). apply Hlogin.
  - apply Htaken. vm_compute. eauto.
  - assert (exists u, users sample_auth !! "alice" = Some u) as [u Eu]
      by (vm_compute; eauto).
    destruct (Hchange u "fresh" Eu) as (_ & _ & Hreject).
    apply Hreject. vm_compute. discriminate.
Defined.

(** ** Strategy summary *)

Lemma round2_nonneg (x : Q) : 0 <= x -> 0 <= Num.round2 x.
Proof.
  intros Hx. pose proof (rint_close (x * 100)) as H.
  apply Qabs_Qle_condition in H as [H _].
  rewrite round2_value.
  assert (- (1 # 2) <= inject_Z (Num.rint (x * 100))) as Hk by lra.
  assert (0 <= Num.rint (x * 100))%Z as Hz.
  { unfold Qle in Hk. simpl in Hk. lia. }
  rewrite Zle_Qle in Hz. change (inject_Z 0) with 0 in Hz. lra.
Qed.

Lemma sum_nonneg (l : list Q) :
  (forall q, q ∈ l -> 0 <= q) -> 0 <= Num.sum l.
Proof.
  induction l as [| x l IH]; intros Hall.
  - unfold Num.sum. simpl. lra.
  - rewrite sum_cons.
    assert (0 <= x) by (apply Hall; left).
    assert (0 <= Num.sum l) by (apply IH; intros q Hq; apply Hall; now right).
    lra.
Qed.

Lemma sum_nonpos (l : list Q) :
  (forall q, q ∈ l -> q <= 0) -> Num.sum l <= 0.
Proof.
  induction l as [| x l IH]; intros Hall.
  - unfold Num.sum. simpl. lra.
  - rewrite sum_cons.
    assert (x <= 0) by (apply Hall; left).
    assert (Num.sum l <= 0) by (apply IH; intros q Hq; apply Hall; now right).
    lra.
Qed.

Lemma length_pos_Q {A : Type} (x : A) (l : list A) :
  0 < inject_Z (Z.of_nat (length (x :: l))).
Proof. change 0 with (inject_Z 0). rewrite <- Zlt_Qlt. simpl. lia. Qed.

Lemma mean_nonneg (l : list Q) :
  (forall q, q ∈ l -> 0 <= q) -> 0 <= Num.round2 (mean l).
Proof.
  intros Hall. apply round2_nonneg. unfold mean.
  destruct l as [| x l]; [vm_compute; discriminate |].
  apply Qle_shift_div_l; [apply length_pos_Q |].
  pose proof (sum_nonneg _ Hall). lra.
Qed.

Lemma mean_nonpos (l : list Q) :
  (forall q, q ∈ l -> q <= 0) -> Num.round2 (mean l) <= 0.
Proof.
  intros Hall. apply round2_nonpos. unfold mean.
  destruct l as [| x l]; [vm_compute; discriminate |].
  apply Qle_shift_div_r; [apply length_pos_Q |].
  pose proof (sum_nonpos _ Hall). lra.
Qed.

(** An infinity in a column makes its sum, and so its mean, an infinity or
    NaN. *)
Lemma fadd_finite (a b : Num.fval) :
  Num.is_finite (fadd a b) = true ->
  Num.is_finite a = true /\ Num.is_finite b = true.
Proof. destruct a, b; simpl; intros H; try discriminate; now split. Qed.

Lemma fold_fadd_finite (col : list Num.fval) :
  forall acc,
    Num.is_finite (fold_left fadd col acc) = true ->
    Num.is_finite acc = true /\ forall v, v ∈ col -> Num.is_finite v = true.
Proof.
  induction col as [| x col IH]; intros acc H; simpl in H.
  - split; [exact H |]. intros v Hv. inversion Hv.
  - destruct (IH _ H) as [Hacc Hcol].
    destruct (fadd_finite _ _ Hacc) as [Ha Hx].
    split; [exact Ha |]. intros v Hv.
    apply elem_of_cons in Hv as [-> | Hv]; [exact Hx | now apply Hcol].
Qed.

Lemma fdiv_count_finite (v : Num.fval) (n : Q) :
  Num.is_finite (Num.fdiv v (Num.Fin n)) = true -> Num.is_finite v = true.
Proof.
  destruct v; simpl; [reflexivity | | | discriminate];
    destruct (Num.sgn n); discriminate.
Qed.

Lemma fmean_finite (col : list Num.fval) :
  Num.is_finite (fmean col) = true ->
  forall v, v ∈ col -> is_nan v = false -> Num.is_finite v = true.
Proof.
  unfold fmean. intros H v Hv Hnan.
  assert (v ∈ filter (fun v => is_nan v = false) col) as Hkept
    by (apply list_elem_of_filter; now split).
  destruct (filter (fun v => is_nan v = false) col) as [| k kept] eqn:E;
    [inversion Hkept |].
  apply fdiv_count_finite, fold_fadd_finite in H as [_ H].
  now apply H.
Qed.

Lemma price_change_of_free_trade (t : Trade) :
  buy_price t == 0 -> ~ sell_price t == 0 ->
  is_nan (recomputed_return_pct t) = false
  /\ Num.is_finite (recomputed_return_pct t) = false.
Proof.
  intros Hbuy Hsell. unfold recomputed_return_pct, Num.fdiv, Num.sgn.
  assert ((buy_price t ?= 0) = Eq) as -> by now apply Qeq_alt.
  destruct (sell_price t - buy_price t ?= 0) eqn:E.
  - apply Qeq_alt in E. exfalso. apply Hsell. lra.
  - now split.
  - now split.
Qed.

Lemma fround2_finite (v : Num.fval) :
  Num.is_finite (Num.fround2 v) = Num.is_finite v.
Proof. now destruct v. Qed.

Section SummaryFacts.

Variable cid : option string.
Variable self : TradingDataManager.
Variable s : Summary.t.

Let trades := trades_for_client cid self.
Let winners := filter (fun t => 0 < profit_loss t) trades.
Let losers := filter (fun t => profit_loss t < 0) trades.
Let wins := length (filter (fun t => win_loss t = "Win") trades).

Hypothesis Hs : get_strategy_summary cid self = Some s.

(** The entries of the dictionary, read off the function body. *)
Lemma summary_fields :
  trades <> []
  /\ Summary.total_trades s = length trades
  /\ Summary.winning_trades s = wins
  /\ Summary.losing_trades s
     = (Z.of_nat (length trades) - Z.of_nat wins)%Z
  /\ Summary.win_rate s
     = Num.round2 (inject_Z (Z.of_nat wins)
                   / inject_Z (Z.of_nat (length trades)) * 100)
  /\ Summary.avg_winner s
     = Num.round2 match winners with
                  | [] => 0
                  | _ :: _ => mean (map profit_loss winners)
                  end
  /\ Summary.avg_loser s
     = Num.round2 match losers with
                  | [] => 0
                  | _ :: _ => mean (map profit_loss losers)
                  end
  /\ Summary.avg_winner_pct s
     = Num.fround2 match winners with
                   | [] => Num.Fin 0
                   | _ :: _ => fmean (map recomputed_return_pct winners)
                   end
  /\ Summary.cumulative_return s
     = Num.round2
         match get_monthly_strategy_returns None self with
         | [] => 0
         | _ :: _ =>
             List.last
               (map Cumulative_Return
                    (get_monthly_strategy_returns None self)) 0
         end.
Proof.
  subst trades winners losers wins. revert Hs.
  unfold get_strategy_summary.
  destruct (trades_df self) as [| t0 df0]; [discriminate |].
  destruct (trades_for_client cid self) as [| t ts] eqn:E; [discriminate |].
  change (0 <? length (t :: ts))%nat with true.
  destruct (filter (fun t => 0 < profit_loss t) (t :: ts));
    destruct (filter (fun t => profit_loss t < 0) (t :: ts));
    cbv beta iota zeta;
    intros [= <-]; cbn [Summary.total_trades Summary.winning_trades
                        Summary.losing_trades Summary.win_rate
                        Summary.avg_winner Summary.avg_loser
                        Summary.avg_winner_pct Summary.cumulative_return];
    (split; [discriminate |]); repeat split.
Qed.

End SummaryFacts.

(** X28.  [get_strategy_summary] returns the empty dictionary exactly when
    the client filter leaves no trade.  Otherwise [total_trades] counts
    the trades left by the filter, winning and losing trades add up to
    it, [win_rate] lies between 0 and 100, [avg_winner] is never negative
    and [avg_loser] never positive.  [cumulative_return] is taken from the
    monthly frame of the whole store: it is the same for every client.
    The average percentages are not guarded against a zero buy price: one
    gaining trade bought at price 0 and sold at another price makes
    [avg_winner_pct] an infinity or NaN. *)
Theorem strategy_summary_facts (cid : option string)
    (self : TradingDataManager) :
  (get_strategy_summary cid self = None <-> trades_for_client cid self = [])
  /\ forall s,
       get_strategy_summary cid self = Some s ->
       Summary.total_trades s = length (trades_for_client cid self)
       /\ (Z.of_nat (Summary.winning_trades s) + Summary.losing_trades s
           = Z.of_nat (Summary.total_trades s))%Z
       /\ (0 <= Summary.losing_trades s)%Z
       /\ 0 <= Summary.win_rate s <= 100
       /\ 0 <= Summary.avg_winner s
       /\ Summary.avg_loser s <= 0
       /\ (forall cid' s',
              get_strategy_summary cid' self = Some s' ->
              Summary.cumulative_return s' = Summary.cumulative_return s)
       /\ (forall t,
              t ∈ trades_for_client cid self ->
              0 < profit_loss t ->
              buy_price t == 0 ->
              ~ sell_price t == 0 ->
              Num.is_finite (Summary.avg_winner_pct s) = false).
Proof.
  split.
  - split.
    + intros Hnone.
      destruct (trades_for_client cid self) as [| t ts] eqn:E;
        [reflexivity |].
      exfalso. revert Hnone. unfold get_strategy_summary.
      destruct (trades_df self) as [| t0 df0] eqn:Edf.
      * now rewrite (trades_for_client_nil _ _ Edf) in E.
      * rewrite E. cbv zeta.
        destruct (filter (fun t => 0 < profit_loss t) (t :: ts));
          destruct (filter (fun t => profit_loss t < 0) (t :: ts));
          discriminate.
    + intros E. unfold get_strategy_summary. rewrite E.
      now destruct (trades_df self).
  - intros s Hs.
    destruct (summary_fields cid self s Hs)
      as (Hne & Htot & Hwin & Hlose & Hrate & Havgw & Havgl & Hpct & Hcum).
    assert (length (filter (fun t => win_loss t = "Win")
                      (trades_for_client cid self))
            <= length (trades_for_client cid self))%nat as Hle
      by apply length_filter.
    split; [exact Htot |]. split; [rewrite Hwin, Hlose, Htot; lia |].
    split; [rewrite Hlose; lia |]. split.
    { rewrite Hrate. apply win_rate_bounds; [| exact Hle].
      destruct (trades_for_client cid self); [contradiction | simpl; lia]. }
    split.
    { rewrite Havgw.
      destruct (filter (fun t => 0 < profit_loss t)
                  (trades_for_client cid self)) as [| w ws] eqn:E;
        [vm_compute; discriminate |].
      apply mean_nonneg. intros q Hq.
      apply elem_of_map in Hq as (t & -> & Ht).
      rewrite <- E in Ht. apply list_elem_of_filter in Ht as [Ht _].
      now apply Qlt_le_weak. }
    split.
    { rewrite Havgl.
      destruct (filter (fun t => profit_loss t < 0)
                  (trades_for_client cid self)) as [| w ws] eqn:E;
        [vm_compute; discriminate |].
      apply mean_nonpos. intros q Hq.
      apply elem_of_map in Hq as (t & -> & Ht).
      rewrite <- E in Ht. apply list_elem_of_filter in Ht as [Ht _].
      now apply Qlt_le_weak. }
    split.
    { intros cid' s' Hs'.
      destruct (summary_fields cid' self s' Hs')
        as (_ & _ & _ & _ & _ & _ & _ & _ & Hcum').
      now rewrite Hcum, Hcum'. }
    intros t Ht Hgain Hbuy Hsell.
    destruct (price_change_of_free_trade t Hbuy Hsell) as [Hnan Hinf].
    rewrite Hpct, fround2_finite.
    assert (t ∈ filter (fun t => 0 < profit_loss t)
                  (trades_for_client cid self)) as Hw
      by (apply list_elem_of_filter; now split).
    destruct (filter (fun t => 0 < profit_loss t)
                (trades_for_client cid self)) as [| w ws] eqn:E;
      [inversion Hw |].
    destruct (Num.is_finite (fmean (map recomputed_return_pct (w :: ws))))
      eqn:Hfin; [| reflexivity].
    rewrite <- Hinf. symmetry.
    apply (fmean_finite _ Hfin); [| exact Hnan].
    apply elem_of_map. now exists t.
Qed.

Lemma strategy_summary_facts_witness :
  (exists s s',
      get_strategy_summary (Some "late") store_summary = Some s
      /\ get_strategy_summary (Some "early") store_summary = Some s'
      /\ Summary.total_trades s = 1%nat
      /\ Summary.total_trades s' = 3%nat
      /\ Summary.cumulative_return s = Summary.cumulative_return s'
      /\ Num.is_finite (Summary.avg_winner_pct s) = false)
  /\ get_strategy_summary (Some "late") (set_trades store_summary []) = None.
Proof.
  destruct (strategy_summary_facts (Some "late") store_summary)
    as [_ Hfacts].
  destruct (strategy_summary_facts (Some "late")
              (set_trades store_summary [])) as [Hnone _].
  split; [| apply Hnone; reflexivity].
  destruct (get_strategy_summary (Some "late") store_summary) as [s |] eqn:Es;
    [| vm_compute in Es; discriminate].
  destruct (get_strategy_summary (Some "early") store_summary) as [s' |]
    eqn:Es'; [| vm_compute in Es'; discriminate].
  destruct (Hfacts s eq_refl) as (Htot & _ & _ & _ & _ & _ & Hcum & Hpct).
  exists s, s'. split; [reflexivity |]. split; [reflexivity |].
  split; [rewrite Htot; vm_compute; reflexivity |].
  split; [vm_compute in Es'; injection Es' as <-; reflexivity |].
  split; [symmetry; apply (Hcum (Some "early")); exact Es' |].
  destruct (trades_df store_summary !! 2%nat) as [t |] eqn:Et;
    [| vm_compute in Et; discriminate].
  apply (Hpct t).
  - apply list_elem_of_filter. split.
    + vm_compute in Et. injection Et as <-. vm_compute. exact I.
    + apply (list_elem_of_lookup_2 _ 2%nat). exact Et.
  - vm_compute in Et. injection Et as <-. reflexivity.
  - vm_compute in Et. injection Et as <-. reflexivity.
  - vm_compute in Et. injection Et as <-. vm_compute. discriminate.
Defined.
